(** * Hybrid retrieval-and-ranking engine of the movie recommendation backend

    A shallow embedding of [backend/cache.py], [backend/features.py],
    [backend/repositories/*.py],
    [backend/services/recommendation_service.py], the request
    validators of [backend/models/schemas.py], the middlewares, the
    explanation service and the endpoints of [backend/main.py],
    followed by the properties of the engine.

    Conventions of the embedding:
    - Python [int] is [Z]; the components of vectors, on which the code
      does arithmetic, are IEEE binary64 numbers ([float], with the
      rounding of each operation); scores, which are only copied and
      compared, and ratios of counts are rationals [Q];
    - [str] is [string] (a byte string; case folding and whitespace are the
      ASCII ones);
    - a raised exception is the [Raise] branch of [result];
    - [logger] calls append to an event log;
    - list objects that a caller shares with the service live in a heap
      ([gmap loc pyobj]);
    - external collaborators (Qdrant, PostgreSQL, Redis, the text encoder,
      the random source) are fields of the records passed to the service. *)

From Stdlib Require Import ZArith QArith Ascii String List Lia Permutation Sorted.
From Stdlib Require Import Floats.
From stdpp Require Import base gmap sets list strings pretty sorting.

Close Scope Q_scope.
Open Scope string_scope.
Open Scope list_scope.
Open Scope Z_scope.

(* ===================================================================== *)
(** ** Python runtime: exceptions, results, strings, slices               *)
(* ===================================================================== *)

Module Py.

(** The exception classes that the modelled code raises or catches.
    All of them derive from [Exception]. *)
Inductive exn : Type :=
  | ConnectionError      (* redis.exceptions.ConnectionError *)
  | TimeoutError         (* redis.exceptions.TimeoutError *)
  | ResponseError        (* any other redis error *)
  | TypeError            (* json.dumps on a non-serialisable object *)
  | JSONDecodeError      (* json.loads on malformed text *)
  | ValueError           (* random.sample, numpy shape errors *)
  | IndexError           (* sequence index out of range *)
  | OperationalError     (* psycopg2 connection failure *)
  | QdrantError          (* vector index unreachable / rejected request *)
  | EncoderError.        (* text encoder failure *)

Inductive result (A : Type) : Type :=
  | Ok (a : A)
  | Raise (e : exn).
Arguments Ok {A} a.
Arguments Raise {A} e.

(** Sequencing: the first exception aborts the rest. *)
Definition bind {A B} (m : result A) (k : A -> result B) : result B :=
  match m with
  | Ok a => k a
  | Raise e => Raise e
  end.

Notation "'try' x := m 'in' k" := (bind m (fun x => k))
  (at level 10, x name, m at level 100, k at level 200).

(** [seq[:stop]] for a Python integer [stop]. *)
Definition slice_to {A} (l : list A) (stop : Z) : list A :=
  if 0 <=? stop then firstn (Z.to_nat stop) l
  else firstn (length l - Z.to_nat (- stop)) l.

(** [str.lower()] on ASCII. *)
Definition lower_ascii (c : ascii) : ascii :=
  let n := nat_of_ascii c in
  if ((65 <=? n) && (n <=? 90))%nat then ascii_of_nat (n + 32) else c.

Fixpoint lower (s : string) : string :=
  match s with
  | EmptyString => EmptyString
  | String c s' => String (lower_ascii c) (lower s')
  end.

(** [str.isspace()] for one ASCII character. *)
Definition is_space (c : ascii) : bool :=
  let n := nat_of_ascii c in
  (((9 <=? n) && (n <=? 13)) || ((28 <=? n) && (n <=? 32)))%nat.

Fixpoint lstrip (s : string) : string :=
  match s with
  | EmptyString => EmptyString
  | String c s' => if is_space c then lstrip s' else s
  end.

Fixpoint rstrip (s : string) : string :=
  match s with
  | EmptyString => EmptyString
  | String c s' =>
      match rstrip s' with
      | EmptyString => if is_space c then EmptyString else String c EmptyString
      | r => String c r
      end
  end.

(** [str.strip()]. *)
Definition strip (s : string) : string := rstrip (lstrip s).

(** [s.split(sep)] for a one-character separator: never returns the
    empty list; [''.split('|') = ['']]. *)
Fixpoint split (sep : ascii) (s : string) : list string :=
  match s with
  | EmptyString => [EmptyString]
  | String c s' =>
      if Ascii.eqb c sep then EmptyString :: split sep s'
      else match split sep s' with
           | [] => [String c EmptyString]
           | p :: ps => String c p :: ps
           end
  end.

(** The UTF-8 bytes of a (byte) string. *)
Fixpoint encode_utf8 (s : string) : list Z :=
  match s with
  | EmptyString => []
  | String c s' => Z.of_nat (nat_of_ascii c) :: encode_utf8 s'
  end.

(** Values that reach [str()] / f-string formatting in the modelled code. *)
Inductive value : Type :=
  | VInt (n : Z)
  | VStr (s : string)
  | VObject (cls : string) (addr : N).   (* an instance without __str__ *)

Definition hex_char (d : N) : ascii :=
  ascii_of_N (if (d <? 10)%N then 48 + d else 87 + d)%N.

Fixpoint hex_pos (fuel : nat) (n : N) (acc : string) : string :=
  match fuel with
  | O => acc
  | S f =>
      let acc' := String (hex_char (n mod 16)%N) acc in
      if (n <? 16)%N then acc' else hex_pos f (n / 16)%N acc'
  end.

(** [hex(n)[2:]]. *)
Definition hex_of_N (n : N) : string := hex_pos (S (N.to_nat (N.log2 n))) n "".

(** [str(v)]: decimal digits for integers, the default
    [<module.Class object at 0x...>] for plain instances. *)
Definition str (v : value) : string :=
  match v with
  | VInt n => pretty n
  | VStr s => s
  | VObject cls addr => "<" +:+ cls +:+ " object at 0x" +:+ hex_of_N addr +:+ ">"
  end.

End Py.
Import Py.

(* ===================================================================== *)
(** ** hashlib.sha256                                                      *)
(* ===================================================================== *)

Module Sha256.

Definition w32 (x : Z) : Z := x mod 2 ^ 32.
Definition add32 (x y : Z) : Z := w32 (x + y).
Definition not32 (x : Z) : Z := Z.lxor x (2 ^ 32 - 1).
Definition rotr (n x : Z) : Z :=
  w32 (Z.lor (Z.shiftr x n) (Z.shiftl x (32 - n))).
Definition shr (n x : Z) : Z := Z.shiftr x n.

Definition Ch (x y z : Z) : Z := Z.lxor (Z.land x y) (Z.land (not32 x) z).
Definition Maj (x y z : Z) : Z :=
  Z.lxor (Z.lxor (Z.land x y) (Z.land x z)) (Z.land y z).
Definition Sigma0 (x : Z) : Z := Z.lxor (Z.lxor (rotr 2 x) (rotr 13 x)) (rotr 22 x).
Definition Sigma1 (x : Z) : Z := Z.lxor (Z.lxor (rotr 6 x) (rotr 11 x)) (rotr 25 x).
Definition sigma0 (x : Z) : Z := Z.lxor (Z.lxor (rotr 7 x) (rotr 18 x)) (shr 3 x).
Definition sigma1 (x : Z) : Z := Z.lxor (Z.lxor (rotr 17 x) (rotr 19 x)) (shr 10 x).

(** The first [count] primes. *)
Definition is_prime (n : Z) : bool :=
  forallb (fun d => negb (n mod d =? 0))
          (List.filter (fun d => d * d <=? n) (seqZ 2 (n - 2))).

Definition primes (count : nat) : list Z :=
  firstn count (List.filter is_prime (seqZ 2 310)).

(** Integer cube root, one bit at a time. *)
Fixpoint icbrt_go (bits : nat) (n r : Z) : Z :=
  match bits with
  | O => r
  | S b =>
      let c := r + 2 ^ Z.of_nat b in
      icbrt_go b n (if c * c * c <=? n then c else r)
  end.

Definition icbrt (n : Z) : Z := icbrt_go 40 n 0.

(** Round constants: the first 32 bits of the fractional parts of the
    cube roots of the first 64 primes. *)
Definition K : list Z :=
  (fun p => icbrt (p * 2 ^ 96) mod 2 ^ 32) <$> primes 64.

(** Initial hash value: the first 32 bits of the fractional parts of the
    square roots of the first 8 primes. *)
Definition H0 : list Z :=
  (fun p => Z.sqrt (p * 2 ^ 64) mod 2 ^ 32) <$> primes 8.

(** Big-endian bytes of [x], [n] of them. *)
Fixpoint be_bytes (n : nat) (x : Z) : list Z :=
  match n with
  | O => []
  | S n' => be_bytes n' (x / 256) ++ [x mod 256]
  end.

(** Message padding: 0x80, zeros up to 56 mod 64, 64-bit bit length. *)
Definition pad (msg : list Z) : list Z :=
  let len := Z.of_nat (length msg) in
  let zeros := Z.to_nat ((55 - len) mod 64) in
  msg ++ [128] ++ repeat 0 zeros ++ be_bytes 8 (8 * len).

Fixpoint words (fuel : nat) (bs : list Z) : list Z :=
  match fuel, bs with
  | S f, a :: b :: c :: d :: rest =>
      (((a * 256 + b) * 256 + c) * 256 + d) :: words f rest
  | _, _ => []
  end.

Fixpoint blocks (fuel : nat) (ws : list Z) : list (list Z) :=
  match fuel, ws with
  | S f, _ :: _ => firstn 16 ws :: blocks f (skipn 16 ws)
  | _, _ => []
  end.

(** Message schedule; [rev_w] holds the words computed so far, newest
    first. *)
Fixpoint schedule (n : nat) (rev_w : list Z) : list Z :=
  match n with
  | O => rev rev_w
  | S n' =>
      let w := add32 (add32 (sigma1 (nth 1 rev_w 0)) (nth 6 rev_w 0))
                     (add32 (sigma0 (nth 14 rev_w 0)) (nth 15 rev_w 0)) in
      schedule n' (w :: rev_w)
  end.

Record regs : Type := Regs { ra : Z; rb : Z; rc : Z; rd : Z;
                             re : Z; rf : Z; rg : Z; rh : Z }.

Definition round (s : regs) (kw : Z * Z) : regs :=
  let '(Regs a b c d e f g h) := s in
  let t1 := add32 (add32 (add32 h (Sigma1 e)) (add32 (Ch e f g) (fst kw))) (snd kw) in
  let t2 := add32 (Sigma0 a) (Maj a b c) in
  Regs (add32 t1 t2) a b c (add32 d t1) e f g.

Definition regs_of (h : list Z) : regs :=
  Regs (nth 0 h 0) (nth 1 h 0) (nth 2 h 0) (nth 3 h 0)
       (nth 4 h 0) (nth 5 h 0) (nth 6 h 0) (nth 7 h 0).

Definition list_of (s : regs) : list Z :=
  [ra s; rb s; rc s; rd s; re s; rf s; rg s; rh s].

Definition compress (h : list Z) (block : list Z) : list Z :=
  let w := schedule 48 (rev block) in
  let s := fold_left round (combine K w) (regs_of h) in
  map (fun p => add32 (fst p) (snd p)) (combine h (list_of s)).

(** The eight 32-bit words of the digest. *)
Definition sha256 (msg : list Z) : list Z :=
  let p := pad msg in
  let ws := words (length p) p in
  fold_left compress (blocks (length ws) ws) H0.

Definition hex8 (w : Z) : string :=
  fold_right (fun i acc => String (hex_char (Z.to_N ((w / 16 ^ i) mod 16))) acc)
             "" [7; 6; 5; 4; 3; 2; 1; 0].

(** [hashlib.sha256(msg).hexdigest()]. *)
Definition hexdigest (msg : list Z) : string :=
  fold_right (fun w acc => hex8 w +:+ acc) "" (sha256 msg).

Definition hex_val (c : ascii) : Z :=
  let n := Z.of_nat (nat_of_ascii c) in
  if (48 <=? n) && (n <=? 57) then n - 48
  else if (97 <=? n) && (n <=? 102) then n - 87
  else if (65 <=? n) && (n <=? 70) then n - 55
  else 0.

Fixpoint int16_go (s : string) (acc : Z) : Z :=
  match s with
  | EmptyString => acc
  | String c s' => int16_go s' (16 * acc + hex_val c)
  end.

(** [int(s, 16)] on a string of hexadecimal digits. *)
Definition int16 (s : string) : Z := int16_go s 0.

End Sha256.

(* ===================================================================== *)
(** ** backend/features.py                                                 *)
(* ===================================================================== *)

Module Features.

Module FeatureFlags.
Definition ENABLE_AB_TESTING : bool := true.
Definition ENABLE_EXPLANATIONS : bool := true.
End FeatureFlags.

(** [get_user_experiment_group(user_id)]; [user_id] is an [int] or a
    [str]. *)
Definition get_user_experiment_group (user_id : value) : string :=
  if negb FeatureFlags.ENABLE_AB_TESTING then "control"
  else
    let hash_input := encode_utf8 (str user_id) in
    let hash_val := Sha256.int16 (Sha256.hexdigest hash_input) in
    if hash_val mod 2 =? 0 then "control" else "treatment".

End Features.

(* ===================================================================== *)
(** ** Python containers used by the service                               *)
(* ===================================================================== *)

Module Containers.

(** A [dict] with integer keys, in insertion order: assigning to a key
    that is present replaces the value and keeps the position. *)
Definition pydict (V : Type) : Type := list (Z * V).

Fixpoint dict_set {V} (k : Z) (v : V) (d : pydict V) : pydict V :=
  match d with
  | [] => [(k, v)]
  | (k', v') :: d' =>
      if k =? k' then (k, v) :: d' else (k', v') :: dict_set k v d'
  end.

Fixpoint dict_get {V} (k : Z) (d : pydict V) : option V :=
  match d with
  | [] => None
  | (k', v') :: d' => if k =? k' then Some v' else dict_get k d'
  end.

(** [{key(x): val(x) for x in xs}]. *)
Definition dict_comp {A V} (key : A -> Z) (val : A -> V) (xs : list A)
  : pydict V :=
  fold_left (fun d x => dict_set (key x) (val x) d) xs [].

Definition dict_keys {V} (d : pydict V) : list Z := fst <$> d.
Definition dict_values {V} (d : pydict V) : list V := snd <$> d.

(** [x in xs] for a list of integers. *)
Definition list_contains (x : Z) (xs : list Z) : bool :=
  existsb (Z.eqb x) xs.

(** [list.sort(key=..., reverse=True)]: a stable sort into descending
    key order; [lt a b] is [key(a) < key(b)].  Elements whose keys are
    equal keep their original relative order. *)
Fixpoint insert_desc {A} (lt : A -> A -> bool) (x : A) (l : list A) : list A :=
  match l with
  | [] => [x]
  | y :: l' => if lt x y then y :: insert_desc lt x l' else x :: l
  end.

Definition sort_desc {A} (lt : A -> A -> bool) (l : list A) : list A :=
  fold_right (insert_desc lt) [] l.

(** [random.sample(population, k)], the pool branch of CPython:
<<
    pool = list(population)
    for i in range(k):
        j = randbelow(n - i)
        result[i] = pool[j]
        pool[j] = pool[n - i - 1]
>>
    CPython takes this branch when [n <= 21] (and for larger [k] when
    [n <= 21 + 4 ** ceil(log(3 * k, 4))]), which covers every population
    of at most [2 * k] elements.  [rand i] is the raw value behind the
    [i]-th call of [randbelow]; [m] is [n - i]. *)
Fixpoint sample_go {A} (rand : nat -> nat) (i k : nat) (pool : list A) (m : nat)
  : list A :=
  match k with
  | O => []
  | S k' =>
      let j := (rand i mod m)%nat in
      match pool !! j, pool !! (m - 1)%nat with
      | Some x, Some y => x :: sample_go rand (S i) k' (<[j := y]> pool) (m - 1)
      | _, _ => []
      end
  end.

Definition random_sample {A} (rand : nat -> nat) (population : list A) (k : Z)
  : result (list A) :=
  let n := length population in
  if (k <? 0) || (Z.of_nat n <? k) then Raise ValueError
  else Ok (sample_go rand 0 (Z.to_nat k) population n).

End Containers.
Import Containers.

(* ===================================================================== *)
(** ** backend/cache.py                                                    *)
(* ===================================================================== *)

Module Cache.

(** The Redis server as the client sees it during one wrapped call: the
    stored entries (TTL in seconds and payload per key) and whether the
    next [GET] / [SETEX] fails, and how. *)
Record Redis : Type := {
  kv : gmap string (Z * string);
  get_fault : option exn;
  setex_fault : option exn
}.

Definition redis_get (c : Redis) (key : string) : result (option string) :=
  match get_fault c with
  | Some e => Raise e
  | None => Ok (snd <$> kv c !! key)
  end.

Definition redis_setex (c : Redis) (key : string) (ttl : Z) (payload : string)
  : result Redis :=
  match setex_fault c with
  | Some e => Raise e
  | None => Ok {| kv := <[key := (ttl, payload)]> (kv c);
                  get_fault := get_fault c;
                  setex_fault := setex_fault c |}
  end.

(** [except (ConnectionError, TimeoutError)]. *)
Definition caught (e : exn) : bool :=
  match e with
  | ConnectionError | TimeoutError => true
  | _ => false
  end.

(** Keyword arguments of a call. *)
Definition kwargs : Type := list (string * value).

(** [f"{key_prefix}:{args[0]}" if args else f"{key_prefix}:default"]. *)
Definition cache_key (key_prefix : string) (args : list value) : string :=
  match args with
  | a :: _ => key_prefix +:+ ":" +:+ str a
  | [] => key_prefix +:+ ":default"
  end.

Section Decorator.
(** [V] is the type of the results of the decorated function and [S]
    the state it works on; [json.dumps] and [json.loads] are the
    standard library's. *)
Context {V S : Type}.
Variable json_dumps : V -> result string.
Variable json_loads : string -> result V.

(** The state of a wrapped call: the module global [_redis_client] and
    the state of the decorated function. *)
Definition world : Type := option Redis * S.

(** Lines 94-105: compute, try to store, return. *)
Definition compute_and_store (ttl_seconds : Z)
    (func : list value -> kwargs -> S -> result V * S)
    (cache_key : string) (args : list value) (kw : kwargs) (w : world)
  : result V * world :=
  let '(client, s) := w in
  let '(r, s') := func args kw s in
  match r with
  | Raise e => (Raise e, (client, s'))
  | Ok result =>
      match client with
      | None => (Ok result, (client, s'))
      | Some c =>
          match json_dumps result with
          | Raise e => (Raise e, (client, s'))
          | Ok payload =>
              match redis_setex c cache_key ttl_seconds payload with
              | Ok c' => (Ok result, (Some c', s'))
              | Raise e =>
                  if caught e then (Ok result, (client, s'))
                  else (Raise e, (client, s'))
              end
          end
      end
  end.

(** The [wrapper] that [cache_result(key_prefix, ttl_seconds)(func)]
    returns, applied to positional and keyword arguments. *)
Definition cache_result (key_prefix : string) (ttl_seconds : Z)
    (func : list value -> kwargs -> S -> result V * S)
    (args : list value) (kw : kwargs) (w : world) : result V * world :=
  let cache_key := cache_key key_prefix args in
  let client := fst w in
  match client with
  | Some c =>
      match redis_get c cache_key with
      | Ok (Some cached) => (json_loads cached, w)
      | Ok None => compute_and_store ttl_seconds func cache_key args kw w
      | Raise e =>
          if caught e
          then compute_and_store ttl_seconds func cache_key args kw w
          else (Raise e, w)
      end
  | None => compute_and_store ttl_seconds func cache_key args kw w
  end.

End Decorator.

End Cache.

(* ===================================================================== *)
(** ** backend/repositories/vector_repository.py                           *)
(* ===================================================================== *)

Module VectorRepository.

(** An embedding vector: a list of [float64]. *)
Notation vector := (list float) (only parsing).

(** One search hit: [{"movie_id": ..., "score": ...}]. *)
Record Candidate : Type := { movie_id : Z; score : Q }.

(** The Qdrant collection behind the client. *)
Record Qdrant : Type := {
  (** [client.query_points(collection, query, limit).points], already
      projected to payload id and score *)
  query_points : vector -> Z -> result (list Candidate);
  (** [client.retrieve(collection, ids, with_vectors=True)]: the vector
      of each point found, or [None] *)
  retrieve : list Z -> result (list (option vector))
}.

Definition search_similar (q : Qdrant) (query_vector : vector) (limit : Z)
  : result (list Candidate) :=
  query_points q query_vector limit.

(** Truth value of [point.vector]. *)
Definition truthy_vector (v : option vector) : option vector :=
  match v with
  | Some (x :: xs) => Some (x :: xs)
  | _ => None
  end.

Definition get_vectors_by_ids (q : Qdrant) (movie_ids : list Z)
  : result (list vector) :=
  match movie_ids with
  | [] => Ok []
  | _ :: _ =>
      try points := retrieve q movie_ids in
      Ok (omap truthy_vector points)
  end.

(** Componentwise sum of two rows of equal length, each sum rounded to
    the nearest [float64]. *)
Fixpoint vadd (a b : vector) : vector :=
  match a, b with
  | x :: a', y :: b' => (x + y)%float :: vadd a' b'
  | _, _ => []
  end.

(** [acc + x1 + x2 + ...], from the left. *)
Definition sum_from (acc : float) (xs : list float) : float :=
  fold_left PrimFloat.add xs acc.

(** The eight accumulators of NumPy's blocked sum. *)
Record lanes : Type := Lanes {
  r0 : float; r1 : float; r2 : float; r3 : float;
  r4 : float; r5 : float; r6 : float; r7 : float
}.

(** Each complete run of eight elements is added to the accumulators;
    what is left over is returned. *)
Fixpoint accumulate (r : lanes) (rest : list float) : lanes * list float :=
  match rest with
  | a0 :: a1 :: a2 :: a3 :: a4 :: a5 :: a6 :: a7 :: rest' =>
      accumulate (Lanes (r0 r + a0) (r1 r + a1) (r2 r + a2) (r3 r + a3)
                        (r4 r + a4) (r5 r + a5) (r6 r + a6) (r7 r + a7))%float
                 rest'
  | _ => (r, rest)
  end.

(** The sum of 8 to 128 elements. *)
Definition block_sum (xs : list float) : float :=
  match xs with
  | a0 :: a1 :: a2 :: a3 :: a4 :: a5 :: a6 :: a7 :: rest =>
      let '(r, tail) := accumulate (Lanes a0 a1 a2 a3 a4 a5 a6 a7) rest in
      sum_from (((r0 r + r1 r) + (r2 r + r3 r)) +
                ((r4 r + r5 r) + (r6 r + r7 r)))%float tail
  | _ => sum_from (-0)%float xs
  end.

(** NumPy's pairwise summation of a run of [float64]: fewer than 8
    elements are added from the left, up to 128 in eight accumulators,
    and a longer run is split near its middle, at a multiple of 8.
    [depth] bounds the number of splits. *)
Fixpoint pairwise_sum_upto (depth : nat) (xs : list float) : float :=
  let n := length xs in
  if (n <? 8)%nat then sum_from (-0)%float xs
  else
    match depth with
    | S depth' =>
        if (n <=? 128)%nat then block_sum xs
        else
          let n2 := (n / 2 - (n / 2) mod 8)%nat in
          (pairwise_sum_upto depth' (take n2 xs) +
           pairwise_sum_upto depth' (drop n2 xs))%float
    | O => block_sum xs
    end.

Definition pairwise_sum (xs : list float) : float :=
  pairwise_sum_upto (length xs) xs.

(** The number of rows as a [float64] (exact below 2^53). *)
Definition float_of_nat (n : nat) : float :=
  PrimFloat.of_uint63 (Uint63.of_Z (Z.of_nat n)).

(** [np.mean([v0] + vs, axis=0)] for a non-empty list of rows.  Rows of
    unequal length are rejected.  Otherwise NumPy adds the rows up in
    [float64], starting from zeros, and divides each sum by the number
    of rows.  Rows of two or more components are added one after the
    other; a single column is a contiguous run, which its add loop sums
    pairwise. *)
Definition np_mean (v0 : vector) (vs : list vector) : result vector :=
  if forallb (fun v => (length v =? length v0)%nat) vs
  then
    let rows := v0 :: vs in
    let n := float_of_nat (length rows) in
    let sums :=
      match v0 with
      | [_] => [(0 + pairwise_sum ((fun r => nth 0 r 0%float) <$> rows))%float]
      | _ => fold_left vadd rows (replicate (length v0) 0%float)
      end in
    Ok ((fun s => (s / n)%float) <$> sums)
  else Raise ValueError.

Definition compute_centroid (vectors : list vector) : result vector :=
  match vectors with
  | [] => Ok []
  | v0 :: vs => np_mean v0 vs
  end.

End VectorRepository.
Import VectorRepository.

(* ===================================================================== *)
(** ** backend/repositories/movie_repository.py                            *)
(* ===================================================================== *)

Module MovieRepository.

(** A row of the [movies] table: movie_id, title, genres, poster_url. *)
Record Row : Type := {
  row_movie_id : Z;
  row_title : string;
  row_genres : string;
  row_poster_url : option string
}.

(** The value of one entry of the dict that [get_movies_by_ids] returns. *)
Record MovieData : Type := {
  data_id : Z;
  data_title : string;
  data_genres : string;
  data_poster_url : option string
}.

(** The PostgreSQL server: whether [psycopg2.connect] fails, the rows of
    [movies] in the order a scan returns them, and the server's [ILIKE]
    operator (text, pattern). *)
Record Postgres : Type := {
  connect_fault : option exn;
  movies : list Row;
  ilike : string -> string -> bool
}.

Definition connect (db : Postgres) : result (list Row) :=
  match connect_fault db with
  | Some e => Raise e
  | None => Ok (movies db)
  end.

Definition data_of_row (r : Row) : MovieData :=
  {| data_id := row_movie_id r;
     data_title := row_title r;
     data_genres := row_genres r;
     data_poster_url := row_poster_url r |}.

(** [SELECT movie_id, title, genres, poster_url FROM movies
     WHERE movie_id IN (...)], then a dict keyed by [row[0]]. *)
Definition get_movies_by_ids (db : Postgres) (movie_ids : list Z)
  : result (pydict MovieData) :=
  match movie_ids with
  | [] => Ok []
  | _ :: _ =>
      try table := connect db in
      let rows := filter (fun r => Is_true (list_contains (row_movie_id r) movie_ids))
                         table in
      Ok (dict_comp row_movie_id data_of_row rows)
  end.

Inductive condition : Type :=
  | GenresILike (pattern : string)
  | TitleILike (pattern : string).

Definition holds (db : Postgres) (r : Row) (c : condition) : bool :=
  match c with
  | GenresILike p => ilike db (row_genres r) p
  | TitleILike p => ilike db (row_title r) p
  end.

(** [SELECT movie_id FROM movies WHERE c1 OR c2 ... LIMIT limit]. *)
Definition find_movies_by_criteria (db : Postgres)
    (genres keywords : option (list string)) (limit : Z) : result (list Z) :=
  let conditions :=
    ((fun g => GenresILike ("%" +:+ g +:+ "%")) <$> default [] genres) ++
    ((fun kw => TitleILike ("%" +:+ kw +:+ "%")) <$> default [] keywords) in
  match conditions with
  | [] => Ok []
  | _ :: _ =>
      try table := connect db in
      let rows := filter (fun r => Is_true (existsb (holds db r) conditions)) table in
      Ok (row_movie_id <$> firstn (Z.to_nat limit) rows)
  end.

End MovieRepository.
Import MovieRepository.

(* ===================================================================== *)
(** ** backend/services/search_service.py                                  *)
(* ===================================================================== *)

Module SearchService.

Record ContentSearchService : Type := {
  (** [model.encode(query)] *)
  encode : string -> result vector;
  (** [client.query_points("movies_content", vector, limit).points],
      projected to [payload["movie_id"]] *)
  content_points : vector -> Z -> result (list Z)
}.

Definition search (s : ContentSearchService) (query : string) (limit : Z)
  : result (list Z) :=
  try v := encode s query in
  content_points s v limit.

End SearchService.

(* ===================================================================== *)
(** ** backend/models/schemas.py                                           *)
(* ===================================================================== *)

Module Models.

Record Movie : Type := {
  id : Z;
  title : string;
  genres : string;           (* pipe-delimited *)
  poster_url : option string;
  score : Q
}.

End Models.

(* ===================================================================== *)
(** ** backend/services/recommendation_service.py                          *)
(* ===================================================================== *)

Module RecommendationService.

Import SearchService.
Abbreviation Movie := Models.Movie.

(** *** Shared list objects *)

Definition loc : Type := positive.

Inductive pyobj : Type :=
  | IntList (xs : list Z)
  | StrList (xs : list string).

Abbreviation heap := (gmap loc pyobj).

(** The contents of the list of integers at [l]; callers pass references
    to live lists of the right element type. *)
Definition load_ints (h : heap) (l : loc) : list Z :=
  match h !! l with
  | Some (IntList xs) => xs
  | _ => []
  end.

Definition load_strs (h : heap) (l : loc) : list string :=
  match h !! l with
  | Some (StrList xs) => xs
  | _ => []
  end.

(** *** Log records *)

Inductive log_event : Type :=
  | DebugVariantB (user_id : Z)
      (* "Serving recommendation for Variant B (Discovery Mode) ..." *)
  | WarningFallbackColdStart (user_id : Z)
      (* "User ... has no vector. Falling back to cold start." *)
  | ErrorRecommendations (user_id : Z) (e : exn)
      (* "Error generating recommendations for user ..." *)
  | InfoNeuralSearch (query : string)
      (* "Performing Neural Search for: ..." *)
  | InfoNeuralFound (search_ids : list Z)
      (* "Neural Search found: ..." *)
  | ErrorNeuralFailed (e : exn).
      (* "Neural Search failed: ..." *)

(** *** The service object *)

Record Service : Type := {
  movie_repo : Postgres;
  vector_repo : Qdrant;
  _user_embeddings : option (list vector);  (* rows of the embedding matrix *)
  _user_encoder : option (list Z)           (* LabelEncoder.classes_ *)
}.

Definition is_ready (self : Service) : bool :=
  match _user_embeddings self, _user_encoder self with
  | Some _, Some _ => true
  | _, _ => false
  end.

(** [encoder.transform([x])[0]]: the position of [x] in [classes_]. *)
Fixpoint transform (x : Z) (classes : list Z) : nat :=
  match classes with
  | [] => O
  | c :: cs => if x =? c then O else S (transform x cs)
  end.

Definition get_user_vector (self : Service) (user_id : Z)
  : result (option vector) :=
  match _user_embeddings self, _user_encoder self with
  | Some embeddings, Some classes =>
      if negb (list_contains user_id classes) then Ok None
      else
        let internal_idx := transform user_id classes in
        match embeddings !! internal_idx with
        | Some v => Ok (Some v)
        | None => Raise IndexError
        end
  | _, _ => Ok None
  end.

Definition get_known_user_ids (self : Service) : list Z :=
  match _user_embeddings self, _user_encoder self with
  | Some _, Some classes => classes
  | _, _ => []
  end.

(** *** Enrichment *)

Definition make_movie (data : MovieData) (score : Q) : Movie :=
  {| Models.id := data_id data;
     Models.title := data_title data;
     Models.genres := data_genres data;
     Models.poster_url := data_poster_url data;
     Models.score := score |}.

Definition _enrich_movies (self : Service) (movie_ids : list Z)
    (scores : pydict Q) : result (list Movie) :=
  try movie_data := get_movies_by_ids (movie_repo self) movie_ids in
  Ok (omap (fun mid =>
              match dict_get mid movie_data with
              | Some data => Some (make_movie data (default 0%Q (dict_get mid scores)))
              | None => None
              end) movie_ids).

(** *** Genre re-ranking *)

(** [{g.lower() for g in target_genres}]. *)
Definition target_set (target_genres : list string) : gset string :=
  list_to_set (lower <$> target_genres).

(** [{g.strip().lower() for g in movie.genres.split("|")}]. *)
Definition movie_genres (movie : Movie) : gset string :=
  list_to_set ((fun g => lower (strip g)) <$> split "|" (Models.genres movie)).

(** An element of [ranked_movies]. *)
Record ranked : Type := {
  movie : Movie;
  jaccard : Q;
  original_score : Q
}.

Definition rank_entry (target : gset string) (m : Movie) : option ranked :=
  let mg := movie_genres m in
  let intersection := size (mg ∩ target) in
  let union := size (mg ∪ target) in
  let jaccard_score :=
    if (0 <? union)%nat
    then Qdiv (inject_Z (Z.of_nat intersection)) (inject_Z (Z.of_nat union))
    else 0%Q in
  if (0 <? intersection)%nat
  then Some {| movie := m; jaccard := jaccard_score;
               original_score := Models.score m |}
  else None.

Definition Qltb (a b : Q) : bool := negb (Qle_bool b a).

(** [<] on the tuples [(jaccard, original_score)]. *)
Definition key_lt (a b : ranked) : bool :=
  if Qeq_bool (jaccard a) (jaccard b)
  then Qltb (original_score a) (original_score b)
  else Qltb (jaccard a) (jaccard b).

Definition _rank_by_genre_similarity (movies : list Movie)
    (target_genres : list string) : list Movie :=
  match target_genres with
  | [] => movies
  | _ :: _ =>
      let target := target_set target_genres in
      let ranked_movies := omap (rank_entry target) movies in
      movie <$> sort_desc key_lt ranked_movies
  end.

(** *** Cold start *)

(** What the service hands back: [Movie] objects, or the row dicts of
    the repository on the criteria path. *)
Inductive item : Type :=
  | MovieObj (m : Movie)
  | RowDict (d : MovieData).

Definition item_id (x : item) : Z :=
  match x with
  | MovieObj m => Models.id m
  | RowDict d => data_id d
  end.

(** Truth value of an optional list argument. *)
Definition truthy {A} (l : option (list A)) : bool :=
  match l with
  | Some (_ :: _) => true
  | _ => false
  end.

(** Step 0 (lines 157-168): the ids that [selected_movie_ids.extend]
    appends, if the search ran to completion, and the log records. *)
Definition neural_search (query : option string)
    (search_service : option ContentSearchService)
  : option (list Z) * list log_event :=
  match query, search_service with
  | Some (String c q), Some s =>
      let query := String c q in
      match search s query 5 with
      | Ok search_ids =>
          (Some search_ids, [InfoNeuralSearch query; InfoNeuralFound search_ids])
      | Raise e => (None, [InfoNeuralSearch query; ErrorNeuralFailed e])
      end
  | _, _ => (None, [])
  end.

(** Lines 170-214, with [selected_movie_ids] the contents of the list
    after step 0. *)
Definition cold_start_strategies (self : Service) (selected_movie_ids : list Z)
    (genres keywords : option (list string)) (top_k : Z) : result (list item) :=
  try selected_vectors :=
    match selected_movie_ids with
    | [] => Ok []
    | _ :: _ => get_vectors_by_ids (vector_repo self) selected_movie_ids
    end in
  match selected_vectors with
  | v0 :: vs =>
      try target_vector := np_mean v0 vs in
      try results := search_similar (vector_repo self) target_vector (top_k * 2) in
      let recommended_movie_ids :=
        filter (fun mid => ¬ Is_true (list_contains mid selected_movie_ids))
               (movie_id <$> results) in
      let scores := dict_comp movie_id VectorRepository.score results in
      try enriched_movies := _enrich_movies self recommended_movie_ids scores in
      let enriched_movies :=
        if truthy genres
        then _rank_by_genre_similarity enriched_movies (default [] genres)
        else enriched_movies in
      Ok (MovieObj <$> slice_to enriched_movies top_k)
  | [] =>
      try candidates :=
        (if truthy genres || truthy keywords
         then
           try candidates_list :=
             find_movies_by_criteria (movie_repo self) genres keywords 50 in
           Ok (list_to_set candidates_list : gset Z)
         else Ok ∅) in
      if decide (candidates = ∅) then Ok []
      else
        let candidate_movie_ids := slice_to (elements candidates) top_k in
        try movie_data := get_movies_by_ids (movie_repo self) candidate_movie_ids in
        Ok (RowDict <$> dict_values movie_data)
  end.

(** [recommend_cold_start]: list arguments are references into the
    caller's heap ([None] for an omitted argument). *)
Definition recommend_cold_start (self : Service) (h : heap)
    (selected_movie_ids genres keywords : option loc)
    (query : option string) (search_service : option ContentSearchService)
    (top_k : Z) : result (list item) * heap * list log_event :=
  (* a missing argument is replaced by a fresh, private list *)
  let ids0 := from_option (load_ints h) [] selected_movie_ids in
  let '(found, lg) := neural_search query search_service in
  let ids1 := ids0 ++ default [] found in
  let h' :=
    match selected_movie_ids, found with
    | Some l, Some _ => <[l := IntList ids1]> h
    | _, _ => h
    end in
  (cold_start_strategies self ids1 (load_strs h <$> genres)
                         (load_strs h <$> keywords) top_k,
   h', lg).

(** *** Known users *)

(** The undecorated [recommend_for_user] (lines 84-139).  [rand] is the
    state of the module [random]. *)
Definition recommend_for_user_wrapped (self : Service) (rand : nat -> nat)
    (user_id top_k : Z) (ab_group : string) : list item * list log_event :=
  let treatment := String.eqb ab_group "treatment" in
  let log0 := if treatment then [DebugVariantB user_id] else [] in
  let attempt : result (list item) * list log_event :=
    match get_user_vector self user_id with
    | Raise e => (Raise e, [])
    | Ok None =>
        let '(r, _, lg) :=
          recommend_cold_start self ∅ None None None None None top_k in
        (r, WarningFallbackColdStart user_id :: lg)
    | Ok (Some user_vector) =>
        let search_k := if treatment then top_k * 2 else top_k in
        (try recommendations :=
           search_similar (vector_repo self) user_vector search_k in
         try recommendations :=
           (if treatment && (top_k <? Z.of_nat (length recommendations))
            then random_sample rand recommendations top_k
            else Ok recommendations) in
         let movie_ids := movie_id <$> recommendations in
         let scores := dict_comp movie_id VectorRepository.score recommendations in
         try movies := _enrich_movies self movie_ids scores in
         Ok (MovieObj <$> movies),
         [])
    end in
  match attempt with
  | (Ok movies, lg) => (movies, log0 ++ lg)
  | (Raise e, lg) => ([], log0 ++ lg ++ [ErrorRecommendations user_id e])
  end.

(** Binding of the call's arguments to
    [(self, user_id, top_k=10, ab_group="control")]. *)
Definition keyword (name : string) (kw : Cache.kwargs) : option value :=
  snd <$> List.find (fun p => String.eqb (fst p) name) kw.

Definition bind_arguments (args : list value) (kw : Cache.kwargs)
  : result (Z * Z * string) :=
  match args with
  | _self :: VInt user_id :: rest =>
      let top_k := match rest with
                   | v :: _ => Some v
                   | [] => keyword "top_k" kw
                   end in
      let ab_group := match rest with
                      | _ :: v :: _ => Some v
                      | _ => keyword "ab_group" kw
                      end in
      match default (VInt 10) top_k, default (VStr "control") ab_group with
      | VInt k, VStr g => Ok (user_id, k, g)
      | _, _ => Raise TypeError
      end
  | _ => Raise TypeError
  end.

Section Decorated.
Variable json_dumps : list item -> result string.
Variable json_loads : string -> result (list item).

(** [RecommendationService.recommend_for_user], the attribute that
    [@cache_result(key_prefix="rec", ttl_seconds=300)] leaves in the
    class. *)
Definition recommend_for_user (svc : Service) (rand : nat -> nat)
  : list value -> Cache.kwargs -> Cache.world -> result (list item) * Cache.world :=
  Cache.cache_result json_dumps json_loads "rec" 300
    (fun args kw (lg : list log_event) =>
       match bind_arguments args kw with
       | Ok (user_id, top_k, ab_group) =>
           let '(movies, lg') :=
             recommend_for_user_wrapped svc rand user_id top_k ab_group in
           (Ok movies, lg ++ lg')
       | Raise e => (Raise e, lg)
       end).

(** [service.recommend_for_user(user_id, top_k=top_k, ab_group=ab_group)]
    as main.py writes it: the bound method passes the instance first. *)
Definition call_recommend_for_user (self : value) (svc : Service)
    (rand : nat -> nat) (user_id top_k : Z) (ab_group : string)
  : Cache.world -> result (list item) * Cache.world :=
  recommend_for_user svc rand [self; VInt user_id]
    [("top_k", VInt top_k); ("ab_group", VStr ab_group)].

End Decorated.

End RecommendationService.

(* ===================================================================== *)
(** ** Vocabulary of the properties                                        *)
(* ===================================================================== *)

Module Spec.

Import RecommendationService.

(** Column [j] of the rows. *)
Definition column (j : nat) (rows : list vector) : list float :=
  (fun r => nth j r 0%float) <$> rows.

(** Sum of column [j], added up row by row from zero in [float64]. *)
Definition column_sum (j : nat) (rows : list vector) : float :=
  sum_from 0%float (column j rows).

(** Mean of column [j] in [float64]. *)
Definition column_mean (j : nat) (rows : list vector) : float :=
  (column_sum j rows / float_of_nat (length rows))%float.

(** All rows have [d] components. *)
Definition rectangular (d : nat) (rows : list vector) : Prop :=
  Forall (fun r => length r = d) rows.

(** The real number that a finite [float64] stands for. *)
Definition real (x : float) : option Q :=
  match Prim2SF x with
  | S754_zero _ => Some 0%Q
  | S754_finite s m e =>
      Some (inject_Z (if s then Z.neg m else Z.pos m) * Qpower 2 e)%Q
  | _ => None
  end.

(** The arithmetic mean of reals. *)
Definition mean_of (xs : list Q) : Q :=
  (fold_right Qplus 0 xs / inject_Z (Z.of_nat (length xs)))%Q.

(** Python's [==] on two floats. *)
Definition float_eq (x y : float) : Prop := PrimFloat.eqb x y = true.

(** The reading of "the centroid is the componentwise arithmetic mean"
    in real numbers: each component of the centroid stands for the mean
    of the reals of its column. *)
Definition centroid_is_exact_mean : Prop :=
  ∀ (rows : list vector) (c : vector) (j : nat) (x : float) (reals : list Q),
    rows ≠ [] → compute_centroid rows = Ok c → c !! j = Some x →
    mapM real (column j rows) = Some reals →
    ∃ q, real x = Some q ∧ (q == mean_of reals)%Q.

(** The metadata store has a record for [mid]. *)
Definition has_record (table : list Row) (mid : Z) : bool :=
  existsb (fun r => row_movie_id r =? mid) table.

(** |candidate_genres ∩ target_genres| / |candidate_genres ∪ target_genres|. *)
Definition jaccard_similarity (target_genres : list string) (m : Movie) : Q :=
  Qdiv (inject_Z (Z.of_nat (size (movie_genres m ∩ target_set target_genres))))
       (inject_Z (Z.of_nat (size (movie_genres m ∪ target_set target_genres)))).

(** The candidate shares a genre with the target. *)
Definition shares_genre (target_genres : list string) (m : Movie) : Prop :=
  movie_genres m ∩ target_set target_genres ≠ ∅.

(** [a] may stand before [b] in the ranking: higher Jaccard score, or
    the same Jaccard score and an original score that is not lower. *)
Definition ranks_before (target_genres : list string) (a b : Movie) : Prop :=
  (jaccard_similarity target_genres b < jaccard_similarity target_genres a)%Q ∨
  ((jaccard_similarity target_genres a == jaccard_similarity target_genres b)%Q ∧
   (Models.score b <= Models.score a)%Q).

(** What the claims assume of the vector index: at most [limit] hits,
    with distinct movie ids. *)
Definition index_well_behaved (q : Qdrant) : Prop :=
  ∀ v limit hits,
    query_points q v limit = Ok hits →
    (0 ≤ limit → Z.of_nat (length hits) ≤ limit) ∧ NoDup (movie_id <$> hits).

(** The cache store answers: an error of the kind the wrapper catches. *)
Definition outage (fault : option exn) : Prop :=
  ∃ e, fault = Some e ∧ Cache.caught e = true.

(** [json.dumps] has no encoding for a [Movie] object (a pydantic
    model): a list that holds one is rejected with [TypeError]. *)
Definition rejects_models
    (json_dumps : list RecommendationService.item → result string) : Prop :=
  ∀ out, (∃ m, RecommendationService.MovieObj m ∈ out) →
         json_dumps out = Raise TypeError.

(** A 32-bit word. *)
Definition word32 (w : Z) : Prop := 0 ≤ w < 2 ^ 32.

(** The state of a wrapped call after the result was stored. *)
Definition stored (c : Cache.Redis) (key : string) (ttl : Z) (payload : string)
  : Cache.Redis :=
  {| Cache.kv := <[key := (ttl, payload)]> (Cache.kv c);
     Cache.get_fault := Cache.get_fault c;
     Cache.setex_fault := Cache.setex_fault c |}.

(** The known-user strategy hands over to the cold-start fallback. *)
Definition falls_back (user_id : Z) (log : list log_event) : Prop :=
  WarningFallbackColdStart user_id ∈ log.

(** The reading of "an empty vector result transitions to the cold-start
    fallback": whenever the user has a vector and the index yields no
    hit or fails, the call falls back. *)
Definition fallback_on_empty_hits : Prop :=
  ∀ (svc : Service) (rand : nat → nat) (user_id top_k : Z) (ab_group : string)
    (user_vector : vector),
    get_user_vector svc user_id = Ok (Some user_vector) →
    (search_similar (vector_repo svc) user_vector
       (if String.eqb ab_group "treatment" then top_k * 2 else top_k) = Ok [] ∨
     ∃ e, search_similar (vector_repo svc) user_vector
            (if String.eqb ab_group "treatment" then top_k * 2 else top_k) = Raise e) →
    falls_back user_id (recommend_for_user_wrapped svc rand user_id top_k ab_group).2.

(** The seed ids of a cold-start call: the caller's list followed by the
    ids that the text search contributes. *)
Definition seed_ids (h : heap) (selected_movie_ids : option loc)
    (query : option string) (search_service : option SearchService.ContentSearchService)
  : list Z :=
  from_option (load_ints h) [] selected_movie_ids ++
  default [] (neural_search query search_service).1.

(** The reading of "a request with seeds never gets a seed back": for
    every cold-start request with a non-empty set of seed ids, no
    returned item is one of the seeds. *)
Definition seeds_never_returned : Prop :=
  ∀ (svc : Service) (h : heap) (selected_movie_ids genres keywords : option loc)
    (query : option string)
    (search_service : option SearchService.ContentSearchService)
    (top_k : Z) (out : list item),
    seed_ids h selected_movie_ids query search_service ≠ [] →
    (recommend_cold_start svc h selected_movie_ids genres keywords query
       search_service top_k).1.1 = Ok out →
    ∀ x, x ∈ out → item_id x ∉ seed_ids h selected_movie_ids query search_service.

End Spec.
Import Spec.

(* ===================================================================== *)
(** ** Sample data for the worked examples                                 *)
(* ===================================================================== *)

Module Sample.

Import RecommendationService SearchService.

Definition row (i : Z) (t g : string) : Row :=
  {| row_movie_id := i; row_title := t; row_genres := g; row_poster_url := None |}.

(** Three movies, as in tests/test_service.py. *)
Definition table : list Row :=
  [ row 1 "Movie 1" "Action"; row 2 "Movie 2" "Comedy"; row 3 "Movie 3" "Drama" ].

Definition db : Postgres :=
  {| connect_fault := None; movies := table; ilike := fun _ _ => true |}.

Definition hit (i : Z) (s : Q) : Candidate := {| movie_id := i; score := s |}.

Definition hits : list Candidate :=
  [ hit 3 (9 # 10); hit 1 (8 # 10); hit 7 (75 # 100); hit 2 (7 # 10) ].

(** An index that answers every query with the first [limit] of [hits]
    and knows a vector for every id. *)
Definition index : Qdrant :=
  {| query_points := fun _ limit => Ok (firstn (Z.to_nat limit) hits);
     retrieve := fun ids => Ok ((fun _ => Some [1; 2]%float) <$> ids) |}.

(** An index that finds nothing. *)
Definition empty_index : Qdrant :=
  {| query_points := fun _ _ => Ok [];
     retrieve := fun ids => Ok ((fun _ => Some [1; 2]%float) <$> ids) |}.

(** An index that answers queries but holds no vector for any movie. *)
Definition vectorless_index : Qdrant :=
  {| query_points := fun _ limit => Ok (firstn (Z.to_nat limit) hits);
     retrieve := fun ids => Ok ((fun _ => None) <$> ids) |}.

(** An index that is down. *)
Definition broken_index : Qdrant :=
  {| query_points := fun _ _ => Raise QdrantError;
     retrieve := fun _ => Raise QdrantError |}.

(** Users 10 and 20 have embeddings. *)
Definition service (q : Qdrant) : Service :=
  {| movie_repo := db; vector_repo := q;
     _user_embeddings := Some [[1]; [2]]%float;
     _user_encoder := Some [10; 20] |}.

Definition scores : pydict Q :=
  [(3, (9 # 10)%Q); (1, (8 # 10)%Q); (2, (7 # 10)%Q)].

Definition text_search : ContentSearchService :=
  {| encode := fun _ => Ok [1; 2]%float; content_points := fun _ _ => Ok [1] |}.

Definition movie (i : Z) (g : string) (s : Q) : Movie :=
  {| Models.id := i; Models.title := "t"; Models.genres := g;
     Models.poster_url := None; Models.score := s |}.

(** The service instance that the application shares between requests. *)
Definition self : value :=
  VObject "services.recommendation_service.RecommendationService" 140234.

(** A decorated function that counts its calls, as in tests/test_cache.py. *)
Definition counting (args : list value) (kw : Cache.kwargs) (calls : nat)
  : result (list Z) * nat :=
  (Ok [2], S calls).

Definition dumps (v : list Z) : result string := Ok "[2]".
Definition loads (payload : string) : result (list Z) := Ok [1].

Definition redis (entries : gmap string (Z * string)) (g s : option exn)
  : Cache.Redis :=
  {| Cache.kv := entries; Cache.get_fault := g; Cache.setex_fault := s |}.

End Sample.

(* ===================================================================== *)
(** ** backend/cache.py: client set-up and invalidation                    *)
(* ===================================================================== *)

Module CacheAdmin.

Import Cache.

(** What a new connection meets: the value of
    [int(os.getenv("REDIS_PORT", 6379))], whether [PING] and [DEL] fail,
    and the server behind the address. *)
Record Network : Type := {
  redis_port : result Z;
  ping_fault : option exn;
  delete_fault : option exn;
  server : Redis
}.

(** [get_redis_client()]: the value returned and the module global
    [_redis_client] afterwards.  The global is assigned before the
    [ping()], and reset only by the [except] clause. *)
Definition get_redis_client (net : Network) (_redis_client : option Redis)
  : result (option Redis) * option Redis :=
  match _redis_client with
  | Some c => (Ok (Some c), Some c)
  | None =>
      match redis_port net with
      | Raise e => (Raise e, None)
      | Ok _ =>
          match ping_fault net with
          | None => (Ok (Some (server net)), Some (server net))
          | Some e =>
              if caught e then (Ok None, None)
              else (Raise e, Some (server net))
          end
      end
  end.

(** [client.delete(key)]: the number of keys removed. *)
Definition redis_delete (net : Network) (c : Redis) (key : string)
  : result (Z * Redis) :=
  match delete_fault net with
  | Some e => Raise e
  | None =>
      Ok (match kv c !! key with Some _ => 1 | None => 0 end,
          {| kv := delete key (kv c);
             get_fault := get_fault c;
             setex_fault := setex_fault c |})
  end.

(** The store [seconds] later: an entry written by [SETEX] lives for
    its TTL; when the TTL has passed it is gone. *)
Definition elapse (seconds : Z) (c : Redis) : Redis :=
  {| kv := omap (fun entry : Z * string =>
                   if seconds <? fst entry
                   then Some (fst entry - seconds, snd entry)
                   else None) (kv c);
     get_fault := get_fault c;
     setex_fault := setex_fault c |}.

(** [invalidate_cache(key_prefix, key_id)]. *)
Definition invalidate_cache (net : Network) (_redis_client : option Redis)
    (key_prefix : string) (key_id : value) : result bool * option Redis :=
  let '(client, g) := get_redis_client net _redis_client in
  match client with
  | Raise e => (Raise e, g)
  | Ok None => (Ok false, g)
  | Ok (Some c) =>
      let cache_key := key_prefix +:+ ":" +:+ str key_id in
      match redis_delete net c cache_key with
      | Ok (deleted, c') => (Ok (negb (deleted =? 0)), Some c')
      | Raise e =>
          if caught e then (Ok false, g) else (Raise e, g)
      end
  end.

End CacheAdmin.

(* ===================================================================== *)
(** ** backend/logger.py and backend/middleware/middleware.py              *)
(* ===================================================================== *)

Module Middleware.

(** Raw header lists as Starlette keeps them: names in lower case. *)
Definition headers : Type := list (string * string).

(** [Headers.get(key)]: the value of the first header of that name. *)
Definition headers_get (h : headers) (key : string) : option string :=
  snd <$> List.find (fun p => String.eqb (fst p) (lower key)) h.

Definition drop_header (name : string) (h : headers) : headers :=
  List.filter (fun p => negb (String.eqb (fst p) name)) h.

Fixpoint set_header (name value : string) (h : headers) : headers :=
  match h with
  | [] => [(name, value)]
  | (n, v) :: h' =>
      if String.eqb n name then (name, value) :: drop_header name h'
      else (n, v) :: set_header name value h'
  end.

(** [MutableHeaders.__setitem__(key, value)]: the first header of that
    name is replaced, further ones are deleted; a new name is appended. *)
Definition headers_set (h : headers) (key value : string) : headers :=
  set_header (lower key) value h.

Record Request : Type := {
  method : string;
  path : string;
  req_headers : headers;
  ab_group : option string        (* request.scope.get("ab_group") *)
}.

Record Response (B : Type) : Type := {
  status_code : Z;
  resp_headers : headers;
  body : B
}.
Arguments status_code {B} _.
Arguments resp_headers {B} _.
Arguments body {B} _.

(** The records that the middlewares log. *)
Inductive log_record : Type :=
  | InfoRequest (method path : string)        (* "{method} {path}" *)
  | InfoResponse (status_code : Z)            (* "Response {status_code}" *)
  | InfoAssigned (user_id group : string).    (* "User ... assigned to ..." *)



(** [ABTestingMiddleware.dispatch]. *)
Definition ab_testing_dispatch {B} (request : Request)
    (call_next : Request -> result (Response B))
  : result (Response B) * list log_record :=
  let user_id := headers_get (req_headers request) "X-User-ID" in
  let group :=
    match user_id with
    | Some (String c s) => Features.get_user_experiment_group (VStr (String c s))
    | _ => "control"
    end in
  let request := {| method := method request; path := path request;
                    req_headers := req_headers request;
                    ab_group := Some group |} in
  match call_next request with
  | Raise e => (Raise e, [])
  | Ok response =>
      (Ok {| status_code := status_code response;
             resp_headers := headers_set (resp_headers response) "X-AB-Group" group;
             body := body response |},
       match user_id with
       | Some (String c s) => [InfoAssigned (String c s) group]
       | _ => []
       end)
  end.

End Middleware.

(* ===================================================================== *)
(** ** backend/models/schemas.py: ColdStartRequest                         *)
(* ===================================================================== *)

Module Schemas.

(** A value of a JSON request body. *)
#[warnings="-register-all"]
Inductive json : Type :=
  | JNull
  | JBool (b : bool)
  | JInt (n : Z)
  | JFloat (q : Q)
  | JStr (s : string)
  | JList (items : list json)
  | JObject (fields : list (string * json)).

(** Truth value of the Python object. *)
Definition json_truthy (v : json) : bool :=
  match v with
  | JNull => false
  | JBool b => b
  | JInt n => negb (n =? 0)
  | JFloat q => negb (Qeq_bool q 0)
  | JStr s => negb (String.eqb s "")
  | JList items => match items with [] => false | _ => true end
  | JObject fields => match fields with [] => false | _ => true end
  end.

(** [for x in v]: the items visited, or [TypeError] for an object that
    is not iterable. *)
Definition iterate (v : json) : result (list json) :=
  match v with
  | JList items => Ok items
  | JObject fields => Ok ((fun f => JStr (fst f)) <$> fields)
  | JStr s => Ok ((fun c => JStr (String c EmptyString)) <$> list_ascii_of_string s)
  | _ => Raise TypeError
  end.

Definition is_upper (c : ascii) : bool :=
  let n := nat_of_ascii c in ((65 <=? n) && (n <=? 90))%nat.

Definition is_lower (c : ascii) : bool :=
  let n := nat_of_ascii c in ((97 <=? n) && (n <=? 122))%nat.

Definition upper_ascii (c : ascii) : ascii :=
  if is_lower c then ascii_of_nat (nat_of_ascii c - 32) else c.

(** [str.title()] on ASCII: a cased character is put in upper case when
    it follows an uncased one (or starts the string), in lower case
    otherwise. *)
Fixpoint title_go (previous_is_cased : bool) (s : string) : string :=
  match s with
  | EmptyString => EmptyString
  | String c s' =>
      if is_upper c || is_lower c
      then String (if previous_is_cased then lower_ascii c else upper_ascii c)
                  (title_go true s')
      else String c (title_go false s')
  end.

Definition title (s : string) : string := title_go false s.

(** Lines 65-70: one genre that passed the test of line 63. *)
Definition normalize_genre (g : string) : string :=
  let normalized := title (strip g) in
  if String.eqb (lower normalized) "sci-fi" then "Sci-Fi"
  else if String.eqb (lower normalized) "film-noir" then "Film-Noir"
  else normalized.

(** The strings [g] of [v] with [isinstance(g, str) and g.strip()]. *)
Definition non_blank (x : json) : option string :=
  match x with
  | JStr g => match strip g with
              | EmptyString => None
              | _ => Some g
              end
  | _ => None
  end.

(** [ColdStartRequest.normalize_genres(v)]. *)
Definition normalize_genres (v : json) : result (list string) :=
  if negb (json_truthy v) then Ok []
  else
    let v := match v with JStr s => JList [JStr s] | _ => v end in
    try items := iterate v in
    Ok (normalize_genre <$> omap non_blank items).

(** [ColdStartRequest.clean_keywords(v)]. *)
Definition clean_keywords (v : json) : result (list string) :=
  if negb (json_truthy v) then Ok []
  else
    let v := match v with JStr s => JList [JStr s] | _ => v end in
    try items := iterate v in
    Ok (strip <$> omap non_blank items).

(** [isinstance(mid, int) and mid > 0]; [bool] is a subclass of [int]. *)
Definition is_positive_int (x : json) : bool :=
  match x with
  | JInt n => 0 <? n
  | JBool b => b
  | _ => false
  end.

(** [ColdStartRequest.clean_movie_ids(v)]. *)
Definition clean_movie_ids (v : json) : result (list json) :=
  if negb (json_truthy v) then Ok []
  else
    try items := iterate v in
    Ok (List.filter is_positive_int items).

Section TopK.
(** [int(s)] for a string, as the interpreter parses it. *)
Variable int_of_str : string -> result Z.

(** [int(v)]. *)
Definition py_int (v : json) : result Z :=
  match v with
  | JInt n => Ok n
  | JBool b => Ok (if b then 1 else 0)
  | JFloat q => Ok (Z.quot (Qnum q) (Zpos (Qden q)))
  | JStr s => int_of_str s
  | _ => Raise TypeError
  end.

(** [ColdStartRequest.validate_top_k(v)]. *)
Definition validate_top_k (v : json) : result Z :=
  match v with
  | JNull => Ok 10
  | _ => try n := py_int v in Ok (Z.max 1 (Z.min 50 n))
  end.

End TopK.

End Schemas.

(* ===================================================================== *)
(** ** backend/services/explanation_service.py                             *)
(* ===================================================================== *)

Module ExplanationService.

Record ExplanationRequest : Type := {
  user_id : Z;
  movie_id : Z;
  movie_title : string;
  movie_genres : string
}.

Record ExplanationResponse : Type := {
  explanation : string;
  method : string
}.

(** [[g.strip() for g in movie_genres.split("|") if g.strip()]]. *)
Definition parsed_genres (request : ExplanationRequest) : list string :=
  List.filter (fun g => negb (String.eqb g ""))
              (strip <$> split "|" (movie_genres request)).

Definition main_genre (request : ExplanationRequest) : string :=
  match parsed_genres request with
  | g :: _ => g
  | [] => "movies"
  end.

Definition templates (request : ExplanationRequest) : list string :=
  let genres := parsed_genres request in
  let main_genre := main_genre request in
  [ "Because you seem to enjoy " +:+ main_genre +:+ " movies.";
    "This is a top-rated " +:+ main_genre +:+ " film similar to others you've liked.";
    "We thought you'd like this because it features elements of " +:+
      (if (1 <? length genres)%nat then String.concat ", " (firstn 2 genres)
       else main_genre) +:+ ".";
    "Popular among fans of " +:+ main_genre +:+ ".";
    "Since you like " +:+ main_genre +:+ ", '" +:+ movie_title request +:+
      "' might be right up your alley.";
    "If you're in the mood for " +:+ main_genre +:+ ", this is a great pick.";
    "Based on your taste, this " +:+ main_genre +:+ " movie is a strong match.";
    "Fans of " +:+ main_genre +:+ " often enjoy this film." ].

(** [random.choice(seq)] is [seq[randbelow(len(seq))]]; [rand] is the
    raw value behind the call of [randbelow]. *)
Definition random_choice (rand : nat) (seq : list string) : string :=
  nth (rand mod length seq) seq "".

Definition generate_explanation (rand : nat) (request : ExplanationRequest)
  : ExplanationResponse :=
  {| explanation := random_choice rand (templates request);
     method := "heuristic" |}.

End ExplanationService.

(* ===================================================================== *)
(** ** recommendation_service.py: seed helpers                             *)
(* ===================================================================== *)

Module SeedHelpers.

Import RecommendationService.

(** [_get_seed_movie_ids(movie_ids, genres, keywords)]. *)
Definition _get_seed_movie_ids (self : Service) (movie_ids : option (list Z))
    (genres keywords : option (list string)) : result (list Z) :=
  let seed_ids : gset Z := list_to_set (default [] movie_ids) in
  try seed_ids :=
    (if truthy genres || truthy keywords
     then
       try matched := find_movies_by_criteria (movie_repo self) genres keywords 50 in
       Ok (seed_ids ∪ list_to_set matched)
     else Ok seed_ids) in
  Ok (elements seed_ids).

(** [_find_similar_movies(seed_ids, limit)]. *)
Definition _find_similar_movies (self : Service) (seed_ids : list Z) (limit : Z)
  : result (list Movie) :=
  try vectors := get_vectors_by_ids (vector_repo self) seed_ids in
  match vectors with
  | [] => Ok []
  | _ :: _ =>
      try centroid := compute_centroid vectors in
      try results := search_similar (vector_repo self) centroid limit in
      let movie_ids := movie_id <$> results in
      let scores := dict_comp movie_id VectorRepository.score results in
      _enrich_movies self movie_ids scores
  end.

End SeedHelpers.

(* ===================================================================== *)
(** ** backend/main.py: the recommendation endpoints                       *)
(* ===================================================================== *)

Module Endpoints.

Import RecommendationService SearchService.

(** What reaches [except Exception as e]. *)
Inductive cause : Type :=
  | Exc (e : exn)
  | NoMatchingMovies.      (* HTTPException(404, "No matching movies found ...") *)

Inductive detail : Type :=
  | ModelNotLoaded                 (* 503 *)
  | UserNotFound                   (* 404 *)
  | RecommendationFailed (e : exn) (* 500, "Recommendation failed: ..." *)
  | NoInputProvided                (* 400 *)
  | ColdStartFailed (c : cause).   (* 500, "Cold start recommendation failed" *)

(** The outcome of an endpoint: a [RecommendationResponse], an
    [HTTPException], or an exception that leaves the endpoint.  The
    response model takes the service's list as it is. *)
Inductive outcome : Type :=
  | RecommendationResponse (user_id : Z) (recommendations : list item)
                           (ab_group : string)
  | HTTPException (status_code : Z) (d : detail)
  | Unhandled (e : exn).

Definition status (o : outcome) : Z :=
  match o with
  | RecommendationResponse _ _ _ => 200
  | HTTPException s _ => s
  | Unhandled _ => 500
  end.

Section Recommend.
Variable json_dumps : list item -> result string.
Variable json_loads : string -> result (list item).

(** [GET /recommend/{user_id}] (main.py, lines 150-182).  [scope_group]
    is [request.scope.get("ab_group")]; [self] is the service object as a
    Python value and [svc] its contents. *)
Definition recommend (scope_group : option string) (user_id top_k : Z)
    (self : value) (svc : Service) (rand : nat -> nat) (w : Cache.world)
  : outcome * Cache.world :=
  if negb (is_ready svc) then (HTTPException 503 ModelNotLoaded, w)
  else
    match get_user_vector svc user_id with
    | Raise e => (Unhandled e, w)
    | Ok None => (HTTPException 404 UserNotFound, w)
    | Ok (Some _) =>
        let ab_group := default "control" scope_group in
        match call_recommend_for_user json_dumps json_loads self svc rand
                user_id top_k ab_group w with
        | (Ok movies, w') => (RecommendationResponse user_id movies ab_group, w')
        | (Raise e, w') => (HTTPException 500 (RecommendationFailed e), w')
        end
    end.

End Recommend.

(** A validated [ColdStartRequest]; its list fields are objects of the
    heap. *)
Record ColdStartRequest : Type := {
  selected_movie_ids : loc;
  genres : option loc;
  keywords : option loc;
  query : option string;
  top_k : Z
}.

Definition non_empty_strs (h : heap) (l : option loc) : bool :=
  match l with
  | Some l => match load_strs h l with [] => false | _ => true end
  | None => false
  end.

(** [ColdStartRequest.has_valid_input()]. *)
Definition has_valid_input (h : heap) (request : ColdStartRequest) : bool :=
  match load_ints h (selected_movie_ids request) with
  | _ :: _ => true
  | [] => non_empty_strs h (genres request) || non_empty_strs h (keywords request)
  end.

Definition query_given (request : ColdStartRequest) : bool :=
  match query request with
  | Some (String _ _) => true
  | _ => false
  end.

(** [POST /recommend/cold_start] (main.py, lines 190-249). *)
Definition recommend_cold_start (request : ColdStartRequest) (svc : Service)
    (search_service : ContentSearchService) (h : heap)
  : outcome * heap * list log_event :=
  if negb (has_valid_input h request) && negb (query_given request)
  then (HTTPException 400 NoInputProvided, h, [])
  else
    let '(r, h', lg) :=
      RecommendationService.recommend_cold_start svc h
        (Some (selected_movie_ids request)) (genres request) (keywords request)
        (query request) (Some search_service) (top_k request) in
    match r with
    | Ok [] => (HTTPException 500 (ColdStartFailed NoMatchingMovies), h', lg)
    | Ok movies => (RecommendationResponse 0 movies "control", h', lg)
    | Raise e => (HTTPException 500 (ColdStartFailed (Exc e)), h', lg)
    end.

(** The body of the answer of [GET /health]. *)
Record HealthStatus : Type := {
  health : string;                 (* "status" *)
  embeddings_loaded : bool;
  known_users : nat;
  db_status : string;
  qdrant_status : string
}.

(** [GET /health] (main.py, lines 111-139): the body and the status code
    of the response.  A server that accepts the connection answers
    [SELECT 1]. *)
Definition health_check (movie_repo : Postgres) (service : Service)
  : HealthStatus * Z :=
  let health_status (status db : string) :=
    {| health := status;
       embeddings_loaded := is_ready service;
       known_users := if is_ready service
                      then length (get_known_user_ids service) else O;
       db_status := db;
       qdrant_status := "connected" |} in
  match connect movie_repo with
  | Ok _ => (health_status "healthy" "connected", 200)
  | Raise _ => (health_status "unhealthy" "disconnected", 503)
  end.

End Endpoints.

(* ===================================================================== *)
(** ** More vocabulary                                                     *)
(* ===================================================================== *)

Module Terms.

Import Cache CacheAdmin.

(** The port number in the environment is readable. *)
Definition port_parses (net : Network) : Prop :=
  ∃ p, redis_port net = Ok p.

(** A client without failures. *)
Definition healthy (c : Redis) : Prop :=
  get_fault c = None ∧ setex_fault c = None.

(** [x] occurs in [s]. *)
Definition mentions (x s : string) : Prop :=
  ∃ pre post, s = pre +:+ x +:+ post.

(** [str.isascii()]: the embedding's [lower], [title] and [strip] are
    Python's on such text. *)
Definition isascii (s : string) : bool :=
  forallb (fun c => (nat_of_ascii c <? 128)%nat) (list_ascii_of_string s).

(** The strings that a validator of the request reads in [v]. *)
Definition strings_of (v : Schemas.json) : list string :=
  match v with
  | Schemas.JStr s => [s]
  | Schemas.JList items =>
      omap (fun x => match x with Schemas.JStr s => Some s | _ => None end) items
  | Schemas.JObject fields => fst <$> fields
  | _ => []
  end.

Definition ascii_text (v : Schemas.json) : Prop :=
  Forall (fun s => isascii s = true) (strings_of v).

(** The same character, or the two cases of one letter A..Z. *)
Definition same_char_ignoring_case (a b : ascii) : bool :=
  let x := nat_of_ascii a in
  let y := nat_of_ascii b in
  ((x =? y) || ((65 <=? x) && (x <=? 90) && (y =? x + 32))
            || ((65 <=? y) && (y <=? 90) && (x =? y + 32)))%nat.

(** Two genre names that differ at most in the case of their letters. *)
Fixpoint same_ignoring_case (s t : string) : bool :=
  match s, t with
  | EmptyString, EmptyString => true
  | String a s', String b t' =>
      same_char_ignoring_case a b && same_ignoring_case s' t'
  | _, _ => false
  end.

End Terms.
Import Terms.

(* ===================================================================== *)
(** ** More sample data                                                    *)
(* ===================================================================== *)

Module Fixtures.

Import Cache CacheAdmin.

(** [json.dumps] on a list of integers: "[1, 2]". *)
Definition dumps_ints (v : list Z) : result string :=
  Ok ("[" +:+ String.concat ", " (pretty <$> v) +:+ "]").

Fixpoint digits_go (s : string) (acc : Z) : option Z :=
  match s with
  | EmptyString => Some acc
  | String c s' =>
      let n := Z.of_nat (nat_of_ascii c) in
      if (48 <=? n) && (n <=? 57) then digits_go s' (10 * acc + (n - 48))
      else None
  end.

Definition parse_int (s : string) : option Z :=
  match s with
  | EmptyString => None
  | String "-" (String c s') => Z.opp <$> digits_go (String c s') 0
  | _ => digits_go s 0
  end.

(** [json.loads] on the texts that [dumps_ints] writes. *)
Definition loads_ints (payload : string) : result (list Z) :=
  match payload with
  | String "[" inner =>
      match rev (list_ascii_of_string inner) with
      | "]"%char :: body =>
          let text := string_of_list_ascii (rev body) in
          if String.eqb text "" then Ok []
          else
            match mapM (fun part => parse_int (strip part)) (split "," text) with
            | Some ns => Ok ns
            | None => Raise JSONDecodeError
            end
      | _ => Raise JSONDecodeError
      end
  | _ => Raise JSONDecodeError
  end.

(** A decorated function that counts its calls and answers with its
    arguments' count and the call number. *)
Definition numbering (args : list value) (kw : kwargs) (calls : nat)
  : result (list Z) * nat :=
  (Ok [Z.of_nat (length args); Z.of_nat (S calls)], S calls).

(** [json.dumps] on what the service returns.  A row dict is written
    as an object with its keys in insertion order; a [Movie] object has
    no encoding.  The texts are taken to hold no character that JSON
    escapes. *)
Definition quoted (s : string) : string :=
  String (ascii_of_nat 34) s +:+ String (ascii_of_nat 34) EmptyString.

Definition dumps_row (d : MovieData) : string :=
  "{" +:+ quoted "id" +:+ ": " +:+ pretty (data_id d) +:+ ", "
      +:+ quoted "title" +:+ ": " +:+ quoted (data_title d) +:+ ", "
      +:+ quoted "genres" +:+ ": " +:+ quoted (data_genres d) +:+ ", "
      +:+ quoted "poster_url" +:+ ": "
      +:+ from_option quoted "null" (data_poster_url d) +:+ "}".

Definition dumps_item (x : RecommendationService.item) : option string :=
  match x with
  | RecommendationService.RowDict d => Some (dumps_row d)
  | RecommendationService.MovieObj _ => None
  end.

Definition dumps_items (out : list RecommendationService.item) : result string :=
  match mapM dumps_item out with
  | Some objects => Ok ("[" +:+ String.concat ", " objects +:+ "]")
  | None => Raise TypeError
  end.

(** An encoder that rejects every value. *)
Definition dumps_fail (v : list Z) : result string := Raise TypeError.

(** A reachable server that holds one entry, for user 7. *)
Definition network : Network :=
  {| redis_port := Ok 6379; ping_fault := None; delete_fault := None;
     server := Sample.redis {[ "rec:7" := (300, "[1]") ]} None None |}.

(** A server that does not answer. *)
Definition unreachable : Network :=
  {| redis_port := Ok 6379; ping_fault := Some ConnectionError;
     delete_fault := Some ConnectionError;
     server := Sample.redis ∅ None None |}.

(** A server that answers [PING] with an error that is no connection
    error. *)
Definition misconfigured : Network :=
  {| redis_port := Ok 6379; ping_fault := Some ResponseError;
     delete_fault := None;
     server := Sample.redis ∅ None None |}.

(** The store after the decorated method has answered one call. *)
Definition method_store : Redis :=
  Sample.redis {[ "rec:" +:+ str Sample.self := (300, "[1]") ]} None None.

(** [text contains sub]. *)
Fixpoint contains (text sub : string) : bool :=
  String.prefix sub text ||
  match text with
  | EmptyString => false
  | String _ rest => contains rest sub
  end.

(** [text ILIKE pattern] for a pattern "%word%" whose word holds no
    wildcard: the word occurs in the text, whatever the case. *)
Definition ilike_word (text pattern : string) : bool :=
  match pattern with
  | String "%" rest =>
      match rev (list_ascii_of_string rest) with
      | "%"%char :: word =>
          contains (lower text) (lower (string_of_list_ascii (rev word)))
      | _ => false
      end
  | _ => false
  end.

(** The sample table behind a server that matches by [ILIKE], and an
    index that holds no vector. *)
Definition store : Postgres :=
  {| connect_fault := None; movies := Sample.table; ilike := ilike_word |}.

Definition guest_service : RecommendationService.Service :=
  {| RecommendationService.movie_repo := store;
     RecommendationService.vector_repo := Sample.vectorless_index;
     RecommendationService._user_embeddings := None;
     RecommendationService._user_encoder := None |}.

(** The caller selects movie 1 and the genre Action. *)
Definition selection : RecommendationService.heap :=
  {[ 1%positive := RecommendationService.IntList [1];
     2%positive := RecommendationService.StrList ["Action"] ]}.

(** A caller's heap: one selected movie, one genre, one keyword. *)
Definition lists : RecommendationService.heap :=
  {[ 1%positive := RecommendationService.IntList [3];
     2%positive := RecommendationService.StrList ["Action"];
     3%positive := RecommendationService.StrList ["Movie"] ]}.

(** A request of user 1 that carries its own request id. *)
Definition request : Middleware.Request :=
  {| Middleware.method := "GET"; Middleware.path := "/recommend/1";
     Middleware.req_headers := [("x-user-id", "1"); ("x-request-id", "abc")];
     Middleware.ab_group := None |}.

(** An endpoint that reports the group it was given. *)
Definition echo_group (r : Middleware.Request)
  : result (Middleware.Response (option string)) :=
  Ok {| Middleware.status_code := 200;
        Middleware.resp_headers := [("content-type", "application/json")];
        Middleware.body := Middleware.ab_group r |}.

End Fixtures.

(* ===================================================================== *)
(** ** Experiment assignment                                               *)
(* ===================================================================== *)

Section ExperimentAssignment.
Import Features.

Example group_of_user_1 : get_user_experiment_group (VInt 1) = "treatment".
Proof. vm_compute. reflexivity. Qed.

Example group_of_user_3 : get_user_experiment_group (VInt 3) = "control".
Proof. vm_compute. reflexivity. Qed.

Example sha256_abc :
  Sha256.hexdigest (encode_utf8 "abc") =
  "ba7816bf8f01cfea414140de5dae2223b00361a396177a9cb410ff61f20015ad".
Proof. vm_compute. reflexivity. Qed.

(** A message that needs a second block for its padding, and the empty
    message. *)
Example sha256_two_blocks :
  Sha256.hexdigest
    (encode_utf8 "abcdbcdecdefdefgefghfghighijhijkijkljklmklmnlmnomnopnopq") =
  "248d6a61d20638b8e5c026930c3e6039a33ce45964ff2167f6ecedd419db06c1".
Proof. vm_compute. reflexivity. Qed.

Example sha256_empty :
  Sha256.hexdigest [] =
  "e3b0c44298fc1c149afbf4c8996fb92427ae41e4649b934ca495991b7852b855".
Proof. vm_compute. reflexivity. Qed.

Example sha256_constants :
  nth 0 Sha256.K 0 = 0x428a2f98 ∧ nth 63 Sha256.K 0 = 0xc67178f2 ∧
  nth 0 Sha256.H0 0 = 0x6a09e667 ∧ nth 7 Sha256.H0 0 = 0x5be0cd19 ∧
  length Sha256.K = 64%nat.
Proof. vm_compute. repeat split; reflexivity. Qed.

Lemma compress_words (h block : list Z) :
  length h = 8%nat →
  length (Sha256.compress h block) = 8%nat ∧ Forall word32 (Sha256.compress h block).
Proof.
  intros Hl. unfold Sha256.compress. split.
  - rewrite length_map, length_combine, Hl. reflexivity.
  - apply Forall_forall. intros w Hw. apply list_elem_of_In, in_map_iff in Hw.
    destruct Hw as (p & <- & _). unfold Sha256.add32, Sha256.w32, word32.
    apply Z.mod_pos_bound. lia.
Qed.

Lemma fold_compress_words (bs : list (list Z)) (h : list Z) :
  length h = 8%nat → Forall word32 h →
  length (fold_left Sha256.compress bs h) = 8%nat ∧
  Forall word32 (fold_left Sha256.compress bs h).
Proof.
  revert h. induction bs as [|b bs IH]; intros h Hl Hr; [done|].
  cbn [fold_left]. destruct (compress_words h b Hl). by apply IH.
Qed.

Lemma sha256_words (msg : list Z) :
  length (Sha256.sha256 msg) = 8%nat ∧ Forall word32 (Sha256.sha256 msg).
Proof.
  unfold Sha256.sha256. apply fold_compress_words; [by vm_compute|].
  apply Forall_forall. intros w Hw. apply list_elem_of_In in Hw.
  vm_compute in Hw. unfold word32.
  repeat (destruct Hw as [<-|Hw]; [lia|]). done.
Qed.

Lemma hex_val_hex_char (d : Z) :
  0 ≤ d < 16 → Sha256.hex_val (hex_char (Z.to_N d)) = d.
Proof.
  intros Hd.
  assert (d = 0 ∨ d = 1 ∨ d = 2 ∨ d = 3 ∨ d = 4 ∨ d = 5 ∨ d = 6 ∨ d = 7 ∨
          d = 8 ∨ d = 9 ∨ d = 10 ∨ d = 11 ∨ d = 12 ∨ d = 13 ∨ d = 14 ∨ d = 15)
    as H by lia.
  repeat (destruct H as [->|H]; [reflexivity|]). by subst.
Qed.

Lemma int16_go_app (s t : string) (acc : Z) :
  Sha256.int16_go (s +:+ t) acc = Sha256.int16_go t (Sha256.int16_go s acc).
Proof. revert acc. induction s as [|c s IH]; intros acc; [done|]. cbn. apply IH. Qed.

Lemma int16_go_hex8 (w acc : Z) :
  word32 w → Sha256.int16_go (Sha256.hex8 w) acc = acc * 2 ^ 32 + w.
Proof.
  intros Hw. unfold word32 in Hw. unfold Sha256.hex8.
  cbn [fold_right Sha256.int16_go].
  rewrite !hex_val_hex_char by (apply Z.mod_pos_bound; lia).
  assert (Hq : ∀ i j, j = i + 1 → 0 ≤ i →
            w / 16 ^ i = 16 * (w / 16 ^ j) + (w / 16 ^ i) mod 16).
  { intros i j -> Hi. rewrite Z.pow_add_r, Z.pow_1_r by lia.
    rewrite <- Z.div_div by lia. apply Z.div_mod. lia. }
  pose proof (Hq 0 1 eq_refl ltac:(lia)) as H0.
  pose proof (Hq 1 2 eq_refl ltac:(lia)) as H1.
  pose proof (Hq 2 3 eq_refl ltac:(lia)) as H2.
  pose proof (Hq 3 4 eq_refl ltac:(lia)) as H3.
  pose proof (Hq 4 5 eq_refl ltac:(lia)) as H4.
  pose proof (Hq 5 6 eq_refl ltac:(lia)) as H5.
  pose proof (Hq 6 7 eq_refl ltac:(lia)) as H6.
  pose proof (Hq 7 8 eq_refl ltac:(lia)) as H7.
  assert (H8 : w / 16 ^ 8 = 0) by (apply Z.div_small; lia).
  rewrite H8 in H7. clear Hq H8.
  assert (Hw0 : w / 16 ^ 0 = w) by apply Z.div_1_r.
  rewrite Hw0 in *. clear Hw0.
  generalize dependent ((w / 16 ^ 7) mod 16). generalize dependent (w / 16 ^ 7).
  generalize dependent ((w / 16 ^ 6) mod 16). generalize dependent (w / 16 ^ 6).
  generalize dependent ((w / 16 ^ 5) mod 16). generalize dependent (w / 16 ^ 5).
  generalize dependent ((w / 16 ^ 4) mod 16). generalize dependent (w / 16 ^ 4).
  generalize dependent ((w / 16 ^ 3) mod 16). generalize dependent (w / 16 ^ 3).
  generalize dependent ((w / 16 ^ 2) mod 16). generalize dependent (w / 16 ^ 2).
  generalize dependent ((w / 16 ^ 1) mod 16). generalize dependent (w / 16 ^ 1).
  generalize dependent (w mod 16).
  intros. lia.
Qed.

Lemma int16_hexdigest_words (ws : list Z) (acc : Z) :
  Forall word32 ws →
  Sha256.int16_go (fold_right (fun w acc => Sha256.hex8 w +:+ acc) "" ws) acc =
  fold_left (fun acc w => acc * 2 ^ 32 + w) ws acc.
Proof.
  intros H. revert acc. induction H as [|w ws Hw _ IH]; intros acc; [done|].
  cbn [fold_right fold_left]. rewrite int16_go_app, int16_go_hex8 by done. apply IH.
Qed.

Lemma hexdigest_length (msg : list Z) :
  String.length (Sha256.hexdigest msg) = 64%nat.
Proof.
  unfold Sha256.hexdigest. destruct (sha256_words msg) as [Hl _].
  destruct (Sha256.sha256 msg) as [|a [|b [|c [|d [|e [|f [|g [|h [|]]]]]]]]];
    try discriminate. reflexivity.
Qed.

Lemma digest_parity (ws : list Z) :
  length ws = 8%nat →
  Z.odd (fold_left (fun acc w => acc * 2 ^ 32 + w) ws 0) = Z.odd (nth 7 ws 0).
Proof.
  intros Hl.
  destruct ws as [|a [|b [|c [|d [|e [|f [|g [|h [|]]]]]]]]]; try discriminate.
  cbn [fold_left nth].
  set (x := ((((((0 * 2 ^ 32 + a) * 2 ^ 32 + b) * 2 ^ 32 + c) * 2 ^ 32 + d) * 2 ^ 32 + e)
              * 2 ^ 32 + f) * 2 ^ 32 + g).
  replace (x * 2 ^ 32 + h) with (h + 2 * (x * 2 ^ 31)) by lia.
  apply Z.odd_add_mul_2.
Qed.

(** C8: the experiment group is a function of the identifier alone: it
    is the parity of the SHA-256 digest of the identifier's text,
    "control" when even and "treatment" when odd; it is one of these
    two names; and an identifier given as an integer or as its decimal
    text lands in the same group.  No state enters the computation.
    The digest is eight 32-bit words, written as 64 hexadecimal digits
    and read back as the big-endian number of these words, so the group
    is decided by the lowest bit of the last word.  The hash is the
    SHA-256 of FIPS 180-4 on the standard's test messages, and on the
    texts "1" and "3", which land in different groups. *)
Theorem experiment_group_is_sha256_parity (user_id : value) :
  let message := encode_utf8 (str user_id) in
  let digest := Sha256.sha256 message in
  get_user_experiment_group user_id =
    (if Sha256.int16 (Sha256.hexdigest message) mod 2 =? 0
     then "control" else "treatment")
  ∧ (get_user_experiment_group user_id = "control" ∨
     get_user_experiment_group user_id = "treatment")
  ∧ (∀ n : Z, get_user_experiment_group (VStr (str (VInt n))) =
              get_user_experiment_group (VInt n))
  ∧ length digest = 8%nat
  ∧ Forall (fun w => 0 ≤ w < 2 ^ 32) digest
  ∧ String.length (Sha256.hexdigest message) = 64%nat
  ∧ Sha256.int16 (Sha256.hexdigest message) =
      fold_left (fun acc w => acc * 2 ^ 32 + w) digest 0
  ∧ (get_user_experiment_group user_id = "treatment" ↔ Z.odd (nth 7 digest 0) = true)
  ∧ (get_user_experiment_group user_id = "control" ↔ Z.even (nth 7 digest 0) = true)
  ∧ Sha256.hexdigest (encode_utf8 "abc") =
      "ba7816bf8f01cfea414140de5dae2223b00361a396177a9cb410ff61f20015ad"
  ∧ Sha256.hexdigest [] =
      "e3b0c44298fc1c149afbf4c8996fb92427ae41e4649b934ca495991b7852b855"
  ∧ Sha256.hexdigest
      (encode_utf8 "abcdbcdecdefdefgefghfghighijhijkijkljklmklmnlmnomnopnopq") =
      "248d6a61d20638b8e5c026930c3e6039a33ce45964ff2167f6ecedd419db06c1"
  ∧ Sha256.hexdigest (encode_utf8 (str (VInt 1))) =
      "6b86b273ff34fce19d6b804eff5a3f5747ada4eaa22f1d49c01e52ddb7875b4b"
  ∧ get_user_experiment_group (VInt 1) = "treatment"
  ∧ get_user_experiment_group (VStr "1") = "treatment"
  ∧ Sha256.hexdigest (encode_utf8 (str (VInt 3))) =
      "4e07408562bedb8b60ce05c1decfe3ad16b72230967de01f640b7e4729b49fce"
  ∧ get_user_experiment_group (VInt 3) = "control".
Proof.
  intros message digest.
  destruct (sha256_words message) as [Hl Hr]. fold digest in Hl, Hr.
  assert (Hint : Sha256.int16 (Sha256.hexdigest message) =
                 fold_left (fun acc w => acc * 2 ^ 32 + w) digest 0).
  { unfold Sha256.int16, Sha256.hexdigest. by apply int16_hexdigest_words. }
  assert (Hgroup : get_user_experiment_group user_id =
            if Z.odd (nth 7 digest 0) then "treatment" else "control").
  { unfold get_user_experiment_group.
    change (negb FeatureFlags.ENABLE_AB_TESTING) with false. cbv iota zeta.
    fold message. rewrite Hint, <- (digest_parity digest Hl).
    rewrite Zmod_odd. by destruct (Z.odd _). }
  split; [reflexivity|].
  split; [rewrite Hgroup; destruct (Z.odd _); [right|left]; reflexivity|].
  split; [reflexivity|].
  split; [exact Hl|]. split; [exact Hr|].
  split; [apply hexdigest_length|]. split; [exact Hint|].
  split; [rewrite Hgroup; destruct (Z.odd _); by split|].
  split; [rewrite Hgroup, <- Z.negb_odd; destruct (Z.odd _); by split|].
  repeat split; vm_compute; reflexivity.
Qed.

End ExperimentAssignment.

(* ===================================================================== *)
(** ** Centroid                                                            *)
(* ===================================================================== *)

Section Centroid.

Lemma div_eucl_mul (q b : Z) : 0 < b → Z.div_eucl (q * b) b = (q, 0).
Proof.
  intros Hb. pose proof (Z.div_mul q b ltac:(lia)) as Hq.
  pose proof (Z.mod_mul q b ltac:(lia)) as Hr.
  unfold Z.div, Z.modulo in Hq, Hr. destruct (Z.div_eucl (q * b) b) as [q' r'].
  by subst.
Qed.

(** Dividing a finite [float64] by one: the quotient of the mantissas
    is exact, at the exponent of the dividend or one below it. *)
Lemma div_core_one (m : positive) (e : Z) :
  bounded 53 1024 m e = true →
  SFdiv_core_binary 53 1024 (Zpos m) e 4503599627370496 (-52) =
  if e =? -1074 then (Zpos m, e, loc_Exact) else (Zpos m~0, e - 1, loc_Exact).
Proof.
  unfold bounded, canonical_mantissa, fexp, emin. intros Hb.
  apply andb_true_iff in Hb as [Hc He]. apply Z.eqb_eq in Hc. apply Z.leb_le in He.
  unfold SFdiv_core_binary, fexp, emin.
  change (Zdigits2 (Z.pos m)) with (Z.pos (digits2_pos m)).
  change (Zdigits2 4503599627370496) with 53.
  set (d := Z.pos (digits2_pos m)) in *.
  assert (Hd : 0 < d) by (unfold d; lia).
  destruct (e =? -1074) eqn:E.
  - apply Z.eqb_eq in E. subst e.
    replace (Z.min (Z.max (d + -1074 - (53 + -52) - 53) (3 - 1024 - 53)) (-1074 - -52))
      with (-1074) by lia.
    change (-1074 - -52 - -1074) with 52.
    rewrite Z.shiftl_mul_pow2 by lia. rewrite div_eucl_mul by lia. reflexivity.
  - apply Z.eqb_neq in E.
    replace (Z.min (Z.max (d + e - (53 + -52) - 53) (3 - 1024 - 53)) (e - -52))
      with (e - 1) by lia.
    replace (e - -52 - (e - 1)) with 53 by lia.
    rewrite Z.shiftl_mul_pow2 by lia.
    replace (Z.pos m * 2 ^ 53) with (Z.pos m~0 * 4503599627370496) by lia.
    rewrite div_eucl_mul by lia. reflexivity.
Qed.

Lemma SF64div_one (s : bool) (m : positive) (e : Z) :
  bounded 53 1024 m e = true →
  SF64div (S754_finite s m e) (S754_finite false 4503599627370496 (-52)) =
  S754_finite s m e.
Proof.
  intros Hb. unfold SF64div, SFdiv.
  change prec with 53. change emax with 1024.
  rewrite (div_core_one m e Hb).
  unfold bounded, canonical_mantissa, fexp, emin in Hb.
  apply andb_true_iff in Hb as [Hc He]. apply Z.eqb_eq in Hc. apply Z.leb_le in He.
  assert (Hs : xorb s false = s) by (by destruct s). rewrite Hs.
  destruct (e =? -1074) eqn:E.
  - unfold binary_round_aux, shr_fexp, fexp, emin.
    change (Zdigits2 (Z.pos m)) with (Z.pos (digits2_pos m)).
    rewrite Hc, Z.sub_diag. cbn [shr_record_of_loc shr shr_m loc_of_shr_record
                                  round_nearest_even].
    change (Zdigits2 (Z.pos m)) with (Z.pos (digits2_pos m)).
    rewrite Hc, Z.sub_diag. cbn [shr shr_m].
    by rewrite (proj2 (Z.leb_le _ _) He).
  - apply Z.eqb_neq in E.
    unfold binary_round_aux, shr_fexp, fexp, emin.
    change (Zdigits2 (Z.pos m~0)) with (Z.pos (Pos.succ (digits2_pos m))).
    replace (Z.max (Z.pos (Pos.succ (digits2_pos m)) + (e - 1) - 53) (3 - 1024 - 53)
             - (e - 1)) with 1 by lia.
    cbn [shr_record_of_loc shr SpecFloat.iter_pos shr_1 orb shr_m shr_r shr_s
         loc_of_shr_record round_nearest_even].
    change (Zdigits2 (Z.pos m)) with (Z.pos (digits2_pos m)).
    replace (e - 1 + 1) with e by lia.
    rewrite Hc, Z.sub_diag. cbn [shr shr_m].
    by rewrite (proj2 (Z.leb_le _ _) He).
Qed.

(** [x / 1.0] is [x], for every [float64]. *)
Lemma float_div_one (x : float) : (x / 1)%float = x.
Proof.
  apply Prim2SF_inj. rewrite FloatAxioms.div_spec.
  change (Prim2SF 1) with (S754_finite false 4503599627370496 (-52)).
  pose proof (Prim2SF_valid x) as Hv.
  destruct (Prim2SF x) as [[]|[]| |s m e]; try reflexivity.
  by apply SF64div_one.
Qed.

(** [0.0 + x] is [x], except that [0.0 + -0.0] is [0.0]. *)
Lemma float_zero_add (x : float) : x ≠ (-0)%float → (0 + x)%float = x.
Proof.
  intros Hx. apply Prim2SF_inj. rewrite FloatAxioms.add_spec.
  change (Prim2SF 0) with (S754_zero false).
  destruct (Prim2SF x) as [[]|s| |s m e] eqn:E; try reflexivity.
  exfalso. apply Hx. apply Prim2SF_inj. by rewrite E.
Qed.

(** [-0.0 + x] is [x]. *)
Lemma float_neg_zero_add (x : float) : (-0 + x)%float = x.
Proof.
  apply Prim2SF_inj. rewrite FloatAxioms.add_spec.
  change (Prim2SF (-0)) with (S754_zero true).
  by destruct (Prim2SF x) as [[]|s| |s m e].
Qed.

(** [0.0 + x == x] unless [x] is a NaN. *)
Lemma float_zero_add_eq (x : float) :
  PrimFloat.is_nan x = false → float_eq (0 + x)%float x.
Proof.
  intros Hn. unfold float_eq.
  destruct (PrimFloat.eqb x (-0)%float) eqn:E.
  - rewrite FloatAxioms.eqb_spec, FloatAxioms.add_spec.
    rewrite FloatAxioms.eqb_spec in E.
    change (Prim2SF 0) with (S754_zero false).
    change (Prim2SF (-0)) with (S754_zero true) in E.
    by destruct (Prim2SF x) as [[]|[]| |[] m e].
  - rewrite float_zero_add.
    + unfold PrimFloat.is_nan in Hn. by destruct (PrimFloat.eqb x x).
    + intros ->. by vm_compute in E.
Qed.

Lemma vadd_length (a b : vector) :
  length a = length b → length (vadd a b) = length a.
Proof.
  revert b. induction a as [|x a IH]; intros [|y b] H; simpl in *; try done.
  f_equal. apply IH. lia.
Qed.

Lemma vadd_lookup (a b : vector) (j : nat) (x y : float) :
  a !! j = Some x → b !! j = Some y → vadd a b !! j = Some (x + y)%float.
Proof.
  revert b j. induction a as [|x' a IH]; intros [|y' b] [|j] Ha Hb;
    simplify_eq/=; try done. by apply IH.
Qed.

Lemma fold_vadd (d : nat) (rows : list vector) (acc : vector) :
  length acc = d → rectangular d rows →
  length (fold_left vadd rows acc) = d ∧
  ∀ j x, acc !! j = Some x →
         fold_left vadd rows acc !! j = Some (sum_from x (column j rows)).
Proof.
  revert acc. induction rows as [|r rows IH]; intros acc Hl Hr.
  - split; [done|]. intros j x Hx. exact Hx.
  - apply Forall_cons in Hr as [H0 Hr']. cbn [fold_left].
    destruct (IH (vadd acc r)) as [Hlen Hnth];
      [rewrite vadd_length; congruence|done|].
    split; [done|]. intros j x Hx.
    assert (Hj : (j < length r)%nat).
    { rewrite H0, <- Hl. by apply lookup_lt_is_Some_1. }
    destruct (lookup_lt_is_Some_2 r j Hj) as [y Hy].
    rewrite (Hnth j (x + y)%float) by by apply vadd_lookup.
    unfold column, sum_from. cbn [fmap list_fmap fold_left].
    by rewrite (nth_lookup_Some _ _ _ _ Hy).
Qed.

Lemma rectangular_forallb (d : nat) (v0 : vector) (vs : list vector) :
  rectangular d (v0 :: vs) →
  forallb (fun v => (length v =? length v0)%nat) vs = true.
Proof.
  intros H. inversion H as [|? ? H0 Hr]; subst.
  apply forallb_forall. intros v Hv.
  rewrite Forall_forall in Hr. apply Nat.eqb_eq. apply Hr.
  by apply list_elem_of_In.
Qed.

(** On rows of equal length the mean is defined; of a single column it
    is the pairwise sum over the number of rows, and otherwise each
    component is the column sum, added row by row, over the number of
    rows. *)
Lemma np_mean_rectangular (d : nat) (v0 : vector) (vs : list vector) :
  rectangular d (v0 :: vs) →
  ∃ c, np_mean v0 vs = Ok c ∧ length c = d ∧
       (d = 1%nat →
        c = [(0 + pairwise_sum (column 0 (v0 :: vs)))
             / float_of_nat (length (v0 :: vs))]%float) ∧
       (d ≠ 1%nat →
        ∀ j, (j < d)%nat → c !! j = Some (column_mean j (v0 :: vs))).
Proof.
  intros H. unfold np_mean. rewrite (rectangular_forallb d) by done.
  eexists. split; [reflexivity|].
  assert (Hd : length v0 = d) by (by inversion H).
  destruct (decide (d = 1%nat)) as [->|Hne].
  - destruct v0 as [|x [|y v0]]; try discriminate.
    split; [done|]. split; [done|]. intros Hn. done.
  - destruct (fold_vadd d (v0 :: vs) (replicate (length v0) 0%float)) as [Hlen Hnth];
      [by rewrite length_replicate|done|].
    assert (Hs : ∀ j, (j < d)%nat →
              ((fun s => (s / float_of_nat (length (v0 :: vs)))%float) <$>
                 fold_left vadd (v0 :: vs) (replicate (length v0) 0%float)) !! j
              = Some (column_mean j (v0 :: vs))).
    { intros j Hj. rewrite list_lookup_fmap.
      by rewrite (Hnth j 0%float) by (apply lookup_replicate_2; lia). }
    destruct v0 as [|x [|y v0]]; [| simpl in Hd; lia |].
    + split; [by rewrite length_fmap|]. split; [done|]. intros _. exact Hs.
    + split; [by rewrite length_fmap|]. split; [done|]. intros _. exact Hs.
Qed.

Lemma pairwise_sum_upto_S (depth : nat) (xs : list float) :
  pairwise_sum_upto (S depth) xs =
  if (length xs <? 8)%nat then sum_from (-0)%float xs
  else if (length xs <=? 128)%nat then block_sum xs
  else
    let n2 := (length xs / 2 - (length xs / 2) mod 8)%nat in
    (pairwise_sum_upto depth (take n2 xs) + pairwise_sum_upto depth (drop n2 xs))%float.
Proof. reflexivity. Qed.

(** The depth of the pairwise sum is enough for every run. *)
Lemma pairwise_sum_depth (depth : nat) (xs : list float) :
  (length xs ≤ 112 * 2 ^ depth + 16)%nat →
  pairwise_sum_upto (S depth) xs = pairwise_sum_upto depth xs.
Proof.
  revert xs. induction depth as [|depth IH]; intros xs Hn.
  - rewrite pairwise_sum_upto_S. cbn [pairwise_sum_upto].
    destruct (length xs <? 8)%nat; [done|].
    assert (Hle : (length xs <=? 128)%nat = true)
      by (apply Nat.leb_le; simpl in Hn; lia).
    by rewrite Hle.
  - rewrite (pairwise_sum_upto_S (S depth)), (pairwise_sum_upto_S depth).
    cbv zeta. destruct (length xs <? 8)%nat; [done|].
    destruct (length xs <=? 128)%nat; [done|].
    assert (Hp : (2 ^ S depth = 2 * 2 ^ depth)%nat) by (simpl; lia).
    pose proof (Nat.div_mod_eq (length xs) 2) as H2.
    pose proof (Nat.mod_upper_bound (length xs) 2 ltac:(lia)) as H2'.
    pose proof (Nat.mod_upper_bound (length xs / 2) 8 ltac:(lia)) as H8.
    pose proof (Nat.Div0.mod_le (length xs / 2) 8) as H8'.
    rewrite !IH; [done| |].
    + rewrite length_drop. lia.
    + rewrite length_take. lia.
Qed.

Lemma pairwise_sum_enough (depth : nat) (xs : list float) :
  (length xs ≤ depth)%nat → pairwise_sum_upto depth xs = pairwise_sum xs.
Proof.
  unfold pairwise_sum. intros H.
  induction H as [|depth H IH]; [done|].
  rewrite pairwise_sum_depth; [done|].
  assert (depth < 2 ^ depth)%nat by (apply Nat.pow_gt_lin_r; lia). lia.
Qed.

Lemma pairwise_sum_short (xs : list float) :
  (length xs < 8)%nat → pairwise_sum xs = sum_from (-0)%float xs.
Proof.
  intros H. unfold pairwise_sum.
  destruct (length xs) as [|n] eqn:E; cbn [pairwise_sum_upto]; rewrite E;
    by rewrite (proj2 (Nat.ltb_lt _ _) H).
Qed.


Lemma vadd_zeros (v : vector) :
  vadd (replicate (length v) 0%float) v = (fun x => (0 + x)%float) <$> v.
Proof. induction v as [|x v IH]; [done|]. cbn. by rewrite IH. Qed.

(** The mean of a single row: each component is added to zero and
    divided by one. *)
Lemma np_mean_single (v : vector) :
  np_mean v [] = Ok ((fun x => (0 + x)%float) <$> v).
Proof.
  unfold np_mean. cbn [forallb length].
  change (float_of_nat 1) with 1%float.
  destruct v as [|x [|y v]].
  - reflexivity.
  - cbn [fmap list_fmap nth]. rewrite pairwise_sum_short by (simpl; lia).
    unfold sum_from. cbn [fold_left].
    by rewrite float_neg_zero_add, float_div_one.
  - cbn [fold_left]. rewrite vadd_zeros, <- list_fmap_compose.
    apply (f_equal Ok), list_fmap_ext. intros i z _. cbn. apply float_div_one.
Qed.

(** C9: the centroid is the componentwise mean as [float64] arithmetic
    computes it.  On rows of equal length [d] it has [d] components;
    each is the sum of its column, added up row by row from zero with
    every addition rounded, divided by the number of rows (of a single
    column, the pairwise sum of the column, which for fewer than 8 rows
    is the sum from the left).  The centroid of a single vector is that
    vector: component for component the same number, except that -0.0
    comes back as 0.0; the two compare equal whenever the vector holds
    no NaN.  The centroid of [[1,2,3],[4,5,6],[7,8,9]] is [4,5,6], which
    is also the mean in real numbers.  The centroid of [[0.1],[0.2]] is
    [0.15000000000000002]. *)
Theorem centroid_is_componentwise_mean :
  (∀ (d : nat) (v0 : vector) (vs : list vector),
     rectangular d (v0 :: vs) →
     ∃ c, compute_centroid (v0 :: vs) = Ok c ∧ length c = d ∧
          (d = 1%nat →
           c = [(0 + pairwise_sum (column 0 (v0 :: vs)))
                / float_of_nat (length (v0 :: vs))]%float) ∧
          (d ≠ 1%nat →
           ∀ j, (j < d)%nat → c !! j = Some (column_mean j (v0 :: vs))))
  ∧ (∀ xs : list float,
       (length xs < 8)%nat → pairwise_sum xs = sum_from (-0)%float xs)
  ∧ (∀ v : vector,
       ∃ c, compute_centroid [v] = Ok c ∧ length c = length v ∧
            (∀ j x, v !! j = Some x → x ≠ (-0)%float → c !! j = Some x) ∧
            (∀ j, v !! j = Some (-0)%float → c !! j = Some 0%float) ∧
            (Forall (fun x => PrimFloat.is_nan x = false) v → Forall2 float_eq c v))
  ∧ compute_centroid [[1; 2; 3]; [4; 5; 6]; [7; 8; 9]]%float = Ok [4; 5; 6]%float
  ∧ (∀ j x, [4; 5; 6]%float !! j = Some x →
       ∃ reals q,
         mapM real (column j [[1; 2; 3]; [4; 5; 6]; [7; 8; 9]]%float) = Some reals ∧
         real x = Some q ∧ (q == mean_of reals)%Q)
  ∧ compute_centroid [[0x1.999999999999ap-4]; [0x1.999999999999ap-3]]%float
    = Ok [0x1.3333333333334p-3]%float
  ∧ compute_centroid [[0x1.999999999999ap-4; 1]; [0x1.999999999999ap-3; 2]]%float
    = Ok [0x1.3333333333334p-3; 0x1.8p+0]%float.
Proof.
  split; [|split; [|split; [|split; [|split; [|split]]]]].
  - intros d v0 vs H. by apply np_mean_rectangular.
  - apply pairwise_sum_short.
  - intros v. exists ((fun x => (0 + x)%float) <$> v).
    split; [apply np_mean_single|].
    split; [by rewrite length_fmap|]. split; [|split].
    + intros j x Hx Hn. rewrite list_lookup_fmap, Hx. cbn. by rewrite float_zero_add.
    + intros j Hx. by rewrite list_lookup_fmap, Hx.
    + intros Hn. apply Forall2_fmap_l, Forall_Forall2_diag.
      eapply Forall_impl; [exact Hn|]. intros x. apply float_zero_add_eq.
  - vm_compute. reflexivity.
  - intros [|[|[|j]]] x Hx; simplify_eq/=.
    all: eexists _, _; split; [lazy; reflexivity|];
      split; [lazy; reflexivity|]; vm_compute; reflexivity.
  - vm_compute. reflexivity.
  - vm_compute. reflexivity.
Qed.

(** C9 read in real numbers does not hold: the first component of the
    centroid of [[0.1, 1.0], [0.2, 2.0]] is 0.15000000000000002, which
    is not the mean of the two numbers that 0.1 and 0.2 stand for. *)
Lemma centroid_exact_mean_fails : ¬ centroid_is_exact_mean.
Proof.
  intros H.
  destruct (H [[0x1.999999999999ap-4; 1]; [0x1.999999999999ap-3; 2]]%float
              [0x1.3333333333334p-3; 0x1.8p+0]%float 0%nat 0x1.3333333333334p-3%float
              (default []
                 (mapM real
                    (column 0 [[0x1.999999999999ap-4; 1];
                               [0x1.999999999999ap-3; 2]]%float)))
              ltac:(discriminate) ltac:(vm_compute; reflexivity) eq_refl
              ltac:(vm_compute; reflexivity)) as (q & Hq & Hm).
  vm_compute in Hq. injection Hq as <-. vm_compute in Hm. discriminate.
Qed.

(** A run of C9 on two rows of two components. *)
Lemma centroid_is_componentwise_mean_witness :
  rectangular 2 [[1; 2]; [3; 6]]%float ∧
  ∃ c, compute_centroid [[1; 2]; [3; 6]]%float = Ok c ∧ length c = 2%nat ∧
       c = [2; 4]%float ∧
       ∀ j, (j < 2)%nat → c !! j = Some (column_mean j [[1; 2]; [3; 6]]%float).
Proof.
  assert (H : rectangular 2 [[1; 2]; [3; 6]]%float) by (repeat constructor).
  split; [exact H|].
  destruct (proj1 centroid_is_componentwise_mean 2%nat [1; 2]%float [[3; 6]%float] H)
    as (c & Hc & Hlen & _ & Hmean).
  exists c. split; [exact Hc|]. split; [exact Hlen|]. split.
  - vm_compute in Hc. by injection Hc as <-.
  - apply Hmean. lia.
Defined.

End Centroid.
(* ===================================================================== *)
(** ** Dictionaries                                                        *)
(* ===================================================================== *)

Section Dictionaries.
Context {A V : Type}.
Implicit Types (d : pydict V) (k : Z).

Lemma dict_get_set k k' (v : V) d :
  dict_get k (dict_set k' v d) = if k =? k' then Some v else dict_get k d.
Proof.
  induction d as [|[k0 v0] d IH]; simpl.
  - reflexivity.
  - destruct (k' =? k0) eqn:E0; simpl.
    + apply Z.eqb_eq in E0. subst k0.
      destruct (k =? k') eqn:E; reflexivity.
    + destruct (k =? k0) eqn:E1.
      * apply Z.eqb_eq in E1. subst k0.
        rewrite Z.eqb_sym in E0. by rewrite E0.
      * apply IH.
Qed.

Lemma dict_keys_set k (v : V) d :
  dict_keys (dict_set k v d) =
  if list_contains k (dict_keys d) then dict_keys d else dict_keys d ++ [k].
Proof.
  induction d as [|[k0 v0] d IH]; [reflexivity|].
  change (dict_keys ((k0, v0) :: d)) with (k0 :: dict_keys d).
  unfold list_contains in *. cbn [dict_set existsb].
  destruct (k =? k0) eqn:E.
  - apply Z.eqb_eq in E. by subst.
  - change (dict_keys ((k0, v0) :: dict_set k v d))
      with (k0 :: dict_keys (dict_set k v d)).
    rewrite IH. cbn [orb]. by destruct (existsb _ _).
Qed.

Lemma list_contains_spec (x : Z) (xs : list Z) :
  Is_true (list_contains x xs) ↔ x ∈ xs.
Proof.
  unfold list_contains. rewrite Is_true_true, existsb_exists. split.
  - intros (y & Hy & E). apply Z.eqb_eq in E. subst. by apply list_elem_of_In.
  - intros H. exists x. split; [by apply list_elem_of_In | apply Z.eqb_refl].
Qed.

Lemma dict_keys_set_NoDup k (v : V) d :
  NoDup (dict_keys d) → NoDup (dict_keys (dict_set k v d)).
Proof.
  intros H. rewrite dict_keys_set.
  destruct (list_contains k (dict_keys d)) eqn:E; [done|].
  apply NoDup_app. split; [done|]. split; [|apply NoDup_singleton].
  intros x Hx Hx'. apply list_elem_of_singleton in Hx'. subst x.
  apply list_contains_spec in Hx. rewrite E in Hx. done.
Qed.

Lemma dict_keys_set_elem k k' (v : V) d :
  k ∈ dict_keys (dict_set k' v d) ↔ k = k' ∨ k ∈ dict_keys d.
Proof.
  rewrite dict_keys_set.
  destruct (list_contains k' (dict_keys d)) eqn:E.
  - split; [tauto|]. intros [->|]; [|done].
    apply list_contains_spec. by rewrite E.
  - rewrite elem_of_app, list_elem_of_singleton. tauto.
Qed.

Lemma dict_values_keys (idf : V → Z) d :
  Forall (fun p => idf p.2 = p.1) d → idf <$> dict_values d = dict_keys d.
Proof.
  unfold dict_values, dict_keys.
  induction 1 as [|[k v] d Hk Hd IH]; [done|].
  cbn [fmap list_fmap fst snd] in *. by rewrite Hk, IH.
Qed.

Variables (key : A → Z) (val : A → V).

Lemma find_append (f : A → bool) (l1 l2 : list A) :
  List.find f (l1 ++ l2) =
  match List.find f l1 with
  | Some x => Some x
  | None => List.find f l2
  end.
Proof.
  induction l1 as [|x l1 IH]; simpl; [reflexivity|].
  by destruct (f x).
Qed.

Lemma dict_fold_get k (xs : list A) d :
  dict_get k (fold_left (fun d x => dict_set (key x) (val x) d) xs d) =
  match List.find (fun x => key x =? k) (rev xs) with
  | Some x => Some (val x)
  | None => dict_get k d
  end.
Proof.
  revert d. induction xs as [|x xs IH]; intros d; simpl; [reflexivity|].
  rewrite IH, find_append.
  destruct (List.find _ (rev xs)); [reflexivity|].
  simpl. rewrite dict_get_set, (Z.eqb_sym k). by destruct (key x =? k).
Qed.

Lemma dict_comp_get k (xs : list A) :
  dict_get k (dict_comp key val xs) =
  val <$> List.find (fun x => key x =? k) (rev xs).
Proof.
  unfold dict_comp. rewrite dict_fold_get. by destruct (List.find _ _).
Qed.

Lemma dict_fold_keys (xs : list A) d :
  NoDup (dict_keys d) →
  NoDup (dict_keys (fold_left (fun d x => dict_set (key x) (val x) d) xs d)) ∧
  ∀ k, k ∈ dict_keys (fold_left (fun d x => dict_set (key x) (val x) d) xs d) ↔
       k ∈ dict_keys d ∨ k ∈ key <$> xs.
Proof.
  revert d. induction xs as [|x xs IH]; intros d H; simpl.
  - split; [done|]. intros k. rewrite elem_of_nil. tauto.
  - destruct (IH (dict_set (key x) (val x) d)) as [IH1 IH2].
    { by apply dict_keys_set_NoDup. }
    split; [done|]. intros k. rewrite IH2, dict_keys_set_elem, elem_of_cons.
    tauto.
Qed.

Lemma dict_comp_keys_NoDup (xs : list A) : NoDup (dict_keys (dict_comp key val xs)).
Proof. apply dict_fold_keys. by apply NoDup_nil. Qed.

Lemma dict_comp_keys_elem k (xs : list A) :
  k ∈ dict_keys (dict_comp key val xs) ↔ k ∈ key <$> xs.
Proof.
  unfold dict_comp. destruct (dict_fold_keys xs []) as [_ H]; [by apply NoDup_nil|].
  rewrite H. unfold dict_keys. simpl. rewrite elem_of_nil. tauto.
Qed.

Lemma dict_set_entries (P : Z → V → Prop) k (v : V) d :
  P k v → Forall (fun p => P p.1 p.2) d →
  Forall (fun p => P p.1 p.2) (dict_set k v d).
Proof.
  intros Hk. induction 1 as [|[k0 v0] d H0 Hd IH]; simpl.
  - by repeat constructor.
  - destruct (k =? k0); constructor; done.
Qed.

Lemma dict_comp_entries (P : Z → V → Prop) (xs : list A) :
  (∀ x, P (key x) (val x)) →
  Forall (fun p => P p.1 p.2) (dict_comp key val xs).
Proof.
  intros HP. unfold dict_comp.
  assert (H : Forall (fun p : Z * V => P p.1 p.2) []) by constructor.
  revert H. generalize (@nil (Z * V)).
  induction xs as [|x xs IH]; intros d Hd; simpl; [done|].
  apply IH. by apply dict_set_entries.
Qed.

End Dictionaries.

(* ===================================================================== *)
(** ** Metadata lookup and enrichment                                      *)
(* ===================================================================== *)

Section Enrichment.
Import RecommendationService.

Lemma has_record_spec (table : list Row) (mid : Z) :
  Is_true (has_record table mid) ↔ ∃ r, r ∈ table ∧ row_movie_id r = mid.
Proof.
  unfold has_record. rewrite Is_true_true, existsb_exists. split.
  - intros (r & Hr & E). exists r. split; [by apply list_elem_of_In | by apply Z.eqb_eq].
  - intros (r & Hr & E). exists r. split; [by apply list_elem_of_In | by apply Z.eqb_eq].
Qed.

(** The dict that [get_movies_by_ids] builds from the rows matching
    [ids]. *)
Lemma selected_rows_get (table : list Row) (ids : list Z) (k : Z) :
  let md := dict_comp row_movie_id data_of_row
              (filter (fun r => Is_true (list_contains (row_movie_id r) ids)) table) in
  match dict_get k md with
  | Some d => k ∈ ids ∧ ∃ r, r ∈ table ∧ row_movie_id r = k ∧ d = data_of_row r
  | None => ¬ (k ∈ ids ∧ Is_true (has_record table k))
  end.
Proof.
  intros md. unfold md. rewrite dict_comp_get.
  destruct (List.find _ _) as [r|] eqn:E; simpl.
  - apply find_some in E. destruct E as [Hin E]. apply Z.eqb_eq in E.
    rewrite <- in_rev in Hin. apply list_elem_of_In, list_elem_of_filter in Hin.
    destruct Hin as [Hc Hin]. apply list_contains_spec in Hc. subst k.
    split; [done|]. by exists r.
  - intros [Hk Hrec]. apply has_record_spec in Hrec. destruct Hrec as (r & Hr & Er).
    assert (Hf : In r (rev (filter (fun r => Is_true (list_contains (row_movie_id r) ids)) table))).
    { rewrite <- in_rev. apply list_elem_of_In, list_elem_of_filter. split; [|done].
      apply list_contains_spec. by rewrite Er. }
    apply (find_none _ _ E) in Hf. apply Z.eqb_neq in Hf. done.
Qed.

Lemma get_movies_by_ids_lookup (db : Postgres) (table : list Row) (ids : list Z) :
  connect db = Ok table →
  ∃ md, get_movies_by_ids db ids = Ok md ∧
    ∀ k, match dict_get k md with
         | Some d => k ∈ ids ∧ ∃ r, r ∈ table ∧ row_movie_id r = k ∧ d = data_of_row r
         | None => ¬ (k ∈ ids ∧ Is_true (has_record table k))
         end.
Proof.
  intros Hc. unfold get_movies_by_ids. destruct ids as [|i ids].
  - exists []. split; [done|]. intros k. simpl. rewrite elem_of_nil. tauto.
  - rewrite Hc. cbn [bind]. eexists. split; [reflexivity|].
    intros k. apply (selected_rows_get table (i :: ids) k).
Qed.

Lemma enrich_from_lookup (table : list Row) (md : pydict MovieData)
    (scores : pydict Q) (all ids : list Z) :
  (∀ k, match dict_get k md with
        | Some d => k ∈ all ∧ ∃ r, r ∈ table ∧ row_movie_id r = k ∧ d = data_of_row r
        | None => ¬ (k ∈ all ∧ Is_true (has_record table k))
        end) →
  ids ⊆ all →
  let movies := omap (fun mid =>
                        match dict_get mid md with
                        | Some data => Some (make_movie data (default 0%Q (dict_get mid scores)))
                        | None => None
                        end) ids in
  Models.id <$> movies = filter (fun mid => Is_true (has_record table mid)) ids ∧
  Forall (fun m => ∃ r, r ∈ table ∧
            m = make_movie (data_of_row r) (default 0%Q (dict_get (row_movie_id r) scores)))
         movies.
Proof.
  intros Hmd. induction ids as [|i ids IH]; intros Hsub movies.
  - split; [done|]. constructor.
  - destruct IH as [IH1 IH2]; [set_solver|].
    subst movies. simpl. specialize (Hmd i).
    destruct (dict_get i md) as [d|] eqn:E.
    + destruct Hmd as (_ & r & Hr & Ei & ->).
      rewrite filter_cons_True by (apply has_record_spec; eauto).
      simpl. split.
      * f_equal; [done|]. apply IH1.
      * constructor; [|done]. exists r. split; [done|]. by rewrite Ei.
    + rewrite filter_cons_False; [done|].
      intros H. apply Hmd. split; [set_solver | done].
Qed.

Lemma enrich_movies_spec (svc : Service) (table : list Row)
    (movie_ids : list Z) (scores : pydict Q) :
  connect (movie_repo svc) = Ok table →
  ∃ movies, _enrich_movies svc movie_ids scores = Ok movies ∧
    Models.id <$> movies = filter (fun mid => Is_true (has_record table mid)) movie_ids ∧
    Forall (fun m => ∃ r, r ∈ table ∧
              m = make_movie (data_of_row r) (default 0%Q (dict_get (row_movie_id r) scores)))
           movies.
Proof.
  intros Hc. unfold _enrich_movies.
  destruct (get_movies_by_ids_lookup _ _ movie_ids Hc) as (md & -> & Hmd).
  simpl. eexists. split; [reflexivity|].
  by apply (enrich_from_lookup table md scores movie_ids movie_ids).
Qed.

(** Whatever the store answers, the ids of the enriched movies are
    among the requested ones, in their order. *)
Lemma enrich_movies_sublist (svc : Service) (movie_ids : list Z)
    (scores : pydict Q) (movies : list Movie) :
  _enrich_movies svc movie_ids scores = Ok movies →
  (Models.id <$> movies) `sublist_of` movie_ids.
Proof.
  unfold _enrich_movies. intros H.
  destruct (connect (movie_repo svc)) as [table|e] eqn:Hc.
  - destruct (enrich_movies_spec svc table movie_ids scores Hc) as (ms & E & Hid & _).
    unfold _enrich_movies in E. rewrite E in H. injection H as <-.
    rewrite Hid. apply sublist_filter.
  - unfold get_movies_by_ids in H. destruct movie_ids; [|by rewrite Hc in H].
    simpl in H. injection H as <-. done.
Qed.

(** C6: enrichment keeps the input order and the scores: the ids of the
    output are the input ids that have a record in the metadata store,
    in input order (ids without a record, and only those, are left out);
    every output movie is built from a stored record of its id and
    carries the score that the mapping gives for this id (0.0 when the
    mapping has none); ids [3,1,2] with scores {3:0.9, 1:0.8, 2:0.7}
    come out as [3,1,2] with these scores. *)
Theorem enrichment_preserves_order_and_scores :
  (∀ (svc : Service) (table : list Row) (movie_ids : list Z) (scores : pydict Q),
     connect (movie_repo svc) = Ok table →
     ∃ movies, _enrich_movies svc movie_ids scores = Ok movies ∧
       Models.id <$> movies =
         filter (fun mid => Is_true (has_record table mid)) movie_ids ∧
       Forall (fun m => ∃ r, r ∈ table ∧ row_movie_id r = Models.id m ∧
                 m = make_movie (data_of_row r)
                       (default 0%Q (dict_get (Models.id m) scores)))
              movies)
  ∧ (∃ movies,
       _enrich_movies (Sample.service Sample.index) [3; 1; 2] Sample.scores = Ok movies ∧
       Models.id <$> movies = [3; 1; 2] ∧
       Models.score <$> movies = [9 # 10; 8 # 10; 7 # 10]%Q).
Proof.
  split.
  - intros svc table movie_ids scores Hc.
    destruct (enrich_movies_spec svc table movie_ids scores Hc) as (ms & E & Hid & Hall).
    exists ms. split; [done|]. split; [done|].
    eapply Forall_impl; [exact Hall|]. intros m (r & Hr & ->). by exists r.
  - eexists. split; [vm_compute; reflexivity|]. split; reflexivity.
Qed.

(** C6 on the three-movie table, with an id (7) that has no record. *)
Lemma enrichment_preserves_order_and_scores_witness :
  connect (movie_repo (Sample.service Sample.index)) = Ok Sample.table ∧
  ∃ movies,
    _enrich_movies (Sample.service Sample.index) [3; 7; 1] Sample.scores = Ok movies ∧
    Models.id <$> movies =
      filter (fun mid => Is_true (has_record Sample.table mid)) [3; 7; 1] ∧
    Forall (fun m => ∃ r, r ∈ Sample.table ∧ row_movie_id r = Models.id m ∧
              m = make_movie (data_of_row r)
                    (default 0%Q (dict_get (Models.id m) Sample.scores)))
           movies.
Proof.
  split; [reflexivity|].
  exact (proj1 enrichment_preserves_order_and_scores
           (Sample.service Sample.index) Sample.table [3; 7; 1] Sample.scores eq_refl).
Defined.

End Enrichment.

(* ===================================================================== *)
(** ** Stable descending sort                                              *)
(* ===================================================================== *)

Section SortDesc.
Context {A : Type} (lt : A → A → bool).
Hypothesis lt_asym : ∀ x y, lt x y = true → lt y x = false.
Hypothesis ge_trans : ∀ x y z, lt x y = false → lt y z = false → lt x z = false.

Lemma insert_desc_perm (x : A) (l : list A) : insert_desc lt x l ≡ₚ x :: l.
Proof.
  induction l as [|y l IH]; simpl; [done|].
  destruct (lt x y); [|done].
  rewrite IH. apply Permutation_swap.
Qed.

Lemma sort_desc_perm (l : list A) : sort_desc lt l ≡ₚ l.
Proof.
  induction l as [|x l IH]; simpl; [done|].
  rewrite insert_desc_perm. by rewrite IH.
Qed.

Lemma insert_desc_sorted (x : A) (l : list A) :
  StronglySorted (fun a b => lt a b = false) l →
  StronglySorted (fun a b => lt a b = false) (insert_desc lt x l).
Proof.
  induction 1 as [|y l Hs IH Hy]; simpl.
  - repeat constructor.
  - destruct (lt x y) eqn:E.
    + constructor; [done|].
      rewrite Forall_forall. intros z Hz.
      rewrite insert_desc_perm in Hz.
      apply elem_of_cons in Hz. destruct Hz as [->|Hz]; [by apply lt_asym|].
      rewrite Forall_forall in Hy. by apply Hy.
    + constructor; [by constructor|].
      constructor; [done|].
      eapply Forall_impl; [exact Hy|]. intros z Hz. by eapply ge_trans.
Qed.

Lemma sort_desc_sorted (l : list A) :
  StronglySorted (fun a b => lt a b = false) (sort_desc lt l).
Proof.
  induction l as [|x l IH]; simpl; [constructor|].
  by apply insert_desc_sorted.
Qed.

End SortDesc.

Lemma StronglySorted_fmap_on {A B} (R : A → A → Prop) (R' : B → B → Prop)
    (P : A → Prop) (f : A → B) (l : list A) :
  (∀ a b, P a → P b → R a b → R' (f a) (f b)) →
  Forall P l → StronglySorted R l → StronglySorted R' (f <$> l).
Proof.
  intros HR HP Hs. induction Hs as [|x l Hs IH Hx]; simpl; [constructor|].
  inversion HP as [|? ? Px Pl]; subst.
  constructor; [by apply IH|].
  rewrite Forall_fmap. rewrite Forall_forall in *.
  intros y Hy. apply HR; auto.
Qed.

(* ===================================================================== *)
(** ** Genre re-ranking                                                    *)
(* ===================================================================== *)

Section GenreRanking.
Import RecommendationService.

Lemma Qltb_spec (a b : Q) : Qltb a b = true ↔ (a < b)%Q.
Proof.
  unfold Qltb. rewrite negb_true_iff, <- not_true_iff_false, Qle_bool_iff.
  split; [apply Qnot_le_lt | apply Qlt_not_le].
Qed.

Lemma key_lt_spec (a b : ranked) :
  key_lt a b = true ↔
  (jaccard a < jaccard b)%Q ∨
  ((jaccard a == jaccard b)%Q ∧ (original_score a < original_score b)%Q).
Proof.
  unfold key_lt. destruct (Qeq_bool (jaccard a) (jaccard b)) eqn:E.
  - apply Qeq_bool_iff in E. rewrite Qltb_spec. split; [tauto|].
    intros [H|[_ H]]; [|done]. rewrite E in H. by apply Qlt_irrefl in H.
  - apply Qeq_bool_neq in E. rewrite Qltb_spec. tauto.
Qed.

Lemma key_ge_spec (a b : ranked) :
  key_lt a b = false ↔
  (jaccard b < jaccard a)%Q ∨
  ((jaccard a == jaccard b)%Q ∧ (original_score b <= original_score a)%Q).
Proof.
  rewrite <- not_true_iff_false, key_lt_spec. split.
  - intros H.
    destruct (Q_dec (jaccard a) (jaccard b)) as [[Hlt|Hgt]|Heq].
    + tauto.
    + by left.
    + right. split; [done|]. apply Qnot_lt_le. tauto.
  - intros [H|[He H]] [H'|[He' H']].
    + eapply Qlt_irrefl, Qlt_trans; eauto.
    + rewrite He' in H. by apply Qlt_irrefl in H.
    + rewrite He in H'. by apply Qlt_irrefl in H'.
    + by apply Qle_not_lt in H.
Qed.

Lemma key_lt_asym (a b : ranked) : key_lt a b = true → key_lt b a = false.
Proof.
  rewrite key_lt_spec, key_ge_spec. intros [H|[He H]].
  - by left.
  - right. split; [by symmetry | by apply Qlt_le_weak].
Qed.

Lemma key_ge_trans (a b c : ranked) :
  key_lt a b = false → key_lt b c = false → key_lt a c = false.
Proof.
  rewrite !key_ge_spec. intros [H1|[E1 H1]] [H2|[E2 H2]].
  - left. by eapply Qlt_trans.
  - left. by rewrite <- E2.
  - left. by rewrite E1.
  - right. split; [by rewrite E1 | by eapply Qle_trans].
Qed.

Lemma size_pos_nonempty (X : gset string) :
  (0 <? size X)%nat = true ↔ X ≠ ∅.
Proof.
  rewrite Nat.ltb_lt. split.
  - intros H ->. rewrite size_empty in H. lia.
  - intros H. destruct (size X) eqn:E; [|lia].
    apply size_empty_iff in E. by apply leibniz_equiv in E.
Qed.

(** What the loop of [_rank_by_genre_similarity] does with one
    candidate. *)
Lemma rank_entry_spec (target_genres : list string) (m : Movie) :
  target_genres ≠ [] →
  rank_entry (target_set target_genres) m =
  if decide (shares_genre target_genres m)
  then Some {| movie := m;
               jaccard := jaccard_similarity target_genres m;
               original_score := Models.score m |}
  else None.
Proof.
  intros Hne. unfold rank_entry, shares_genre, jaccard_similarity.
  set (mg := movie_genres m). set (t := target_set target_genres).
  assert (Hu : (0 <? size (mg ∪ t))%nat = true).
  { apply size_pos_nonempty. destruct target_genres as [|g gs]; [done|].
    intros H. assert (Hg : lower g ∈ mg ∪ t).
    { apply elem_of_union_r. unfold t, target_set.
      apply elem_of_list_to_set. simpl. apply elem_of_cons. by left. }
    rewrite H in Hg. by apply elem_of_empty in Hg. }
  rewrite Hu.
  destruct (0 <? size (mg ∩ t))%nat eqn:Hi.
  - apply size_pos_nonempty in Hi. by rewrite decide_True.
  - rewrite decide_False; [done|]. intros H.
    apply size_pos_nonempty in H. congruence.
Qed.

Lemma ranked_movies_spec (target_genres : list string) (movies : list Movie) :
  target_genres ≠ [] →
  movie <$> omap (rank_entry (target_set target_genres)) movies =
    filter (shares_genre target_genres) movies ∧
  Forall (fun r => jaccard r = jaccard_similarity target_genres (movie r) ∧
                   original_score r = Models.score (movie r))
         (omap (rank_entry (target_set target_genres)) movies).
Proof.
  intros Hne. induction movies as [|m ms [IH1 IH2]]; simpl; [by split|].
  rewrite rank_entry_spec by done.
  destruct (decide (shares_genre target_genres m)) as [H|H].
  - rewrite filter_cons_True by done. simpl. split; [by f_equal|].
    constructor; [by split | done].
  - rewrite filter_cons_False by done. by split.
Qed.

Lemma rank_by_genre_similarity_spec (movies : list Movie) (target_genres : list string) :
  target_genres ≠ [] →
  _rank_by_genre_similarity movies target_genres ≡ₚ
    filter (shares_genre target_genres) movies ∧
  StronglySorted (ranks_before target_genres)
                 (_rank_by_genre_similarity movies target_genres).
Proof.
  intros Hne. destruct (ranked_movies_spec target_genres movies Hne) as [Hm Hf].
  unfold _rank_by_genre_similarity.
  destruct target_genres as [|g gs] eqn:Etg; [done|]. rewrite <- Etg in *.
  split.
  - rewrite <- Hm. apply fmap_Permutation, sort_desc_perm.
  - eapply (StronglySorted_fmap_on (fun a b => key_lt a b = false) _
              (fun r => jaccard r = jaccard_similarity target_genres (movie r) ∧
                        original_score r = Models.score (movie r))).
    + intros a b [Ja Sa] [Jb Sb] H. apply key_ge_spec in H.
      unfold ranks_before. rewrite <- Ja, <- Jb, <- Sa, <- Sb. exact H.
    + rewrite Forall_forall in *. intros r Hr. apply Hf.
      by rewrite sort_desc_perm in Hr.
    + apply sort_desc_sorted; [apply key_lt_asym | apply key_ge_trans].
Qed.

(** A sub-permutation: the ranking neither invents nor repeats
    candidates. *)
Lemma rank_by_genre_similarity_submseteq (movies : list Movie) (tg : list string) :
  _rank_by_genre_similarity movies tg ⊆+ movies.
Proof.
  destruct tg as [|g gs] eqn:E; [done|]. rewrite <- E.
  destruct (rank_by_genre_similarity_spec movies tg) as [Hp _]; [by subst|].
  rewrite Hp. apply sublist_submseteq, sublist_filter.
Qed.

Lemma lower_ascii_idemp (c : ascii) : lower_ascii (lower_ascii c) = lower_ascii c.
Proof.
  unfold lower_ascii.
  destruct ((65 <=? nat_of_ascii c)%nat && (nat_of_ascii c <=? 90)%nat) eqn:E.
  - apply andb_true_iff in E. destruct E as [E1 E2].
    apply Nat.leb_le in E1, E2.
    rewrite nat_ascii_embedding by lia.
    replace ((65 <=? nat_of_ascii c + 32)%nat && (nat_of_ascii c + 32 <=? 90)%nat)
      with false; [done|].
    symmetry. apply andb_false_iff. right. apply Nat.leb_gt. lia.
  - by rewrite E.
Qed.


Lemma lower_ascii_code (c : ascii) :
  nat_of_ascii (lower_ascii c) =
  if ((65 <=? nat_of_ascii c) && (nat_of_ascii c <=? 90))%nat
  then (nat_of_ascii c + 32)%nat else nat_of_ascii c.
Proof.
  unfold lower_ascii.
  destruct ((65 <=? nat_of_ascii c)%nat && (nat_of_ascii c <=? 90)%nat) eqn:E; [|done].
  apply andb_true_iff in E as [E1 E2]. apply Nat.leb_le in E1, E2.
  apply nat_ascii_embedding. lia.
Qed.

(** [lower] identifies exactly the strings that differ at most in the
    case of their letters. *)
Lemma same_char_lower (a b : ascii) :
  lower_ascii a = lower_ascii b ↔ same_char_ignoring_case a b = true.
Proof.
  assert (Hinj : lower_ascii a = lower_ascii b ↔
                 nat_of_ascii (lower_ascii a) = nat_of_ascii (lower_ascii b)).
  { split; [by intros ->|]. intros H.
    apply (f_equal ascii_of_nat) in H. by rewrite !ascii_nat_embedding in H. }
  rewrite Hinj, !lower_ascii_code. unfold same_char_ignoring_case.
  set (x := nat_of_ascii a). set (y := nat_of_ascii b).
  destruct (Nat.leb_spec 65 x), (Nat.leb_spec x 90), (Nat.leb_spec 65 y),
    (Nat.leb_spec y 90), (Nat.eqb_spec x y), (Nat.eqb_spec y (x + 32)),
    (Nat.eqb_spec x (y + 32)); cbn [andb orb]; split; intros; try done; lia.
Qed.

Lemma same_ignoring_case_lower (s t : string) :
  lower s = lower t ↔ same_ignoring_case s t = true.
Proof.
  revert t. induction s as [|a s IH]; intros [|b t]; cbn [lower same_ignoring_case];
    try done.
  rewrite andb_true_iff, <- IH, <- same_char_lower. split.
  - by intros [= -> ->].
  - by intros [-> ->].
Qed.


Lemma shared_genres_spec (target_genres : list string) (m : Movie) (x : string) :
  x ∈ movie_genres m ∩ target_set target_genres ↔
  (∃ gc, gc ∈ split "|" (Models.genres m) ∧ x = lower (strip gc)) ∧
  (∃ gt, gt ∈ target_genres ∧ x = lower gt).
Proof.
  unfold movie_genres, target_set.
  rewrite elem_of_intersection, !elem_of_list_to_set, !list_elem_of_fmap.
  split; intros [(a & Ha & Ha') (b & Hb & Hb')]; split; eauto.
Qed.

End GenreRanking.

(* ===================================================================== *)
(** ** Lists without repetition, slices, sampling                          *)
(* ===================================================================== *)

Lemma NoDup_submseteq_inv {A} (l k : list A) : l ⊆+ k → NoDup k → NoDup l.
Proof.
  intros H Hk. apply submseteq_Permutation in H. destruct H as [r Hr].
  rewrite Hr in Hk. by apply NoDup_app in Hk as [? _].
Qed.

Lemma NoDup_fmap_submseteq {A B} (f : A → B) (l k : list A) :
  l ⊆+ k → NoDup (f <$> k) → NoDup (f <$> l).
Proof. intros H. apply NoDup_submseteq_inv. by apply fmap_submseteq. Qed.

Section ListFacts.
Context {A : Type}.
Implicit Types l k : list A.

Lemma slice_to_submseteq l (stop : Z) : slice_to l stop ⊆+ l.
Proof. unfold slice_to. destruct (0 <=? stop); apply submseteq_take. Qed.

Lemma slice_to_length l (stop : Z) :
  0 ≤ stop → Z.of_nat (length (slice_to l stop)) ≤ stop.
Proof.
  intros H. unfold slice_to. rewrite (proj2 (Z.leb_le 0 stop) H).
  rewrite length_take. lia.
Qed.

Lemma swap_out_perm l (j : nat) (x y : A) :
  l !! j = Some x → x :: <[j := y]> l ≡ₚ y :: l.
Proof.
  intros H. rewrite insert_take_drop by (by eapply lookup_lt_Some).
  rewrite <- (take_drop_middle l j x H) at 3.
  rewrite !Permutation_middle.
  rewrite <- !(Permutation_middle (take j l)). apply perm_swap.
Qed.

(** One step of the pool loop keeps the live prefix of the pool a
    rearrangement of what was there, minus the element drawn. *)
Lemma pool_step_perm l (m j : nat) (x y : A) :
  (j < S m)%nat → l !! j = Some x → l !! m = Some y →
  x :: take m (<[j := y]> l) ≡ₚ take (S m) l.
Proof.
  intros Hj Hx Hy. rewrite (take_S_r l m y Hy).
  destruct (decide (j = m)) as [->|Hne].
  - assert (x = y) by congruence. subst y.
    rewrite list_insert_id by done.
    by rewrite <- Permutation_cons_append.
  - rewrite take_insert_lt by lia.
    rewrite swap_out_perm; [by rewrite <- Permutation_cons_append|].
    rewrite lookup_take_lt by lia. done.
Qed.

Lemma sample_go_spec (rand : nat → nat) (k i m : nat) (pool : list A) :
  (k ≤ m)%nat → (m ≤ length pool)%nat →
  length (sample_go rand i k pool m) = k ∧
  sample_go rand i k pool m ⊆+ take m pool.
Proof.
  revert i m pool. induction k as [|k IH]; intros i m pool Hk Hm; simpl.
  - split; [done | apply submseteq_nil_l].
  - destruct m as [|m]; [lia|].
    assert (Hj : (rand i mod S m < S m)%nat) by (apply Nat.mod_upper_bound; lia).
    set (j := (rand i mod S m)%nat) in *.
    destruct (lookup_lt_is_Some_2 pool j) as [x Hx]; [lia|].
    replace (S m - 1)%nat with m by lia.
    destruct (lookup_lt_is_Some_2 pool m) as [y Hy]; [lia|].
    rewrite Hx, Hy.
    destruct (IH (S i) m (<[j := y]> pool)) as [IHl IHs];
      [lia | rewrite length_insert; lia |].
    split; [simpl; by rewrite IHl|].
    rewrite <- (pool_step_perm pool m j x y) by done.
    by apply submseteq_skip.
Qed.

Lemma random_sample_spec (rand : nat → nat) (population : list A) (k : Z)
    (s : list A) :
  random_sample rand population k = Ok s →
  Z.of_nat (length s) = k ∧ s ⊆+ population.
Proof.
  unfold random_sample.
  destruct ((k <? 0) || (Z.of_nat (length population) <? k)) eqn:E; [done|].
  apply orb_false_iff in E. destruct E as [E1 E2].
  apply Z.ltb_ge in E1, E2. intros [= <-].
  destruct (sample_go_spec rand (Z.to_nat k) 0 (length population) population)
    as [Hl Hs]; [lia | lia |].
  split; [lia|]. by rewrite firstn_all in Hs.
Qed.

End ListFacts.

(* ===================================================================== *)
(** ** Cold start                                                          *)
(* ===================================================================== *)

Section ColdStart.
Import RecommendationService.

Lemma get_movies_by_ids_keys (db : Postgres) (ids : list Z) (md : pydict MovieData) :
  get_movies_by_ids db ids = Ok md →
  NoDup (dict_keys md) ∧ (∀ k, k ∈ dict_keys md → k ∈ ids) ∧
  data_id <$> dict_values md = dict_keys md.
Proof.
  unfold get_movies_by_ids. destruct ids as [|i ids].
  - intros [= <-]. split; [by apply NoDup_nil|]. split; [|done].
    intros k Hk. by apply elem_of_nil in Hk.
  - destruct (connect db) as [table|e]; [|done]. cbn [bind]. intros [= <-].
    split; [apply dict_comp_keys_NoDup|]. split.
    + intros k Hk. apply dict_comp_keys_elem, list_elem_of_fmap in Hk.
      destruct Hk as (r & -> & Hr). apply list_elem_of_filter in Hr.
      destruct Hr as [Hr _].
      by apply (list_contains_spec (row_movie_id r) (i :: ids)) in Hr.
    + apply dict_values_keys.
      apply (dict_comp_entries _ _ (fun k d => data_id d = k)).
      intros r. reflexivity.
Qed.

Lemma selected_vectors_eq (q : Qdrant) (ids : list Z) :
  match ids with
  | [] => Ok []
  | _ :: _ => get_vectors_by_ids q ids
  end = get_vectors_by_ids q ids.
Proof. by destruct ids. Qed.

(** The two ways in which [cold_start_strategies] returns a list. *)
Lemma cold_start_strategies_inv (svc : Service) (ids : list Z)
    (genres keywords : option (list string)) (top_k : Z) (out : list item) :
  cold_start_strategies svc ids genres keywords top_k = Ok out →
  (∃ v0 vs target results enriched,
     get_vectors_by_ids (vector_repo svc) ids = Ok (v0 :: vs) ∧
     np_mean v0 vs = Ok target ∧
     search_similar (vector_repo svc) target (top_k * 2) = Ok results ∧
     _enrich_movies svc
       (filter (fun mid => ¬ Is_true (list_contains mid ids)) (movie_id <$> results))
       (dict_comp movie_id VectorRepository.score results) = Ok enriched ∧
     out = MovieObj <$>
             slice_to (if truthy genres
                       then _rank_by_genre_similarity enriched (default [] genres)
                       else enriched) top_k)
  ∨ (get_vectors_by_ids (vector_repo svc) ids = Ok [] ∧
     (out = [] ∨
      ∃ (candidates : gset Z) md,
        get_movies_by_ids (movie_repo svc) (slice_to (elements candidates) top_k) = Ok md ∧
        out = RowDict <$> dict_values md)).
Proof.
  unfold cold_start_strategies. rewrite selected_vectors_eq.
  destruct (get_vectors_by_ids (vector_repo svc) ids) as [[|v0 vs]|e]; cbn [bind]; [| |done].
  - intros H. right. split; [done|].
    destruct (truthy genres || truthy keywords).
    + destruct (find_movies_by_criteria _ _ _ _) as [cl|e]; cbn [bind] in H; [|done].
      destruct (decide (_ = ∅)); [left; congruence|].
      destruct (get_movies_by_ids _ _) as [md|e] eqn:E; cbn [bind] in H; [|done].
      right. exists (list_to_set cl), md. split; [done | congruence].
    + cbn [bind] in H. rewrite decide_True in H by done. left. congruence.
  - intros H. left.
    destruct (np_mean v0 vs) as [target|e] eqn:Em; cbn [bind] in H; [|done].
    destruct (search_similar _ _ _) as [results|e] eqn:Es; cbn [bind] in H; [|done].
    destruct (_enrich_movies _ _ _) as [enriched|e] eqn:E; cbn [bind] in H; [|done].
    exists v0, vs, target, results, enriched. repeat split; congruence.
Qed.

Lemma item_id_MovieObj (ms : list Movie) :
  item_id <$> (MovieObj <$> ms) = Models.id <$> ms.
Proof. by rewrite <- list_fmap_compose. Qed.

Lemma item_id_RowDict (ds : list MovieData) :
  item_id <$> (RowDict <$> ds) = data_id <$> ds.
Proof. by rewrite <- list_fmap_compose. Qed.

(** On the vector path the ids returned are drawn, without repetition of
    positions, from the hits that are not seeds. *)
Lemma by_vector_ids (svc : Service) (ids : list Z) (genres : option (list string))
    (top_k : Z) (results : list Candidate) (enriched : list Movie) :
  _enrich_movies svc
    (filter (fun mid => ¬ Is_true (list_contains mid ids)) (movie_id <$> results))
    (dict_comp movie_id VectorRepository.score results) = Ok enriched →
  Models.id <$> slice_to (if truthy genres
                          then _rank_by_genre_similarity enriched (default [] genres)
                          else enriched) top_k
  ⊆+ filter (fun mid => ¬ Is_true (list_contains mid ids)) (movie_id <$> results).
Proof.
  intros E. apply enrich_movies_sublist, sublist_submseteq in E.
  etrans; [|exact E]. apply fmap_submseteq.
  etrans; [apply slice_to_submseteq|].
  destruct (truthy genres); [apply rank_by_genre_similarity_submseteq | done].
Qed.

Lemma cold_start_strategies_bounded (svc : Service) (ids : list Z)
    (genres keywords : option (list string)) (top_k : Z) (out : list item) :
  index_well_behaved (vector_repo svc) → 0 ≤ top_k →
  cold_start_strategies svc ids genres keywords top_k = Ok out →
  Z.of_nat (length out) ≤ top_k ∧ NoDup (item_id <$> out).
Proof.
  intros Hidx Hk H. apply cold_start_strategies_inv in H.
  destruct H as [(v0 & vs & target & results & enriched & _ & _ & Hs & He & ->)
                | [_ [->|(c & md & Hmd & ->)]]].
  - split.
    + rewrite length_fmap. by apply slice_to_length.
    + rewrite item_id_MovieObj.
      eapply NoDup_submseteq_inv; [by eapply by_vector_ids|].
      apply NoDup_filter. by apply (Hidx _ _ _ Hs).
  - split; [simpl; lia | by apply NoDup_nil].
  - apply get_movies_by_ids_keys in Hmd. destruct Hmd as (Hnd & Hsub & Hid).
    rewrite item_id_RowDict, Hid. split; [|done].
    rewrite length_fmap. unfold dict_values. rewrite length_fmap.
    assert (Hle : (length (dict_keys md) ≤ length (slice_to (elements c) top_k))%nat).
    { apply submseteq_length, NoDup_submseteq; done. }
    unfold dict_keys in Hle. rewrite length_fmap in Hle.
    pose proof (slice_to_length (elements c) top_k Hk). lia.
Qed.

Lemma cold_start_strategies_no_seed (svc : Service) (ids : list Z)
    (genres keywords : option (list string)) (top_k : Z) (out : list item)
    (v0 : vector) (vs : list vector) :
  get_vectors_by_ids (vector_repo svc) ids = Ok (v0 :: vs) →
  cold_start_strategies svc ids genres keywords top_k = Ok out →
  ∀ x, x ∈ out → item_id x ∉ ids.
Proof.
  intros Hv H. apply cold_start_strategies_inv in H.
  destruct H as [(w0 & ws & target & results & enriched & _ & _ & Hs & He & ->)
                | [Hv' _]]; [|congruence].
  intros x Hx Hin.
  assert (Hid : item_id x ∈
            filter (fun mid => ¬ Is_true (list_contains mid ids)) (movie_id <$> results)).
  { eapply elem_of_submseteq; [|by eapply by_vector_ids].
    rewrite <- item_id_MovieObj. by apply list_elem_of_fmap_2. }
  apply list_elem_of_filter in Hid. destruct Hid as [Hni _].
  apply Hni. by apply list_contains_spec.
Qed.

Lemma cold_start_strategies_by_vector_ok (svc : Service) (ids : list Z)
    (genres keywords : option (list string)) (top_k : Z)
    (v0 : vector) (vs : list vector) (target : vector)
    (results : list Candidate) (table : list Row) :
  get_vectors_by_ids (vector_repo svc) ids = Ok (v0 :: vs) →
  np_mean v0 vs = Ok target →
  search_similar (vector_repo svc) target (top_k * 2) = Ok results →
  connect (movie_repo svc) = Ok table →
  ∃ enriched,
    _enrich_movies svc
      (filter (fun mid => ¬ Is_true (list_contains mid ids)) (movie_id <$> results))
      (dict_comp movie_id VectorRepository.score results) = Ok enriched ∧
    cold_start_strategies svc ids genres keywords top_k =
      Ok (MovieObj <$>
            slice_to (if truthy genres
                      then _rank_by_genre_similarity enriched (default [] genres)
                      else enriched) top_k).
Proof.
  intros Hv Hm Hs Hc.
  destruct (enrich_movies_spec svc table
              (filter (fun mid => ¬ Is_true (list_contains mid ids)) (movie_id <$> results))
              (dict_comp movie_id VectorRepository.score results) Hc)
    as (enriched & He & _).
  exists enriched. split; [done|].
  unfold cold_start_strategies. rewrite selected_vectors_eq, Hv. cbn [bind].
  rewrite Hm. cbn [bind]. rewrite Hs. cbn [bind]. rewrite He. done.
Qed.

End ColdStart.

(* ===================================================================== *)
(** ** Known users                                                         *)
(* ===================================================================== *)

Section KnownUser.
Import RecommendationService.

Lemma cold_start_no_signal (svc : Service) (top_k : Z) :
  cold_start_strategies svc [] None None top_k = Ok [].
Proof.
  unfold cold_start_strategies. cbn [bind truthy orb].
  by rewrite decide_True.
Qed.

Lemma recommend_cold_start_no_signal (svc : Service) (h : heap) (top_k : Z) :
  recommend_cold_start svc h None None None None None top_k = (Ok [], h, []).
Proof.
  unfold recommend_cold_start. simpl. by rewrite cold_start_no_signal.
Qed.

(** The three outcomes of the lookup of the user's vector. *)
Lemma recommend_for_user_no_vector (svc : Service) (rand : nat → nat)
    (user_id top_k : Z) (ab_group : string) :
  get_user_vector svc user_id = Ok None →
  recommend_for_user_wrapped svc rand user_id top_k ab_group =
    ([], (if String.eqb ab_group "treatment" then [DebugVariantB user_id] else [])
         ++ [WarningFallbackColdStart user_id]).
Proof.
  intros H. unfold recommend_for_user_wrapped.
  by rewrite H, recommend_cold_start_no_signal.
Qed.

Lemma recommend_for_user_lookup_error (svc : Service) (rand : nat → nat)
    (user_id top_k : Z) (ab_group : string) (e : exn) :
  get_user_vector svc user_id = Raise e →
  recommend_for_user_wrapped svc rand user_id top_k ab_group =
    ([], (if String.eqb ab_group "treatment" then [DebugVariantB user_id] else [])
         ++ [ErrorRecommendations user_id e]).
Proof. intros H. unfold recommend_for_user_wrapped. by rewrite H. Qed.

Lemma recommend_for_user_with_vector (svc : Service) (rand : nat → nat)
    (user_id top_k : Z) (ab_group : string) (user_vector : vector) :
  get_user_vector svc user_id = Ok (Some user_vector) →
  let treatment := String.eqb ab_group "treatment" in
  let log0 := if treatment then [DebugVariantB user_id] else [] in
  recommend_for_user_wrapped svc rand user_id top_k ab_group =
    match
      (try recommendations :=
         search_similar (vector_repo svc) user_vector
           (if treatment then top_k * 2 else top_k) in
       try recommendations :=
         (if treatment && (top_k <? Z.of_nat (length recommendations))
          then random_sample rand recommendations top_k
          else Ok recommendations) in
       try movies :=
         _enrich_movies svc (movie_id <$> recommendations)
           (dict_comp movie_id VectorRepository.score recommendations) in
       Ok (MovieObj <$> movies))
    with
    | Ok movies => (movies, log0 ++ [])
    | Raise e => ([], log0 ++ [] ++ [ErrorRecommendations user_id e])
    end.
Proof. intros H. unfold recommend_for_user_wrapped. by rewrite H. Qed.

Lemma fallback_not_in_debug (user_id : Z) (b : bool) :
  WarningFallbackColdStart user_id ∉
    (if b then [DebugVariantB user_id] else []).
Proof.
  destruct b; [|apply not_elem_of_nil].
  intros H. apply list_elem_of_singleton in H. discriminate.
Qed.

Lemma recommend_for_user_bounded (svc : Service) (rand : nat → nat)
    (user_id top_k : Z) (ab_group : string) :
  index_well_behaved (vector_repo svc) → 0 ≤ top_k →
  Z.of_nat (length (recommend_for_user_wrapped svc rand user_id top_k ab_group).1) ≤ top_k ∧
  NoDup (item_id <$> (recommend_for_user_wrapped svc rand user_id top_k ab_group).1).
Proof.
  intros Hidx Hk.
  assert (Hnil : Z.of_nat (length (@nil item)) ≤ top_k ∧ NoDup (item_id <$> @nil item)).
  { split; [simpl; lia | by apply NoDup_nil]. }
  destruct (get_user_vector svc user_id) as [[uv|]|e] eqn:Hv.
  2: { by rewrite (recommend_for_user_no_vector _ _ _ _ _ Hv). }
  2: { by rewrite (recommend_for_user_lookup_error _ _ _ _ _ _ Hv). }
  rewrite (recommend_for_user_with_vector _ _ _ _ _ _ Hv).
  destruct (search_similar _ _ _) as [recs|e] eqn:Hs; cbn [bind]; [|done].
  apply Hidx in Hs. destruct Hs as [Hlen Hnd].
  assert (Hlen' : Z.of_nat (length recs) ≤
            (if (ab_group =? "treatment")%string then top_k * 2 else top_k)).
  { apply Hlen. destruct (ab_group =? "treatment")%string; lia. }
  clear Hlen.
  destruct ((if (ab_group =? "treatment")%string && (top_k <? Z.of_nat (length recs))
             then random_sample rand recs top_k else Ok recs)) as [sel|e] eqn:Hsel;
    cbn [bind]; [|done].
  assert (Hsel' : Z.of_nat (length sel) ≤ top_k ∧ sel ⊆+ recs).
  { destruct ((ab_group =? "treatment")%string) eqn:Et; cbn [andb] in Hsel.
    - destruct (top_k <? Z.of_nat (length recs)) eqn:El.
      + apply random_sample_spec in Hsel. destruct Hsel. split; [lia | done].
      + injection Hsel as <-. apply Z.ltb_ge in El. done.
    - injection Hsel as <-. done. }
  destruct Hsel' as [Hl Hsub].
  destruct (_enrich_movies _ _ _) as [movies|e] eqn:He; cbn [bind]; [|done].
  apply enrich_movies_sublist in He. cbn [fst].
  rewrite item_id_MovieObj, length_fmap. split.
  - apply sublist_length in He. rewrite !length_fmap in He. lia.
  - eapply NoDup_submseteq_inv; [by apply sublist_submseteq|].
    by eapply NoDup_fmap_submseteq.
Qed.

End KnownUser.

(* ===================================================================== *)
(** ** The result cache                                                    *)
(* ===================================================================== *)

Section ResultCache.
Import Cache RecommendationService.

(** A function called with the user id as its first positional argument
    is cached under "<prefix>:<user id>", and distinct ids get distinct
    keys (the situation of tests/test_cache.py). *)
Lemma cache_key_of_function_call (key_prefix : string) (u1 u2 : Z) (rest : list value) :
  cache_key key_prefix (VInt u1 :: rest) = key_prefix +:+ ":" +:+ pretty u1 ∧
  (cache_key key_prefix (VInt u1 :: rest) = cache_key key_prefix (VInt u2 :: rest) →
   u1 = u2).
Proof.
  split; [reflexivity|]. simpl. intros H.
  apply (inj (String.append key_prefix)) in H.
  apply (inj (String.append ":")) in H.
  by apply (inj pretty) in H.
Qed.

(** C1 (as the code runs): [recommend_for_user] is a method, so the first
    positional argument that the wrapper sees is the service instance.
    The key is "rec:" followed by the text of the instance, whoever the
    user is: a stored entry answers the call of every user. *)
Theorem recommend_for_user_key_ignores_user
    (json_dumps : list item → result string)
    (json_loads : string → result (list item))
    (self : value) (svc : Service) (rand : nat → nat)
    (u1 u2 top_k : Z) (ab_group : string)
    (ttl : Z) (payload : string) (lg : list log_event) :
  let c := {| kv := {[ "rec:" +:+ str self := (ttl, payload) ]};
              get_fault := None; setex_fault := None |} in
  cache_key "rec" [self; VInt u1] = "rec:" +:+ str self ∧
  cache_key "rec" [self; VInt u1] = cache_key "rec" [self; VInt u2] ∧
  call_recommend_for_user json_dumps json_loads self svc rand u1 top_k ab_group
    (Some c, lg) = (json_loads payload, (Some c, lg)) ∧
  call_recommend_for_user json_dumps json_loads self svc rand u2 top_k ab_group
    (Some c, lg) = (json_loads payload, (Some c, lg)).
Proof.
  intros c. split; [reflexivity|]. split; [reflexivity|].
  unfold call_recommend_for_user, recommend_for_user, cache_result.
  cbn [fst]. unfold redis_get.
  change (cache_key "rec" [self; VInt u1]) with ("rec:" +:+ str self).
  change (cache_key "rec" [self; VInt u2]) with ("rec:" +:+ str self).
  cbn [get_fault kv c]. rewrite lookup_singleton_eq. done.
Qed.

(** The key of user 1 on the shared instance is not "rec:1". *)
Example recommend_for_user_key_sample :
  cache_key "rec" [Sample.self; VInt 1] =
    "rec:<services.recommendation_service.RecommendationService object at 0x223ca>" ∧
  cache_key "rec" [Sample.self; VInt 1] ≠ "rec:1" ∧
  cache_key "rec" [Sample.self; VInt 1] = cache_key "rec" [Sample.self; VInt 2].
Proof. split; [|split]; [vm_compute; reflexivity | discriminate | reflexivity]. Qed.

Section Wrapper.
Context {V S : Type}.
Variable json_dumps : V → result string.
Variable json_loads : string → result V.
Variables (key_prefix : string) (ttl_seconds : Z).
Variable func : list value → kwargs → S → result V * S.

Lemma wrapper_hit (args : list value) (kw : kwargs) (c : Redis) (s : S)
    (ttl0 : Z) (payload : string) :
  get_fault c = None →
  kv c !! cache_key key_prefix args = Some (ttl0, payload) →
  cache_result json_dumps json_loads key_prefix ttl_seconds func args kw (Some c, s)
  = (json_loads payload, (Some c, s)).
Proof.
  intros Hg Hk. unfold cache_result, redis_get. cbn [fst].
  by rewrite Hg, Hk.
Qed.

Lemma compute_and_store_ok (args : list value) (kw : kwargs) (c : Redis) (s s' : S)
    (key : string) (v : V) (payload : string) :
  func args kw s = (Ok v, s') → json_dumps v = Ok payload →
  compute_and_store json_dumps ttl_seconds func key args kw (Some c, s) =
  match setex_fault c with
  | None => (Ok v, (Some (stored c key ttl_seconds payload), s'))
  | Some e => if caught e then (Ok v, (Some c, s')) else (Raise e, (Some c, s'))
  end.
Proof.
  intros Hf Hd. unfold compute_and_store, redis_setex. rewrite Hf, Hd.
  destruct (setex_fault c) as [e|] eqn:E; [destruct (caught e); reflexivity|].
  unfold stored. by rewrite E.
Qed.

Lemma wrapper_miss (args : list value) (kw : kwargs) (c : Redis) (s s' : S)
    (v : V) (payload : string) :
  get_fault c = None →
  kv c !! cache_key key_prefix args = None →
  setex_fault c = None →
  func args kw s = (Ok v, s') → json_dumps v = Ok payload →
  cache_result json_dumps json_loads key_prefix ttl_seconds func args kw (Some c, s)
  = (Ok v, (Some (stored c (cache_key key_prefix args) ttl_seconds payload), s')).
Proof.
  intros Hg Hk Hs Hf Hd. unfold cache_result, redis_get. cbn [fst].
  rewrite Hg, Hk. cbn [fmap option_fmap option_map].
  rewrite (compute_and_store_ok _ _ _ _ _ _ _ _ Hf Hd). by rewrite Hs.
Qed.

Lemma wrapper_read_outage (args : list value) (kw : kwargs) (c : Redis) (s s' : S)
    (v : V) (payload : string) :
  outage (get_fault c) →
  setex_fault c = None ∨ outage (setex_fault c) →
  func args kw s = (Ok v, s') → json_dumps v = Ok payload →
  ∃ c', cache_result json_dumps json_loads key_prefix ttl_seconds func args kw (Some c, s)
        = (Ok v, (Some c', s')).
Proof.
  intros (e & Hg & He) Hs Hf Hd. unfold cache_result, redis_get. cbn [fst].
  rewrite Hg, He. rewrite (compute_and_store_ok _ _ _ _ _ _ _ _ Hf Hd).
  destruct Hs as [->|(e' & -> & ->)]; eauto.
Qed.

Lemma wrapper_write_outage (args : list value) (kw : kwargs) (c : Redis) (s s' : S)
    (v : V) (payload : string) :
  get_fault c = None →
  kv c !! cache_key key_prefix args = None →
  outage (setex_fault c) →
  func args kw s = (Ok v, s') → json_dumps v = Ok payload →
  cache_result json_dumps json_loads key_prefix ttl_seconds func args kw (Some c, s)
  = (Ok v, (Some c, s')).
Proof.
  intros Hg Hk (e & Hs & He) Hf Hd. unfold cache_result, redis_get. cbn [fst].
  rewrite Hg, Hk. cbn [fmap option_fmap option_map].
  rewrite (compute_and_store_ok _ _ _ _ _ _ _ _ Hf Hd). by rewrite Hs, He.
Qed.

Lemma wrapper_rejected (args : list value) (kw : kwargs) (c : Redis) (s s' : S)
    (v : V) (e : exn) :
  (get_fault c = None ∧ kv c !! cache_key key_prefix args = None) ∨
  outage (get_fault c) →
  func args kw s = (Ok v, s') → json_dumps v = Raise e →
  cache_result json_dumps json_loads key_prefix ttl_seconds func args kw (Some c, s)
  = (Raise e, (Some c, s')).
Proof.
  intros Hc Hf Hd. unfold cache_result, compute_and_store, redis_get. cbn [fst].
  destruct Hc as [[Hg Hk]|(e' & Hg & He)].
  - rewrite Hg, Hk. cbn [fmap option_fmap option_map]. by rewrite Hf, Hd.
  - rewrite Hg, He. by rewrite Hf, Hd.
Qed.

End Wrapper.

(** The encoder of the sample data rejects [Movie] objects. *)
Lemma dumps_items_rejects_models : rejects_models Fixtures.dumps_items.
Proof.
  intros out [m Hm]. unfold Fixtures.dumps_items.
  assert (mapM Fixtures.dumps_item out = None) as ->; [|done].
  induction out as [|x out IH]; [by apply elem_of_nil in Hm|].
  apply elem_of_cons in Hm as [<-|Hm]; [done|].
  cbn. destruct (Fixtures.dumps_item x); [|done]. cbn. by rewrite IH.
Qed.

(** C5: the wrapper is cache-aside and fails open as long as the result
    of the function can be encoded, and not otherwise.
    - Hit: when the store holds a payload under the key, the wrapper
      returns its decoding and leaves the state of the decorated function
      untouched (the function is not invoked).
    - Miss: when the key is absent, the result and the state are those of
      one invocation of the function, and the encoded result is stored
      under the key with the TTL.
    - Outage: when the read fails with a connection or timeout error
      (whether or not the write then works), or the read misses and the
      write fails so, the wrapper returns the result of one invocation
      and raises nothing.
    - A result that [json.dumps] rejects: on a miss as on a read outage
      the function is invoked once, and then the wrapper raises the
      encoder's error instead of returning the result; nothing is
      stored.  [json.dumps(result)] is evaluated inside the [try] whose
      handler is for connection and timeout errors only.
    - The decorated method of the service: [json.dumps] rejects [Movie]
      objects, so with a client installed every call of
      [recommend_for_user] that is not a hit and whose recommendations
      are not empty raises [TypeError] after the recommendations were
      computed. *)
Theorem cache_aside_fail_open {V S : Type}
    (json_dumps : V → result string) (json_loads : string → result V)
    (key_prefix : string) (ttl_seconds : Z)
    (func : list value → kwargs → S → result V * S)
    (args : list value) (kw : kwargs) (c : Redis) (s : S) :
  let wrapper := cache_result json_dumps json_loads key_prefix ttl_seconds func in
  let key := cache_key key_prefix args in
  (∀ ttl0 payload,
     get_fault c = None → kv c !! key = Some (ttl0, payload) →
     wrapper args kw (Some c, s) = (json_loads payload, (Some c, s)))
  ∧ (∀ v s' payload,
       func args kw s = (Ok v, s') → json_dumps v = Ok payload →
       get_fault c = None → kv c !! key = None → setex_fault c = None →
       wrapper args kw (Some c, s) =
         (Ok v, (Some (stored c key ttl_seconds payload), s')))
  ∧ (∀ v s' payload,
       func args kw s = (Ok v, s') → json_dumps v = Ok payload →
       (outage (get_fault c) ∧ (setex_fault c = None ∨ outage (setex_fault c))) ∨
       (get_fault c = None ∧ kv c !! key = None ∧ outage (setex_fault c)) →
       ∃ c', wrapper args kw (Some c, s) = (Ok v, (Some c', s')))
  ∧ (∀ v s' e,
       func args kw s = (Ok v, s') → json_dumps v = Raise e →
       (get_fault c = None ∧ kv c !! key = None) ∨ outage (get_fault c) →
       wrapper args kw (Some c, s) = (Raise e, (Some c, s')))
  ∧ (∀ (dumps : list item → result string) (loads : string → result (list item))
       (self : value) (svc : Service) (rand : nat → nat)
       (user_id top_k : Z) (ab_group : string)
       (lg lg' : list log_event) (out : list item),
       rejects_models dumps →
       recommend_for_user_wrapped svc rand user_id top_k ab_group = (out, lg') →
       (∃ m, MovieObj m ∈ out) →
       (get_fault c = None ∧ kv c !! cache_key "rec" [self; VInt user_id] = None) ∨
       outage (get_fault c) →
       call_recommend_for_user dumps loads self svc rand user_id top_k ab_group
         (Some c, lg) = (Raise TypeError, (Some c, lg ++ lg'))).
Proof.
  intros wrapper key. split; [|split; [|split; [|split]]].
  - intros ttl0 payload Hg Hk. by eapply wrapper_hit.
  - intros v s' payload Hf Hd Hg Hk Hs. by apply wrapper_miss.
  - intros v s' payload Hf Hd [[Hg Hs]|(Hg & Hk & Hs)].
    + by eapply wrapper_read_outage.
    + exists c. by eapply wrapper_write_outage.
  - intros v s' e Hf Hd Hc. by eapply wrapper_rejected.
  - intros dumps loads self svc rand user_id top_k ab_group lg lg' out
      Hrej Hw Hm Hc.
    unfold call_recommend_for_user, recommend_for_user.
    apply wrapper_rejected with (v := out); [done| |by apply Hrej].
    change (bind_arguments [self; VInt user_id]
              [("top_k", VInt top_k); ("ab_group", VStr ab_group)])
      with (Ok (user_id, top_k, ab_group) : result (Z * Z * string)).
    cbv beta iota. by rewrite Hw.
Qed.

(** C5 on the counting function of tests/test_cache.py: a hit leaves the
    call counter at 0, a miss and a read outage raise it to 1. *)
Lemma cache_aside_fail_open_witness :
  cache_result Sample.dumps Sample.loads "rec" 300 Sample.counting [VInt 123] []
    (Some (Sample.redis {[ "rec:123" := (300, "[1]") ]} None None), 0%nat)
  = (Ok [1], (Some (Sample.redis {[ "rec:123" := (300, "[1]") ]} None None), 0%nat))
  ∧ cache_result Sample.dumps Sample.loads "rec" 300 Sample.counting [VInt 456] []
      (Some (Sample.redis ∅ None None), 0%nat)
    = (Ok [2], (Some (stored (Sample.redis ∅ None None) "rec:456" 300 "[2]"), 1%nat))
  ∧ (∃ c', cache_result Sample.dumps Sample.loads "rec" 300 Sample.counting [VInt 789] []
            (Some (Sample.redis ∅ (Some ConnectionError) (Some ConnectionError)), 0%nat)
          = (Ok [2], (Some c', 1%nat)))
  ∧ cache_result Fixtures.dumps_fail Sample.loads "rec" 300 Sample.counting [VInt 5] []
      (Some (Sample.redis ∅ (Some TimeoutError) None), 0%nat)
    = (Raise TypeError, (Some (Sample.redis ∅ (Some TimeoutError) None), 1%nat))
  ∧ (∀ loads rand,
        call_recommend_for_user Fixtures.dumps_items loads Sample.self
          (Sample.service Sample.index) rand 10 2 "control"
          (Some (Sample.redis ∅ None None), [])
        = (Raise TypeError, (Some (Sample.redis ∅ None None), []))).
Proof.
  split; [|split; [|split; [|split]]].
  - apply (proj1 (cache_aside_fail_open Sample.dumps Sample.loads "rec" 300
                    Sample.counting [VInt 123] []
                    (Sample.redis {[ "rec:123" := (300, "[1]") ]} None None) 0%nat)
             300 "[1]"); reflexivity.
  - apply (proj1 (proj2 (cache_aside_fail_open Sample.dumps Sample.loads "rec" 300
                    Sample.counting [VInt 456] []
                    (Sample.redis ∅ None None) 0%nat))
             [2] 1%nat "[2]"); reflexivity.
  - apply (proj1 (proj2 (proj2
             (cache_aside_fail_open Sample.dumps Sample.loads "rec" 300
                Sample.counting [VInt 789] []
                (Sample.redis ∅ (Some ConnectionError) (Some ConnectionError)) 0%nat)))
             [2] 1%nat "[2]"); [reflexivity | reflexivity |].
    left. split; [|right]; exists ConnectionError; split; reflexivity.
  - apply (proj1 (proj2 (proj2 (proj2
             (cache_aside_fail_open Fixtures.dumps_fail Sample.loads "rec" 300
                Sample.counting [VInt 5] []
                (Sample.redis ∅ (Some TimeoutError) None) 0%nat))))
             [2] 1%nat TypeError); [reflexivity | reflexivity |].
    right. exists TimeoutError. split; reflexivity.
  - intros loads rand.
    apply (proj2 (proj2 (proj2 (proj2
             (cache_aside_fail_open Sample.dumps Sample.loads "rec" 300
                Sample.counting [] [] (Sample.redis ∅ None None) 0%nat))))
             Fixtures.dumps_items loads Sample.self
             (Sample.service Sample.index) rand 10 2 "control" [] []
             (MovieObj <$> [ {| Models.id := 3; Models.title := "Movie 3";
                                Models.genres := "Drama"; Models.poster_url := None;
                                Models.score := 9 # 10 |};
                             {| Models.id := 1; Models.title := "Movie 1";
                                Models.genres := "Action"; Models.poster_url := None;
                                Models.score := 8 # 10 |} ])).
    + apply dumps_items_rejects_models.
    + vm_compute. reflexivity.
    + eexists. apply elem_of_cons. by left.
    + left. split; reflexivity.
Defined.

End ResultCache.

(* ===================================================================== *)
(** ** The retrieval strategies                                            *)
(* ===================================================================== *)

Section Strategies.
Import RecommendationService SearchService.

(** C2 (as the code runs): a user with a vector never reaches the
    cold-start fallback.  When the index yields no hit the result is the
    empty list; when the index call fails the error is logged and the
    result is the empty list.  The fallback is entered exactly when the
    lookup finds no vector for the user. *)
Theorem no_fallback_with_vector (svc : Service) (rand : nat → nat)
    (user_id top_k : Z) (ab_group : string) (user_vector : vector) :
  get_user_vector svc user_id = Ok (Some user_vector) →
  (search_similar (vector_repo svc) user_vector
     (if String.eqb ab_group "treatment" then top_k * 2 else top_k) = Ok [] ∨
   ∃ e, search_similar (vector_repo svc) user_vector
          (if String.eqb ab_group "treatment" then top_k * 2 else top_k) = Raise e) →
  (recommend_for_user_wrapped svc rand user_id top_k ab_group).1 = [] ∧
  ¬ falls_back user_id (recommend_for_user_wrapped svc rand user_id top_k ab_group).2 ∧
  (∀ uid, falls_back uid (recommend_for_user_wrapped svc rand uid top_k ab_group).2 ↔
          get_user_vector svc uid = Ok None).
Proof.
  intros Hv Hs. split; [|split].
  - rewrite (recommend_for_user_with_vector _ _ _ _ _ _ Hv).
    destruct Hs as [Hs|[e Hs]]; rewrite Hs; cbn [bind]; [|done].
    change (Z.of_nat (length (@nil Candidate))) with 0. unfold random_sample.
    destruct (String.eqb ab_group "treatment"); cbn [andb]; [|done].
    destruct (top_k <? 0) eqn:E; cbn [orb bind]; done.
  - unfold falls_back. rewrite (recommend_for_user_with_vector _ _ _ _ _ _ Hv).
    destruct (try _ := _ in _) as [ms|e]; cbn [snd].
    + rewrite app_nil_r. apply fallback_not_in_debug.
    + rewrite elem_of_app. intros [H|H]; [by apply fallback_not_in_debug in H|].
      apply list_elem_of_singleton in H. discriminate.
  - intros uid. unfold falls_back.
    destruct (get_user_vector svc uid) as [[uv|]|e] eqn:Hu.
    + rewrite (recommend_for_user_with_vector _ _ _ _ _ _ Hu).
      split; [|done]. intros H. exfalso. revert H.
      destruct (try _ := _ in _) as [ms|e]; cbn [snd].
      * rewrite app_nil_r. apply fallback_not_in_debug.
      * rewrite elem_of_app. intros [H|H]; [by apply fallback_not_in_debug in H|].
        apply list_elem_of_singleton in H. discriminate.
    + rewrite (recommend_for_user_no_vector _ _ _ _ _ Hu). cbn [snd].
      split; [done|]. intros _. apply elem_of_app. right. by apply list_elem_of_singleton.
    + rewrite (recommend_for_user_lookup_error _ _ _ _ _ _ Hu). cbn [snd].
      split; [|done]. rewrite elem_of_app.
      intros [H|H]; [by apply fallback_not_in_debug in H|].
      apply list_elem_of_singleton in H. discriminate.
Qed.

(** C2 on user 10 of the sample service, with an index that finds
    nothing. *)
Lemma no_fallback_with_vector_witness :
  (recommend_for_user_wrapped (Sample.service Sample.empty_index)
     (fun _ => O) 10 5 "control").1 = [] ∧
  ¬ falls_back 10 (recommend_for_user_wrapped (Sample.service Sample.empty_index)
                     (fun _ => O) 10 5 "control").2.
Proof.
  assert (Hv : get_user_vector (Sample.service Sample.empty_index) 10 = Ok (Some [1%float]))
    by reflexivity.
  assert (Hs : search_similar (vector_repo (Sample.service Sample.empty_index)) [1%float]
                 (if String.eqb "control" "treatment" then 5 * 2 else 5) = Ok [] ∨
               ∃ e, search_similar (vector_repo (Sample.service Sample.empty_index)) [1%float]
                      (if String.eqb "control" "treatment" then 5 * 2 else 5) = Raise e)
    by (left; reflexivity).
  pose proof (no_fallback_with_vector (Sample.service Sample.empty_index)
                (fun _ => O) 10 5 "control" [1%float] Hv Hs) as (H1 & H2 & _).
  exact (conj H1 H2).
Defined.

(** With the index down, the error is logged and the result is empty. *)
Example recommend_for_user_index_down :
  recommend_for_user_wrapped (Sample.service Sample.broken_index)
    (fun _ => O) 10 5 "control"
  = ([], [ErrorRecommendations 10 QdrantError]).
Proof. reflexivity. Qed.

(** The claim of C2 as the specification words it fails on the sample
    service: user 10 has a vector, the index finds nothing, and the call
    ends without falling back. *)
Lemma fallback_on_empty_hits_fails : ¬ fallback_on_empty_hits.
Proof.
  intros H.
  specialize (H (Sample.service Sample.empty_index) (fun _ => O) 10 5 "control"
                [1%float] eq_refl (or_introl eq_refl)).
  vm_compute in H. by apply elem_of_nil in H.
Qed.



(** C4: on the vector path of a cold-start call, no returned movie is a
    seed.  The seeds are the caller's ids followed by the ids that the
    text search contributes; the vector path is the one taken when the
    index holds a vector for at least one seed.  Whenever the index and
    the metadata store answer, the call does return a list.  (When no
    seed has a vector the request is served by the criteria path, which
    does not look at the seeds and may hand a seed back.) *)
Theorem cold_start_excludes_seeds (svc : Service) (h : heap)
    (selected_movie_ids genres keywords : option loc) (query : option string)
    (search_service : option ContentSearchService) (top_k : Z)
    (v0 : vector) (vs : list vector) :
  let seeds := seed_ids h selected_movie_ids query search_service in
  let call := recommend_cold_start svc h selected_movie_ids genres keywords
                query search_service top_k in
  get_vectors_by_ids (vector_repo svc) seeds = Ok (v0 :: vs) →
  seeds ≠ [] ∧
  (∀ out, call.1.1 = Ok out → ∀ x, x ∈ out → item_id x ∉ seeds) ∧
  (∀ target results table,
     np_mean v0 vs = Ok target →
     search_similar (vector_repo svc) target (top_k * 2) = Ok results →
     connect (movie_repo svc) = Ok table →
     ∃ out, call.1.1 = Ok out).
Proof.
  intros seeds call Hv.
  assert (Hcall : call.1.1 =
            cold_start_strategies svc seeds (load_strs h <$> genres)
              (load_strs h <$> keywords) top_k).
  { unfold call, recommend_cold_start, seeds, seed_ids.
    by destruct (neural_search query search_service). }
  split; [|split].
  - intros E. rewrite E in Hv. discriminate.
  - intros out Hout. rewrite Hcall in Hout.
    by eapply cold_start_strategies_no_seed.
  - intros target results table Hm Hs Hc. rewrite Hcall.
    destruct (cold_start_strategies_by_vector_ok svc seeds (load_strs h <$> genres)
                (load_strs h <$> keywords) top_k v0 vs target results table Hv Hm Hs Hc)
      as (enriched & _ & ->).
    eauto.
Qed.

(** C4 on the sample service: the caller selects movie 3, the text
    search adds movie 1, and only movie 2 comes back. *)
Lemma cold_start_excludes_seeds_witness :
  seed_ids {[ 1%positive := IntList [3] ]} (Some 1%positive) (Some "space")
    (Some Sample.text_search) = [3; 1] ∧
  item_id <$> match (recommend_cold_start (Sample.service Sample.index)
                       {[ 1%positive := IntList [3] ]} (Some 1%positive) None None
                       (Some "space") (Some Sample.text_search) 5).1.1 with
              | Ok out => out
              | Raise _ => []
              end = [2] ∧
  ∀ out, (recommend_cold_start (Sample.service Sample.index)
            {[ 1%positive := IntList [3] ]} (Some 1%positive) None None
            (Some "space") (Some Sample.text_search) 5).1.1 = Ok out →
         ∀ x, x ∈ out →
           item_id x ∉ seed_ids {[ 1%positive := IntList [3] ]} (Some 1%positive)
                         (Some "space") (Some Sample.text_search).
Proof.
  split; [reflexivity|]. split; [vm_compute; reflexivity|].
  exact (proj1 (proj2 (cold_start_excludes_seeds (Sample.service Sample.index)
                  {[ 1%positive := IntList [3] ]} (Some 1%positive) None None
                  (Some "space") (Some Sample.text_search) 5
                  [1; 2]%float [[1; 2]%float] eq_refl))).
Defined.

(** When no seed has a vector the request is served by the criteria
    path, which does not look at the seeds: movie 1 is selected and
    comes back. *)
Example criteria_path_may_return_a_seed :
  item_id <$> match (recommend_cold_start (Sample.service Sample.vectorless_index)
                       {[ 1%positive := IntList [1]; 2%positive := StrList ["Action"] ]}
                       (Some 1%positive) (Some 2%positive) None None None 3).1.1 with
              | Ok out => out
              | Raise _ => []
              end = [1; 2; 3].
Proof. vm_compute. reflexivity. Qed.

(** C4 as the claim words it does not hold: the caller selects movie 1,
    which has no vector, and the genre Action; the request is served by
    the criteria path and movie 1 comes back. *)
Lemma seeds_never_returned_fails : ¬ seeds_never_returned.
Proof.
  intros H.
  apply (H Fixtures.guest_service Fixtures.selection (Some 1%positive)
           (Some 2%positive) None None None 10
           [RowDict (data_of_row (Sample.row 1 "Movie 1" "Action"))]
           ltac:(discriminate) ltac:(vm_compute; reflexivity)
           (RowDict (data_of_row (Sample.row 1 "Movie 1" "Action")))).
  - apply elem_of_cons. by left.
  - apply elem_of_cons. by left.
Qed.

(** C7: with an index that returns at most [limit] hits with distinct
    ids, and a bound [top_k] that is not negative, every list that the
    service returns has at most [top_k] entries and no repeated movie id:
    for known users (control and treatment, any state of the random
    source, including the fallback), for cold start by vector, by
    criteria and without any signal (which yields the empty list), and
    for the decorated [recommend_for_user] as the application runs it,
    without a cache client. *)
Theorem result_bounded_and_duplicate_free (svc : Service) (top_k : Z) :
  index_well_behaved (vector_repo svc) → 0 ≤ top_k →
  (∀ rand user_id ab_group,
     let out := (recommend_for_user_wrapped svc rand user_id top_k ab_group).1 in
     Z.of_nat (length out) ≤ top_k ∧ NoDup (item_id <$> out))
  ∧ (∀ h selected_movie_ids genres keywords query search_service out,
       (recommend_cold_start svc h selected_movie_ids genres keywords
          query search_service top_k).1.1 = Ok out →
       Z.of_nat (length out) ≤ top_k ∧ NoDup (item_id <$> out))
  ∧ (∀ h, (recommend_cold_start svc h None None None None None top_k).1.1 = Ok [])
  ∧ (∀ json_dumps json_loads self rand user_id ab_group lg,
       ∃ out lg',
         call_recommend_for_user json_dumps json_loads self svc rand
           user_id top_k ab_group (None, lg) = (Ok out, (None, lg')) ∧
         Z.of_nat (length out) ≤ top_k ∧ NoDup (item_id <$> out)).
Proof.
  intros Hidx Hk. split; [|split; [|split]].
  - intros rand user_id ab_group. by apply recommend_for_user_bounded.
  - intros h sel genres keywords query ss out.
    unfold recommend_cold_start. destruct (neural_search query ss) as [found lg].
    cbn [fst]. by apply cold_start_strategies_bounded.
  - intros h. by rewrite recommend_cold_start_no_signal.
  - intros json_dumps json_loads self rand user_id ab_group lg.
    pose proof (recommend_for_user_bounded svc rand user_id top_k ab_group Hidx Hk)
      as Hb.
    unfold call_recommend_for_user, recommend_for_user, Cache.cache_result,
      Cache.compute_and_store.
    cbn [fst].
    change (bind_arguments [self; VInt user_id]
              [("top_k", VInt top_k); ("ab_group", VStr ab_group)])
      with (Ok (user_id, top_k, ab_group)).
    cbv beta iota.
    destruct (recommend_for_user_wrapped svc rand user_id top_k ab_group)
      as [movies lg'].
    exists movies, (lg ++ lg'). split; [reflexivity | exact Hb].
Qed.

Lemma sample_index_well_behaved :
  index_well_behaved (vector_repo (Sample.service Sample.index)).
Proof.
  intros v limit hits [= <-]. split.
  - intros Hl. rewrite length_take. lia.
  - rewrite fmap_take. eapply NoDup_submseteq_inv; [apply submseteq_take|].
    apply (bool_decide_unpack _). vm_compute. exact I.
Qed.

(** C7 on the sample service with [top_k = 2]: treatment draws two of
    the four hits. *)
Lemma result_bounded_and_duplicate_free_witness :
  index_well_behaved (vector_repo (Sample.service Sample.index)) ∧
  0 ≤ 2 ∧
  item_id <$> (recommend_for_user_wrapped (Sample.service Sample.index)
                 (fun _ => 1%nat) 10 2 "treatment").1 = [1; 2] ∧
  Z.of_nat (length (recommend_for_user_wrapped (Sample.service Sample.index)
                      (fun _ => 1%nat) 10 2 "treatment").1) ≤ 2 ∧
  NoDup (item_id <$> (recommend_for_user_wrapped (Sample.service Sample.index)
                        (fun _ => 1%nat) 10 2 "treatment").1).
Proof.
  split; [exact sample_index_well_behaved|]. split; [lia|].
  split; [vm_compute; reflexivity|].
  exact (proj1 (result_bounded_and_duplicate_free (Sample.service Sample.index) 2
                  sample_index_well_behaved ltac:(lia)) (fun _ => 1%nat) 10 "treatment").
Defined.



End Strategies.

(* ===================================================================== *)
(** ** Further facts about the claims' code                                *)
(* ===================================================================== *)

Lemma experiment_group_values (user_id : value) :
  Features.get_user_experiment_group user_id = "control" ∨
  Features.get_user_experiment_group user_id = "treatment".
Proof.
  unfold Features.get_user_experiment_group.
  change (negb Features.FeatureFlags.ENABLE_AB_TESTING) with false. cbv iota.
  destruct (_ =? 0); [left|right]; reflexivity.
Qed.

(* ===================================================================== *)
(** ** More on the result cache                                            *)
(* ===================================================================== *)

Section CacheErrors.
Import Cache CacheAdmin.
Context {V S : Type}.
Variable json_dumps : V → result string.
Variable json_loads : string → result V.
Variables (key_prefix : string) (ttl_seconds : Z).
Variable func : list value → kwargs → S → result V * S.

(** X1: what the wrapper lets through.  Without a client the call is
    the call of the function, whatever its result (nothing is encoded).
    With a client and a miss: an exception of the function leaves the
    wrapper and nothing is stored; a result that [json.dumps] rejects
    makes the wrapper raise that error after the function has run, and
    nothing is stored.  An error of [GET] other than a connection or
    timeout error leaves the wrapper before the function runs; such an
    error of [SETEX] leaves it after the function has run. *)
Theorem wrapper_error_paths (args : list value) (kw : kwargs) (c : Redis) (s : S) :
  let wrapper := cache_result json_dumps json_loads key_prefix ttl_seconds func in
  let key := cache_key key_prefix args in
  wrapper args kw (None, s) = ((func args kw s).1, (None, (func args kw s).2))
  ∧ (∀ e s',
       get_fault c = None → kv c !! key = None → func args kw s = (Raise e, s') →
       wrapper args kw (Some c, s) = (Raise e, (Some c, s')))
  ∧ (∀ v e s',
       get_fault c = None → kv c !! key = None →
       func args kw s = (Ok v, s') → json_dumps v = Raise e →
       wrapper args kw (Some c, s) = (Raise e, (Some c, s')))
  ∧ (∀ e, get_fault c = Some e → caught e = false →
          wrapper args kw (Some c, s) = (Raise e, (Some c, s)))
  ∧ (∀ v e s' payload,
       get_fault c = None → kv c !! key = None →
       func args kw s = (Ok v, s') → json_dumps v = Ok payload →
       setex_fault c = Some e → caught e = false →
       wrapper args kw (Some c, s) = (Raise e, (Some c, s'))).
Proof.
  intros wrapper key. unfold wrapper, key, cache_result, compute_and_store, redis_get.
  cbn [fst]. split; [|split; [|split; [|split]]].
  - by destruct (func args kw s) as [[v|e] s'].
  - intros e s' Hg Hk Hf. by rewrite Hg, Hk, Hf.
  - intros v e s' Hg Hk Hf Hd. cbn [fmap option_fmap option_map].
    rewrite Hg, Hk. cbn [fmap option_fmap option_map]. by rewrite Hf, Hd.
  - intros e Hg He. by rewrite Hg, He.
  - intros v e s' payload Hg Hk Hf Hd Hs He.
    rewrite Hg, Hk. cbn [fmap option_fmap option_map]. rewrite Hf, Hd.
    unfold redis_setex. by rewrite Hs, He.
Qed.

(** X2: how long a stored result answers.  A miss on a healthy client
    stores the encoded result under the key for [ttl_seconds].  From
    then on, while the entry is in the store (any later state of the
    store that still holds it, and in particular every moment before
    the TTL has passed) each call whose first positional argument is the
    same is answered by decoding the stored payload, whatever its other
    arguments and without invoking the function.  Once the TTL has
    passed the entry is gone and the next such call invokes the function
    again and stores its new result. *)
Theorem second_call_is_a_hit (a : value) (rest : list value) (kw : kwargs)
    (c : Redis) (s s' : S) (v : V) (payload : string) :
  let wrapper := cache_result json_dumps json_loads key_prefix ttl_seconds func in
  let key := cache_key key_prefix (a :: rest) in
  let c1 := stored c key ttl_seconds payload in
  0 < ttl_seconds →
  get_fault c = None → setex_fault c = None →
  kv c !! key = None →
  func (a :: rest) kw s = (Ok v, s') → json_dumps v = Ok payload →
  wrapper (a :: rest) kw (Some c, s) = (Ok v, (Some c1, s'))
  ∧ (∀ c2 ttl2 rest' kw' s2,
       get_fault c2 = None → kv c2 !! key = Some (ttl2, payload) →
       wrapper (a :: rest') kw' (Some c2, s2) = (json_loads payload, (Some c2, s2)))
  ∧ (∀ seconds rest' kw' s2, 0 ≤ seconds < ttl_seconds →
       wrapper (a :: rest') kw' (Some (elapse seconds c1), s2) =
       (json_loads payload, (Some (elapse seconds c1), s2)))
  ∧ (∀ seconds rest' kw' s2 v2 s3 payload2, ttl_seconds ≤ seconds →
       func (a :: rest') kw' s2 = (Ok v2, s3) → json_dumps v2 = Ok payload2 →
       wrapper (a :: rest') kw' (Some (elapse seconds c1), s2) =
       (Ok v2, (Some (stored (elapse seconds c1) key ttl_seconds payload2), s3))).
Proof.
  intros wrapper key c1 Httl Hg Hs Hk Hf Hd. unfold wrapper.
  assert (Hkey : ∀ rest', cache_key key_prefix (a :: rest') = key) by done.
  assert (Hlook : ∀ seconds,
            kv (elapse seconds c1) !! key =
            if seconds <? ttl_seconds then Some (ttl_seconds - seconds, payload)
            else None).
  { intros seconds. unfold elapse, c1, stored. cbn [kv].
    rewrite lookup_omap, lookup_insert_eq. cbn [mbind option_bind fst snd].
    by destruct (seconds <? ttl_seconds). }
  split; [|split; [|split]].
  - by apply wrapper_miss.
  - intros c2 ttl2 rest' kw' s2 Hg2 Hk2.
    apply (wrapper_hit json_dumps json_loads key_prefix ttl_seconds func
             (a :: rest') kw' c2 s2 ttl2 payload); [done|]. by rewrite Hkey.
  - intros seconds rest' kw' s2 [H0 Hlt].
    apply (wrapper_hit json_dumps json_loads key_prefix ttl_seconds func
             (a :: rest') kw' _ s2 (ttl_seconds - seconds) payload); [done|].
    rewrite Hkey, Hlook. by rewrite (proj2 (Z.ltb_lt _ _) Hlt).
  - intros seconds rest' kw' s2 v2 s3 payload2 Hge Hf2 Hd2.
    change (stored (elapse seconds c1) key ttl_seconds payload2)
      with (stored (elapse seconds c1) (cache_key key_prefix (a :: rest'))
              ttl_seconds payload2).
    apply wrapper_miss; try done.
    rewrite Hkey, Hlook. by rewrite (proj2 (Z.ltb_ge _ _) Hge).
Qed.

End CacheErrors.

Section CacheErrorsWitnesses.
Import Cache CacheAdmin.

(** X1 on a function whose result cannot be encoded: the call counter
    goes to 1 and the wrapper raises [TypeError]. *)
Lemma wrapper_error_paths_witness :
  cache_result Fixtures.dumps_fail Sample.loads "rec" 300 Sample.counting [VInt 1] []
    (Some (Sample.redis ∅ None None), 0%nat)
  = (Raise TypeError, (Some (Sample.redis ∅ None None), 1%nat)).
Proof.
  apply (proj1 (proj2 (proj2 (wrapper_error_paths Fixtures.dumps_fail Sample.loads
                  "rec" 300 Sample.counting [VInt 1] []
                  (Sample.redis ∅ None None) 0%nat)))
           [2] TypeError 1%nat); reflexivity.
Defined.

(** X2 on a function that numbers its calls, with [json.dumps] and
    [json.loads] on lists of integers: a second call with one more
    argument, 299 seconds later, is answered with the first call's
    result, and the call counter stays at 1. *)
Lemma second_call_is_a_hit_witness :
  cache_result Fixtures.dumps_ints Fixtures.loads_ints "rec" 300 Fixtures.numbering
    [VInt 7; VInt 5] []
    (Some (elapse 299 (stored (Sample.redis ∅ None None) "rec:7" 300 "[1, 1]")), 1%nat)
  = (Ok [1; 1],
     (Some (elapse 299 (stored (Sample.redis ∅ None None) "rec:7" 300 "[1, 1]")), 1%nat)).
Proof.
  assert (Httl : 0 < 300) by lia.
  assert (Hin : 0 ≤ 299 < 300) by lia.
  exact (proj1 (proj2 (proj2
           (second_call_is_a_hit Fixtures.dumps_ints Fixtures.loads_ints "rec" 300
              Fixtures.numbering (VInt 7) [] [] (Sample.redis ∅ None None)
              0%nat 1%nat [1; 1] "[1, 1]"
              Httl eq_refl eq_refl eq_refl eq_refl eq_refl)))
           299 [VInt 5] [] 1%nat Hin).
Defined.

End CacheErrorsWitnesses.

Section CacheAdministration.
Import Cache CacheAdmin.

(** X3: [get_redis_client] connects lazily and at most once.  A client
    that is already installed is returned without touching the network.
    When the server does not answer the [ping] (connection or timeout
    error) the function returns [None] and leaves the global empty, so
    the next call tries again.  After a call that returned a client the
    global is set, and later calls return the same client.  When the
    [ping] fails with any other error, the error is raised but the global
    stays set to the unchecked client, which the next call hands out. *)
Theorem get_redis_client_is_lazy (net : Network) :
  port_parses net →
  (∀ c net', get_redis_client net' (Some c) = (Ok (Some c), Some c))
  ∧ (outage (ping_fault net) → get_redis_client net None = (Ok None, None))
  ∧ (∀ r g, get_redis_client net None = (Ok (Some r), g) →
            g = Some r ∧ ∀ net', get_redis_client net' g = (Ok (Some r), g))
  ∧ (∀ e, ping_fault net = Some e → caught e = false →
          get_redis_client net None = (Raise e, Some (server net)) ∧
          ∀ net', get_redis_client net' (get_redis_client net None).2
                  = (Ok (Some (server net)), Some (server net))).
Proof.
  intros [p Hp]. split; [|split; [|split]].
  - reflexivity.
  - intros (e & He & Hc). unfold get_redis_client. by rewrite Hp, He, Hc.
  - intros r g. unfold get_redis_client. rewrite Hp.
    destruct (ping_fault net) as [e|].
    + destruct (caught e); discriminate.
    + intros [= <- <-]. split; reflexivity.
  - intros e He Hc. unfold get_redis_client at 1 3. rewrite Hp, He, Hc.
    split; reflexivity.
Qed.

(** X3 on a server that answers [PING] with a [ResponseError]. *)
Lemma get_redis_client_is_lazy_witness :
  get_redis_client Fixtures.misconfigured None =
    (Raise ResponseError, Some (server Fixtures.misconfigured)) ∧
  ∀ net', get_redis_client net' (get_redis_client Fixtures.misconfigured None).2
          = (Ok (Some (server Fixtures.misconfigured)),
             Some (server Fixtures.misconfigured)).
Proof.
  assert (Hp : port_parses Fixtures.misconfigured) by (by exists 6379).
  exact (proj2 (proj2 (proj2 (get_redis_client_is_lazy Fixtures.misconfigured Hp)))
           ResponseError eq_refl eq_refl).
Defined.

Lemma invalidate_cache_with_client (net : Network) (c : Redis)
    (key_prefix : string) (key_id : value) :
  delete_fault net = None →
  ∃ c',
    invalidate_cache net (Some c) key_prefix key_id =
      (Ok (bool_decide (is_Some (kv c !! (key_prefix +:+ ":" +:+ str key_id)))),
       Some c') ∧
    kv c' !! (key_prefix +:+ ":" +:+ str key_id) = None ∧
    (∀ k, k ≠ key_prefix +:+ ":" +:+ str key_id → kv c' !! k = kv c !! k) ∧
    get_fault c' = get_fault c ∧ setex_fault c' = setex_fault c.
Proof.
  intros Hd. unfold invalidate_cache, get_redis_client, redis_delete. rewrite Hd.
  set (key := key_prefix +:+ ":" +:+ str key_id).
  eexists. split; [|split; [|split; [|split]]].
  - f_equal. f_equal. destruct (kv c !! key) as [x|] eqn:E.
    + symmetry. apply bool_decide_eq_true. by exists x.
    + symmetry. apply bool_decide_eq_false. intros [x Hx]. discriminate.
  - apply lookup_delete_eq.
  - intros k Hk. cbn [kv]. by apply lookup_delete_ne.
  - reflexivity.
  - reflexivity.
Qed.

(** X4: [invalidate_cache] never raises a connection or timeout error
    and tells whether an entry was removed.  Without a reachable server
    it returns [False].  With a client it returns [True] exactly when
    the key "<prefix>:<id>" was stored; afterwards that key is absent
    and every other entry is as before.  When the [DEL] fails with a
    connection or timeout error it returns [False] and the store is
    unchanged. *)
Theorem invalidate_cache_removes_one_key (net : Network) (c : Redis)
    (key_prefix : string) (key_id : value) :
  let key := key_prefix +:+ ":" +:+ str key_id in
  (port_parses net → outage (ping_fault net) →
   invalidate_cache net None key_prefix key_id = (Ok false, None))
  ∧ (delete_fault net = None →
     ∃ c',
       invalidate_cache net (Some c) key_prefix key_id =
         (Ok (bool_decide (is_Some (kv c !! key))), Some c') ∧
       kv c' !! key = None ∧
       (∀ k, k ≠ key → kv c' !! k = kv c !! k) ∧
       get_fault c' = get_fault c ∧ setex_fault c' = setex_fault c)
  ∧ (outage (delete_fault net) →
     invalidate_cache net (Some c) key_prefix key_id = (Ok false, Some c)).
Proof.
  intros key. split; [|split].
  - intros [p Hp] (e & He & Hc). unfold invalidate_cache, get_redis_client.
    by rewrite Hp, He, Hc.
  - intros Hd. by apply invalidate_cache_with_client.
  - intros (e & He & Hc). unfold invalidate_cache, get_redis_client, redis_delete.
    by rewrite He, Hc.
Qed.

(** X4 on the sample server: the entry of user 7 is removed. *)
Lemma invalidate_cache_removes_one_key_witness :
  ∃ c',
    invalidate_cache Fixtures.network (Some (server Fixtures.network)) "rec" (VInt 7) =
      (Ok (bool_decide (is_Some (kv (server Fixtures.network) !! "rec:7"))), Some c') ∧
    kv c' !! "rec:7" = None ∧
    (∀ k, k ≠ "rec:7" → kv c' !! k = kv (server Fixtures.network) !! k) ∧
    get_fault c' = get_fault (server Fixtures.network) ∧
    setex_fault c' = setex_fault (server Fixtures.network).
Proof.
  exact (proj1 (proj2 (invalidate_cache_removes_one_key Fixtures.network
                  (server Fixtures.network) "rec" (VInt 7))) eq_refl).
Defined.

Section Recompute.
Context {V S : Type}.
Variable json_dumps : V → result string.
Variable json_loads : string → result V.
Variable func : list value → kwargs → S → result V * S.

(** X5: invalidation forces a recomputation.  After
    [invalidate_cache(prefix, id)] on a healthy client, the next wrapped
    call of a function whose first argument is [id] misses: it invokes
    the function once and stores the new result under "<prefix>:<id>". *)
Theorem invalidate_then_call_recomputes (net : Network) (c : Redis)
    (key_prefix : string) (ttl_seconds : Z) (key_id : value)
    (rest : list value) (kw : kwargs) (s s' : S) (v : V) (payload : string) :
  delete_fault net = None → healthy c →
  func (key_id :: rest) kw s = (Ok v, s') → json_dumps v = Ok payload →
  ∃ c',
    (invalidate_cache net (Some c) key_prefix key_id).2 = Some c' ∧
    cache_result json_dumps json_loads key_prefix ttl_seconds func
      (key_id :: rest) kw (Some c', s) =
    (Ok v, (Some (stored c' (key_prefix +:+ ":" +:+ str key_id) ttl_seconds payload), s')).
Proof.
  intros Hd [Hg Hs] Hf Hj.
  destruct (invalidate_cache_with_client net c key_prefix key_id Hd)
    as (c' & Hi & Hk & _ & Hg' & Hs').
  exists c'. split; [by rewrite Hi|].
  apply (wrapper_miss json_dumps json_loads key_prefix ttl_seconds func
           (key_id :: rest) kw c' s s' v payload); try done; congruence.
Qed.

End Recompute.

(** X5 on the sample server: after the entry of user 7 was invalidated
    the counting function runs again. *)
Lemma invalidate_then_call_recomputes_witness :
  ∃ c',
    (invalidate_cache Fixtures.network (Some (server Fixtures.network))
       "rec" (VInt 7)).2 = Some c' ∧
    cache_result Sample.dumps Sample.loads "rec" 300 Sample.counting
      [VInt 7] [] (Some c', 0%nat) =
    (Ok [2], (Some (stored c' "rec:7" 300 "[2]"), 1%nat)).
Proof.
  assert (Hh : healthy (server Fixtures.network)) by (split; reflexivity).
  exact (invalidate_then_call_recomputes Sample.dumps Sample.loads Sample.counting
           Fixtures.network (server Fixtures.network) "rec" 300 (VInt 7) [] []
           0%nat 1%nat [2] "[2]" eq_refl Hh eq_refl eq_refl).
Defined.

End CacheAdministration.

Section CacheKeys.
Import Cache CacheAdmin.

Lemma pretty_N_go_no_bracket (x : N) (s s' : string) :
  s ≠ "<" +:+ s' → pretty_N_go x s ≠ "<" +:+ s'.
Proof.
  revert s. induction (N.lt_wf_0 x) as [x _ IH]; intros s Hs.
  assert (x = 0 ∨ 0 < x)%N as [->|Hx] by lia.
  - by rewrite pretty_N_go_0.
  - rewrite pretty_N_go_step by done. apply IH.
    { by apply N.div_lt. }
    unfold pretty_N_char. by repeat case_match.
Qed.

(** The decimal text of an integer is not the text of an instance. *)
Lemma str_int_is_no_object (n : Z) (cls : string) (addr : N) :
  str (VInt n) ≠ str (VObject cls addr).
Proof.
  cbn [str]. unfold pretty, pretty_Z.
  destruct n as [|p|p]; [done| |done].
  unfold pretty, pretty_positive, pretty, pretty_N.
  destruct (decide (N.pos p = 0%N)); [done|].
  by apply pretty_N_go_no_bracket.
Qed.

(** X6: invalidating by user id does not reach the entry of a decorated
    method.  A method called on an instance without [__str__] is cached
    under the text of the instance; [invalidate_cache(prefix, user_id)]
    deletes "<prefix>:<user_id>", and the method's entry is still
    there afterwards, whatever the id and the rest of the store. *)
Theorem invalidate_by_id_misses_method_entry (net : Network) (c : Redis)
    (key_prefix cls : string) (addr : N) (user_id : Z) (rest : list value)
    (entry : Z * string) :
  delete_fault net = None →
  kv c !! cache_key key_prefix (VObject cls addr :: VInt user_id :: rest) = Some entry →
  ∃ c',
    (invalidate_cache net (Some c) key_prefix (VInt user_id)).2 = Some c' ∧
    kv c' !! cache_key key_prefix (VObject cls addr :: VInt user_id :: rest) = Some entry.
Proof.
  intros Hd Hk.
  destruct (invalidate_cache_with_client net c key_prefix (VInt user_id) Hd)
    as (c' & Hi & _ & Hother & _).
  exists c'. split; [by rewrite Hi|]. rewrite Hother; [done|].
  unfold cache_key. intros H.
  apply (inj (String.append key_prefix)) in H.
  apply (inj (String.append ":")) in H.
  symmetry in H. by apply str_int_is_no_object in H.
Qed.

(** X6 on the shared service instance and user 7. *)
Lemma invalidate_by_id_misses_method_entry_witness :
  ∃ c',
    (invalidate_cache Fixtures.network (Some Fixtures.method_store) "rec" (VInt 7)).2
      = Some c' ∧
    kv c' !! cache_key "rec" [Sample.self; VInt 7] = Some (300, "[1]").
Proof.
  exact (invalidate_by_id_misses_method_entry Fixtures.network Fixtures.method_store
           "rec" "services.recommendation_service.RecommendationService" 140234
           7 [] (300, "[1]") eq_refl eq_refl).
Defined.

End CacheKeys.

(* ===================================================================== *)
(** ** Middlewares                                                         *)
(* ===================================================================== *)

Section Headers.
Import Middleware.

Lemma drop_header_get (name k : string) (h : headers) :
  List.find (fun p => String.eqb (fst p) k) (drop_header name h) =
  if String.eqb k name then None
  else List.find (fun p => String.eqb (fst p) k) h.
Proof.
  induction h as [|[n v] h IH]; simpl.
  - by destruct (String.eqb k name).
  - destruct (String.eqb n name) eqn:En; simpl.
    + apply String.eqb_eq in En. subst n. rewrite IH.
      destruct (String.eqb k name) eqn:Ek; [done|].
      rewrite String.eqb_sym in Ek. by rewrite Ek.
    + rewrite IH. destruct (String.eqb n k) eqn:Enk; [|done].
      apply String.eqb_eq in Enk. subst n.
      by rewrite En.
Qed.

Lemma set_header_get (name value k : string) (h : headers) :
  List.find (fun p => String.eqb (fst p) k) (set_header name value h) =
  if String.eqb k name then Some (name, value)
  else List.find (fun p => String.eqb (fst p) k) h.
Proof.
  induction h as [|[n v] h IH]; simpl.
  - rewrite (String.eqb_sym name k). by destruct (String.eqb k name).
  - destruct (String.eqb n name) eqn:En; simpl.
    + apply String.eqb_eq in En. subst n.
      rewrite (String.eqb_sym name k).
      destruct (String.eqb k name) eqn:Ek; [done|].
      rewrite drop_header_get. by rewrite Ek.
    + destruct (String.eqb n k) eqn:Enk.
      * apply String.eqb_eq in Enk. subst n. by rewrite En.
      * apply IH.
Qed.

(** Reading a header after writing one. *)
Lemma headers_get_set (h : headers) (key value k : string) :
  headers_get (headers_set h key value) k =
  if String.eqb (lower k) (lower key) then Some value else headers_get h k.
Proof.
  unfold headers_get, headers_set. rewrite set_header_get.
  by destruct (String.eqb (lower k) (lower key)).
Qed.

End Headers.

Section ABTesting.
Import Middleware Features.

(** X7: the A/B middleware tags the request and the response with one
    group.  The group is "control" for a request without a user id (no
    [X-User-ID] header, or an empty one) and the experiment group of the
    header text otherwise; it is always "control" or "treatment".  The
    endpoint is called once, with the group in the request scope and the
    headers untouched; its exception is passed on; its response comes
    back with the same status and body, the header [X-AB-Group] set to
    the group, and every other header readable as before. *)
Theorem ab_testing_tags_request_and_response {B : Type} (request : Request)
    (call_next : Request → result (Response B)) :
  ∃ group,
    (group = "control" ∨ group = "treatment")
    ∧ (headers_get (req_headers request) "X-User-ID" = None ∨
       headers_get (req_headers request) "X-User-ID" = Some "" →
       group = "control")
    ∧ (∀ uid, headers_get (req_headers request) "X-User-ID" = Some uid → uid ≠ "" →
              group = get_user_experiment_group (VStr uid))
    ∧ let tagged := {| method := method request; path := path request;
                       req_headers := req_headers request;
                       ab_group := Some group |} in
      (∀ e, call_next tagged = Raise e →
            (ab_testing_dispatch request call_next).1 = Raise e)
      ∧ (∀ response, call_next tagged = Ok response →
           ∃ r', (ab_testing_dispatch request call_next).1 = Ok r' ∧
                 status_code r' = status_code response ∧
                 body r' = body response ∧
                 headers_get (resp_headers r') "X-AB-Group" = Some group ∧
                 ∀ k, lower k ≠ "x-ab-group" →
                      headers_get (resp_headers r') k =
                      headers_get (resp_headers response) k).
Proof.
  unfold ab_testing_dispatch.
  destruct (headers_get (req_headers request) "X-User-ID") as [[|c s]|] eqn:Hu.
  1,3: exists "control"; split; [by left|]; split; [done|];
       split; [by intros uid [= <-] | ].
  3: exists (get_user_experiment_group (VStr (String c s))); split;
       [apply experiment_group_values|]; split;
       [by intros [|]|]; split; [by intros uid [= <-]|].
  all: cbv zeta; split;
    [ intros e He; by rewrite He
    | intros response Hr; rewrite Hr; cbn [fst]; eexists; split; [reflexivity|];
      cbn [status_code body resp_headers]; split; [done|]; split; [done|]; split;
      [ by rewrite headers_get_set
      | intros k Hk; rewrite headers_get_set;
        destruct (String.eqb (lower k) (lower "X-AB-Group")) eqn:E; [|done];
        apply String.eqb_eq in E; by destruct Hk ] ].
Qed.

End ABTesting.

Section ABTestingWitness.
Import Middleware Features.

(** X7 on a request of user 1: the endpoint sees the group that the
    response header names. *)
Lemma ab_testing_tags_request_and_response_witness :
  ∃ group r',
    group = get_user_experiment_group (VStr "1") ∧
    (ab_testing_dispatch Fixtures.request Fixtures.echo_group).1 = Ok r' ∧
    body r' = Some group ∧
    headers_get (resp_headers r') "X-AB-Group" = Some group.
Proof.
  destruct (ab_testing_tags_request_and_response Fixtures.request Fixtures.echo_group)
    as (group & _ & _ & Hg & _ & Hok).
  destruct (Hok _ eq_refl) as (r' & H1 & _ & Hb & Hh & _).
  exists group, r'. split; [apply Hg; [reflexivity | discriminate]|].
  split; [exact H1|]. split; [exact Hb | exact Hh].
Defined.

End ABTestingWitness.

Section RequestId.
Import Middleware.




End RequestId.

(* ===================================================================== *)
(** ** Request validation (schemas.py)                                     *)
(* ===================================================================== *)

Section Characters.
Import Schemas.

Ltac by_cases_on c :=
  destruct c as [[] [] [] [] [] [] [] []]; vm_compute; reflexivity.

Lemma cased_lower (c : ascii) :
  is_upper (lower_ascii c) || is_lower (lower_ascii c) = is_upper c || is_lower c.
Proof. by_cases_on c. Qed.

Lemma cased_upper (c : ascii) :
  is_upper (upper_ascii c) || is_lower (upper_ascii c) = is_upper c || is_lower c.
Proof. by_cases_on c. Qed.

Lemma upper_lower_ascii (c : ascii) : upper_ascii (lower_ascii c) = upper_ascii c.
Proof. by_cases_on c. Qed.

Lemma lower_upper_ascii (c : ascii) : lower_ascii (upper_ascii c) = lower_ascii c.
Proof. by_cases_on c. Qed.

Lemma upper_ascii_idemp (c : ascii) : upper_ascii (upper_ascii c) = upper_ascii c.
Proof. by_cases_on c. Qed.

Lemma space_not_cased (c : ascii) :
  is_space c = true → is_upper c || is_lower c = false.
Proof. destruct c as [[] [] [] [] [] [] [] []]; vm_compute; congruence. Qed.

Lemma space_lower (c : ascii) : is_space (lower_ascii c) = is_space c.
Proof. by_cases_on c. Qed.

Lemma space_upper (c : ascii) : is_space (upper_ascii c) = is_space c.
Proof. by_cases_on c. Qed.

Lemma uncased_lower (c : ascii) :
  is_upper c || is_lower c = false → lower_ascii c = c.
Proof. destruct c as [[] [] [] [] [] [] [] []]; vm_compute; congruence. Qed.

(** [title] reads its argument without regard to case. *)
Lemma title_go_lower (b : bool) (s : string) : title_go b (lower s) = title_go b s.
Proof.
  revert b. induction s as [|c s IH]; intros b; simpl; [done|].
  rewrite cased_lower. destruct (is_upper c || is_lower c) eqn:E.
  - rewrite IH. destruct b; by rewrite ?lower_ascii_idemp, ?upper_lower_ascii.
  - by rewrite IH, uncased_lower.
Qed.

(** [title] changes the case of characters only. *)
Lemma lower_title_go (b : bool) (s : string) : lower (title_go b s) = lower s.
Proof.
  revert b. induction s as [|c s IH]; intros b; simpl; [done|].
  destruct (is_upper c || is_lower c); simpl; rewrite IH; [|done].
  destruct b; by rewrite ?lower_ascii_idemp, ?lower_upper_ascii.
Qed.

Lemma title_go_idemp (b : bool) (s : string) :
  title_go b (title_go b s) = title_go b s.
Proof.
  revert b. induction s as [|c s IH]; intros b; simpl; [done|].
  destruct (is_upper c || is_lower c) eqn:E; simpl.
  - destruct b; rewrite ?cased_lower, ?cased_upper, E, IH;
      by rewrite ?lower_ascii_idemp, ?upper_ascii_idemp.
  - by rewrite E, IH.
Qed.

Lemma title_go_nonempty (b : bool) (s : string) :
  title_go b s = "" → s = "".
Proof. destruct s as [|c s]; simpl; [done|]. by destruct (is_upper c || is_lower c). Qed.

Lemma lstrip_title (s : string) : lstrip (title s) = title (lstrip s).
Proof.
  unfold title. induction s as [|c s IH]; [done|].
  cbn [lstrip title_go].
  destruct (is_space c) eqn:Es.
  - rewrite (space_not_cased c Es). cbn [lstrip]. by rewrite Es.
  - cbn [title_go]. destruct (is_upper c || is_lower c); cbn [lstrip].
    + by rewrite space_upper, Es.
    + by rewrite Es.
Qed.

Lemma rstrip_title_go (b : bool) (s : string) :
  rstrip (title_go b s) = title_go b (rstrip s).
Proof.
  revert b. induction s as [|c s IH]; intros b; [done|].
  cbn [title_go rstrip].
  destruct (is_upper c || is_lower c) eqn:E; cbn [rstrip]; rewrite IH.
  - destruct (rstrip s) as [|d r] eqn:Er.
    + cbn [title_go].
      assert (Es : is_space c = false).
      { destruct (is_space c) eqn:Es; [|done]. by rewrite (space_not_cased c Es) in E. }
      destruct b; rewrite ?space_lower, ?space_upper, Es; cbn [title_go]; by rewrite E.
    + destruct (title_go true (String d r)) eqn:Et.
      { by apply title_go_nonempty in Et. }
      cbn [title_go]. rewrite E. fold title_go. by rewrite <- Et.
  - destruct (rstrip s) as [|d r] eqn:Er.
    + cbn [title_go]. destruct (is_space c); cbn [title_go]; by rewrite ?E.
    + destruct (title_go false (String d r)) eqn:Et.
      { by apply title_go_nonempty in Et. }
      cbn [title_go]. rewrite E. fold title_go. by rewrite <- Et.
Qed.

Lemma strip_title (s : string) : strip (title s) = title (strip s).
Proof. unfold strip. rewrite lstrip_title. apply rstrip_title_go. Qed.

Lemma lstrip_idemp (s : string) : lstrip (lstrip s) = lstrip s.
Proof.
  induction s as [|c s IH]; simpl; [done|].
  destruct (is_space c) eqn:E; [done|]. simpl. by rewrite E.
Qed.

Lemma rstrip_idemp (s : string) : rstrip (rstrip s) = rstrip s.
Proof.
  induction s as [|c s IH]; [done|].
  cbn [rstrip]. destruct (rstrip s) as [|d r] eqn:Er.
  - destruct (is_space c) eqn:E; [done|]. cbn [rstrip]. by rewrite E.
  - change (rstrip (String c (String d r)))
      with (match rstrip (String d r) with
            | EmptyString => if is_space c then EmptyString else String c EmptyString
            | r' => String c r'
            end).
    by rewrite IH.
Qed.

(** Trailing white space does not hide leading white space. *)
Lemma lstrip_rstrip (s : string) : lstrip (rstrip s) = rstrip (lstrip s).
Proof.
  induction s as [|c s IH]; [done|].
  cbn [lstrip]. destruct (is_space c) eqn:E.
  - rewrite <- IH. cbn [rstrip]. destruct (rstrip s) as [|d r].
    + by rewrite E.
    + cbn [lstrip]. by rewrite E.
  - cbn [rstrip]. destruct (rstrip s) as [|d r].
    + rewrite E. cbn [lstrip]. by rewrite E.
    + cbn [lstrip]. by rewrite E.
Qed.

Lemma strip_idemp (s : string) : strip (strip s) = strip s.
Proof.
  unfold strip. by rewrite lstrip_rstrip, lstrip_idemp, rstrip_idemp.
Qed.

Lemma lower_strip (s : string) : lower (strip s) = strip (lower s).
Proof.
  unfold strip.
  assert (Hl : ∀ t, lower (lstrip t) = lstrip (lower t)).
  { induction t as [|c t IH]; simpl; [done|]. rewrite space_lower.
    by destruct (is_space c). }
  assert (Hr : ∀ t, lower (rstrip t) = rstrip (lower t)).
  { induction t as [|c t IH]; simpl; [done|]. rewrite <- IH, space_lower.
    destruct (rstrip t); simpl; [by destruct (is_space c)|done]. }
  by rewrite Hr, Hl.
Qed.

(** Lines 73-76 of schemas.py never fire: a string that reads "sci-fi"
    or "film-noir" without regard to case is already in that spelling
    after [title()]. *)
Lemma special_cases_are_title_case (s : string) :
  (lower (title s) = "sci-fi" → title s = "Sci-Fi") ∧
  (lower (title s) = "film-noir" → title s = "Film-Noir").
Proof.
  unfold title. rewrite lower_title_go, <- (title_go_lower false s).
  split; by intros ->.
Qed.

Lemma normalize_genre_title (g : string) : normalize_genre g = title (strip g).
Proof.
  unfold normalize_genre.
  destruct (special_cases_are_title_case (strip g)) as [H1 H2].
  destruct (String.eqb_spec (lower (title (strip g))) "sci-fi") as [E|_];
    [by rewrite H1|].
  destruct (String.eqb_spec (lower (title (strip g))) "film-noir") as [E|_];
    [by rewrite H2|done].
Qed.

Lemma normalize_genre_fixed (g : string) :
  normalize_genre (normalize_genre g) = normalize_genre g.
Proof.
  rewrite !normalize_genre_title, strip_title, strip_idemp.
  apply title_go_idemp.
Qed.

Lemma non_blank_strings (gs : list string) :
  omap non_blank (JStr <$> gs) = filter (fun g => strip g ≠ "") gs.
Proof.
  induction gs as [|g gs IH]; [done|].
  cbn [fmap list_fmap omap list_omap non_blank]. fold (omap non_blank (JStr <$> gs)).
  rewrite IH. destruct (strip g) eqn:E.
  - by rewrite filter_cons_False by (by rewrite E; intros []).
  - by rewrite filter_cons_True by (by rewrite E).
Qed.

Lemma non_blank_stripped (x : json) (g : string) :
  non_blank x = Some g → x = JStr g ∧ strip g ≠ "".
Proof.
  destruct x; try done. simpl. destruct (strip s) eqn:E; [done|].
  intros [= <-]. by rewrite E.
Qed.

Lemma filter_id {A} (P : A → Prop) `{∀ x, Decision (P x)} (l : list A) :
  Forall P l → filter P l = l.
Proof.
  induction 1 as [|x l Hx _ IH]; [done|]. by rewrite filter_cons_True, IH.
Qed.

Lemma fmap_fixed {A} (f : A → A) (l : list A) :
  (∀ x, x ∈ l → f x = x) → f <$> l = l.
Proof.
  induction l as [|a l IH]; intros H; [done|]. csimpl.
  rewrite H by (apply elem_of_cons; by left).
  f_equal. apply IH. intros x Hx. apply H. apply elem_of_cons. by right.
Qed.

Lemma truthy_iterate (v : json) (e : exn) :
  iterate v = Raise e →
  e = TypeError ∧ (v = JNull ∨ (∃ b, v = JBool b) ∨ (∃ n, v = JInt n) ∨ ∃ q, v = JFloat q).
Proof. destruct v; simpl; intros [=]; subst; naive_solver. Qed.

(** The validator on a list of strings. *)
Lemma normalize_genres_of_strings (gs : list string) :
  normalize_genres (JList (JStr <$> gs)) =
  Ok (normalize_genre <$> filter (fun g => strip g ≠ "") gs).
Proof.
  unfold normalize_genres. destruct gs as [|g gs]; [done|].
  replace (negb (json_truthy (JList (JStr <$> g :: gs)))) with false by done.
  cbn [iterate bind]. by rewrite non_blank_strings.
Qed.

Lemma clean_keywords_of_strings (kws : list string) :
  clean_keywords (JList (JStr <$> kws)) =
  Ok (strip <$> filter (fun kw => strip kw ≠ "") kws).
Proof.
  unfold clean_keywords. destruct kws as [|g gs]; [done|].
  replace (negb (json_truthy (JList (JStr <$> g :: gs)))) with false by done.
  cbn [iterate bind]. by rewrite non_blank_strings.
Qed.

End Characters.

Section Validators.
Import Schemas.

(** X9: [validate_top_k] answers 10 for [None] and otherwise clamps
    [int(v)] to the range 1..50: a value inside the range is kept, a
    smaller one becomes 1, a larger one 50.  Its result passes the
    validator unchanged.  It raises exactly when [int(v)] raises, with
    the same exception; a list or an object in place of the number is a
    [TypeError]. *)
Theorem validate_top_k_clamps (int_of_str : string → result Z) (v : json) :
  (v = JNull → validate_top_k int_of_str v = Ok 10)
  ∧ (∀ n, v ≠ JNull → py_int int_of_str v = Ok n →
       ∃ k, validate_top_k int_of_str v = Ok k ∧
            (1 ≤ n ≤ 50 → k = n) ∧ (n < 1 → k = 1) ∧ (50 < n → k = 50))
  ∧ (∀ e, v ≠ JNull → py_int int_of_str v = Raise e →
          validate_top_k int_of_str v = Raise e)
  ∧ (∀ e, validate_top_k int_of_str v = Raise e →
          v ≠ JNull ∧ py_int int_of_str v = Raise e)
  ∧ ((∃ items, v = JList items) ∨ (∃ fields, v = JObject fields) →
     validate_top_k int_of_str v = Raise TypeError)
  ∧ match validate_top_k int_of_str v with
    | Ok k =>
        1 ≤ k ≤ 50
        ∧ validate_top_k int_of_str (JInt k) = Ok k
        ∧ (v = JNull → k = 10)
        ∧ (∀ n, v ≠ JNull → py_int int_of_str v = Ok n →
                (1 ≤ n ≤ 50 → k = n) ∧ (n < 1 → k = 1) ∧ (50 < n → k = 50))
    | Raise e => v ≠ JNull ∧ py_int int_of_str v = Raise e
    end.
Proof.
  assert (Hclamp : ∀ n, 1 ≤ Z.max 1 (Z.min 50 n) ≤ 50) by (intros; lia).
  assert (Hfix : ∀ k, 1 ≤ k ≤ 50 → Z.max 1 (Z.min 50 k) = k) by (intros; lia).
  assert (Hgen : ∀ r, v ≠ JNull → py_int int_of_str v = r →
                      validate_top_k int_of_str v =
                      try n := r in Ok (Z.max 1 (Z.min 50 n))).
  { intros r Hv <-. by destruct v. }
  split; [by intros ->|]. split.
  { intros n Hv Hn. rewrite (Hgen _ Hv Hn). cbn [bind]. eexists.
    split; [reflexivity|]. lia. }
  split.
  { intros e Hv He. by rewrite (Hgen _ Hv He). }
  split.
  { intros e He.
    assert (Hv : v ≠ JNull) by (intros ->; discriminate).
    split; [done|]. rewrite (Hgen _ Hv eq_refl) in He.
    by destruct (py_int int_of_str v). }
  split.
  { by intros [[items ->]|[fields ->]]. }
  destruct v as [|b|n|q|s|items|fields]; cbn [validate_top_k].
  - repeat split; try done; lia.
  - cbn [py_int bind]. split; [apply Hclamp|]. split.
    { cbn [py_int bind]. by rewrite Hfix. }
    split; [done|]. intros n _ [= <-]. lia.
  - cbn [py_int bind]. split; [apply Hclamp|]. split.
    { by rewrite Hfix. }
    split; [done|]. intros ? _ [= <-]. lia.
  - cbn [py_int bind]. split; [apply Hclamp|]. split.
    { by rewrite Hfix. }
    split; [done|]. intros ? _ [= <-]. lia.
  - cbn [py_int]. destruct (int_of_str s) as [n|e]; cbn [bind]; [|done].
    split; [apply Hclamp|]. split.
    { cbn [py_int bind]. by rewrite Hfix. }
    split; [done|]. intros ? _ [= <-]. lia.
  - done.
  - done.
Qed.

(** X10: [clean_movie_ids] keeps, in their order, the items of the input
    that are integers above zero; [True] counts as one of them, being an
    [int] in Python.  Strings, floats and [None] among the items are
    dropped without an error.  The result passes the validator
    unchanged.  The validator raises [TypeError] only for a number or
    [True] in place of the list. *)
Theorem clean_movie_ids_keeps_positive_ints (v : json) :
  match clean_movie_ids v with
  | Ok ids =>
      (∀ x, x ∈ ids → x = JBool true ∨ ∃ n, x = JInt n ∧ 0 < n)
      ∧ clean_movie_ids (JList ids) = Ok ids
      ∧ (∀ items, v = JList items →
           sublist ids items ∧
           ∀ x, x ∈ items → is_positive_int x = true → x ∈ ids)
  | Raise e =>
      e = TypeError ∧ json_truthy v = true ∧
      ((∃ n, v = JInt n) ∨ v = JBool true ∨ ∃ q, v = JFloat q)
  end.
Proof.
  assert (Hpos : ∀ x, is_positive_int x = true →
                      x = JBool true ∨ ∃ n, x = JInt n ∧ 0 < n).
  { intros [|[]|n| | | |]; simpl; try done; [by left|].
    intros H. right. exists n. split; [done|]. by apply Z.ltb_lt. }
  assert (Hfilter : ∀ items,
             (∀ x, x ∈ List.filter is_positive_int items →
                   x = JBool true ∨ ∃ n, x = JInt n ∧ 0 < n)
             ∧ clean_movie_ids (JList (List.filter is_positive_int items)) =
               Ok (List.filter is_positive_int items)).
  { intros items. split.
    - intros x Hx. apply list_elem_of_In, filter_In in Hx as [_ Hx]. by apply Hpos.
    - unfold clean_movie_ids.
      destruct (negb (json_truthy (JList (List.filter is_positive_int items)))) eqn:E.
      + simpl in E. by destruct (List.filter is_positive_int items).
      + cbn [iterate bind]. f_equal.
        clear E. induction items as [|x items IH]; [done|]. simpl.
        destruct (is_positive_int x) eqn:Ex; [|done]. simpl. by rewrite Ex, IH. }
  unfold clean_movie_ids. destruct (negb (json_truthy v)) eqn:Et.
  - split; [by intros x Hx; apply elem_of_nil in Hx|]. split; [done|].
    intros items ->. destruct items; [|done]. split; [done|]. by intros x Hx.
  - destruct (iterate v) as [items|e] eqn:Ei; cbn [bind].
    + destruct (Hfilter items) as [H1 H2]. split; [done|]. split; [done|].
      intros items' ->. injection Ei as <-. split.
      * clear. induction items' as [|x l IH]; simpl; [done|].
        destruct (is_positive_int x); by constructor.
      * intros x Hx Hp. apply list_elem_of_In, filter_In. split; [|done].
        by apply list_elem_of_In.
    + apply negb_false_iff in Et.
      destruct (truthy_iterate v e Ei) as [-> Hv]. split; [done|]. split; [done|].
      destruct Hv as [->|[[b ->]|[[n ->]|[q ->]]]]; [done| |by left; eauto|by right; right; eauto].
      right; left. by destruct b.
Qed.

(** X11: [normalize_genres] keeps the strings of the input that are not
    blank, each stripped and put in title case; items that are no
    strings are dropped.  The special cases for "sci-fi" and
    "film-noir" change nothing: the output is [g.strip().title()] for
    every kept [g].  The output holds no blank string, and passes the
    validator unchanged.  [VALID_GENRES] is not consulted.  The
    validator raises [TypeError] only for a number or [True] in place of
    the list.  Stated for ASCII text, on which [strip] and [title] are
    Python's. *)
Theorem normalize_genres_is_title_case (v : json) :
  ascii_text v →
  match normalize_genres v with
  | Ok out =>
      (∀ g, g ∈ out → g ≠ "" ∧ strip g = g ∧ title g = g)
      ∧ normalize_genres (JList (JStr <$> out)) = Ok out
      ∧ (∀ gs : list string, v = JList (JStr <$> gs) →
           out = (fun g => title (strip g)) <$> filter (fun g => strip g ≠ "") gs)
      ∧ (∀ g, v = JStr g → strip g ≠ "" → out = [title (strip g)])
  | Raise e =>
      e = TypeError ∧ json_truthy v = true ∧
      ((∃ n, v = JInt n) ∨ v = JBool true ∨ ∃ q, v = JFloat q)
  end.
Proof.
  intros _.
  assert (Hout : ∀ (items : list json) g, g ∈ normalize_genre <$> omap non_blank items →
                            g ≠ "" ∧ strip g = g ∧ title g = g).
  { intros items g Hg. apply list_elem_of_fmap in Hg as (g0 & -> & Hg0).
    apply list_elem_of_omap in Hg0 as (x & _ & Hx).
    apply non_blank_stripped in Hx as [_ Hne].
    rewrite normalize_genre_title. split; [|split].
    - intros H. by apply title_go_nonempty in H.
    - by rewrite strip_title, strip_idemp.
    - apply title_go_idemp. }
  assert (Hfix : ∀ out, (∀ g, g ∈ out → g ≠ "" ∧ strip g = g ∧ title g = g) →
                        normalize_genres (JList (JStr <$> out)) = Ok out).
  { intros out H. unfold normalize_genres. destruct out as [|g out]; [done|].
    replace (negb (json_truthy (JList (JStr <$> g :: out)))) with false by done.
    cbn [iterate bind]. f_equal.
    rewrite non_blank_strings, filter_id.
    - apply fmap_fixed. intros x Hx. destruct (H x Hx) as (_ & H1 & H2).
      by rewrite normalize_genre_title, H1.
    - apply Forall_forall. intros x Hx. destruct (H x Hx) as (H0 & H1 & _).
      by rewrite H1. }
  assert (Hmap : ∀ l : list string, normalize_genre <$> l = (fun g => title (strip g)) <$> l).
  { intros l. apply list_fmap_ext. intros _ g _. apply normalize_genre_title. }
  unfold normalize_genres. destruct (negb (json_truthy v)) eqn:Et.
  - split; [by intros g Hg; apply elem_of_nil in Hg|]. split; [done|]. split.
    + intros gs ->. by destruct gs.
    + intros g -> Hg. simpl in Et. by destruct g.
  - destruct v as [|b|n|q|s|items|fields]; try done; cbn [iterate bind].
    + split; [done|]. split; [by destruct b|]. right; left. by destruct b.
    + split; [done|]. split; [by apply negb_false_iff in Et|]. left; eauto.
    + split; [done|]. split; [by apply negb_false_iff in Et|]. right; right; eauto.
    + split; [apply Hout|]. split; [apply Hfix, Hout|]. split; [done|].
      intros g [= <-] Hg. cbn [omap list_omap non_blank].
      destruct (strip s) eqn:E; [done|].
      simpl. by rewrite normalize_genre_title, E.
    + split; [apply Hout|]. split; [apply Hfix, Hout|]. split; [|done].
      intros gs [= ->]. by rewrite non_blank_strings, Hmap.
    + split; [apply Hout|]. split; [apply Hfix, Hout|]. by split.
Qed.

(** X11 on the genres [" sci-fi", 3, "FILM-noir ", "  "]: the output
    passes the validator unchanged. *)
Lemma normalize_genres_is_title_case_witness :
  ascii_text (JList [JStr " sci-fi"; JInt 3; JStr "FILM-noir "; JStr "  "]) ∧
  normalize_genres (JList [JStr " sci-fi"; JInt 3; JStr "FILM-noir "; JStr "  "])
    = Ok ["Sci-Fi"; "Film-Noir"] ∧
  normalize_genres (JList (JStr <$> ["Sci-Fi"; "Film-Noir"])) = Ok ["Sci-Fi"; "Film-Noir"].
Proof.
  assert (Ha : ascii_text (JList [JStr " sci-fi"; JInt 3; JStr "FILM-noir "; JStr "  "]))
    by (repeat constructor).
  split; [exact Ha|]. split; [reflexivity|].
  exact (proj1 (proj2
           (normalize_genres_is_title_case
              (JList [JStr " sci-fi"; JInt 3; JStr "FILM-noir "; JStr "  "]) Ha))).
Defined.

(** X12: [clean_keywords] keeps the strings of the input that are not
    blank, each stripped, in their order and in their own case; items
    that are no strings are dropped.  The output holds no blank string
    and passes the validator unchanged. *)
Theorem clean_keywords_strips (v : json) :
  match clean_keywords v with
  | Ok out =>
      (∀ kw, kw ∈ out → kw ≠ "" ∧ strip kw = kw)
      ∧ clean_keywords (JList (JStr <$> out)) = Ok out
      ∧ (∀ kws : list string, v = JList (JStr <$> kws) →
           out = strip <$> filter (fun kw => strip kw ≠ "") kws)
      ∧ (∀ kw, v = JStr kw → strip kw ≠ "" → out = [strip kw])
  | Raise e =>
      e = TypeError ∧ json_truthy v = true ∧
      ((∃ n, v = JInt n) ∨ v = JBool true ∨ ∃ q, v = JFloat q)
  end.
Proof.
  assert (Hout : ∀ (items : list json) kw, kw ∈ strip <$> omap non_blank items →
                            kw ≠ "" ∧ strip kw = kw).
  { intros items kw Hkw. apply list_elem_of_fmap in Hkw as (g0 & -> & Hg0).
    apply list_elem_of_omap in Hg0 as (x & _ & Hx).
    apply non_blank_stripped in Hx as [_ Hne]. split; [done|]. apply strip_idemp. }
  assert (Hfix : ∀ out, (∀ kw, kw ∈ out → kw ≠ "" ∧ strip kw = kw) →
                        clean_keywords (JList (JStr <$> out)) = Ok out).
  { intros out H. rewrite clean_keywords_of_strings. f_equal.
    rewrite filter_id.
    - apply fmap_fixed. intros x Hx. by destruct (H x Hx).
    - apply Forall_forall. intros x Hx. destruct (H x Hx) as (H0 & H1).
      by rewrite H1. }
  unfold clean_keywords. destruct (negb (json_truthy v)) eqn:Et.
  - split; [by intros g Hg; apply elem_of_nil in Hg|]. split; [done|]. split.
    + intros gs ->. by destruct gs.
    + intros g -> Hg. simpl in Et. by destruct g.
  - destruct v as [|b|n|q|s|items|fields]; try done; cbn [iterate bind].
    + split; [done|]. split; [by destruct b|]. right; left. by destruct b.
    + split; [done|]. split; [by apply negb_false_iff in Et|]. left; eauto.
    + split; [done|]. split; [by apply negb_false_iff in Et|]. right; right; eauto.
    + split; [apply Hout|]. split; [apply Hfix, Hout|]. split; [done|].
      intros g [= <-] Hg. cbn [omap list_omap non_blank].
      destruct (strip s) eqn:E; [done|]. simpl. by rewrite E.
    + split; [apply Hout|]. split; [apply Hfix, Hout|]. split; [|done].
      intros gs [= ->]. by rewrite non_blank_strings.
    + split; [apply Hout|]. split; [apply Hfix, Hout|]. by split.
Qed.

(** The validators on the body
    [{"genres": [" sci-fi", 3, "FILM-noir ", "  "],
      "selected_movie_ids": [1, true, -2, "3"], "top_k": 200}]. *)
Example validators_run :
  normalize_genres (JList [JStr " sci-fi"; JInt 3; JStr "FILM-noir "; JStr "  "])
    = Ok ["Sci-Fi"; "Film-Noir"]
  ∧ clean_keywords (JStr " Toy story ") = Ok ["Toy story"]
  ∧ clean_movie_ids (JList [JInt 1; JBool true; JInt (-2); JStr "3"])
    = Ok [JInt 1; JBool true]
  ∧ validate_top_k (fun _ => Raise ValueError) (JInt 200) = Ok 50
  ∧ title "they're here" = "They'Re Here".
Proof. repeat split; reflexivity. Qed.

End Validators.

Section ValidatedGenres.
Import Schemas RecommendationService.

(** X13: the genres of a validated request meet a movie's genres without
    regard to case and surrounding white space.  Ranking by the
    validator's output is ranking by the stripped genres of the request
    (title case is undone by the [lower()] of the ranking), and a movie
    shares a genre with the output exactly when one of its
    pipe-separated genres and one non-blank genre of the request are
    equal after [strip().lower()], that is, differ at most in the case
    of their letters once stripped.  Stated for ASCII genres, in the
    request and in the store. *)
Theorem validated_genres_match_ignoring_case (gs out : list string)
    (movies : list Movie) :
  Forall (fun g => isascii g = true) gs →
  Forall (fun m => isascii (Models.genres m) = true) movies →
  normalize_genres (JList (JStr <$> gs)) = Ok out →
  _rank_by_genre_similarity movies out =
    _rank_by_genre_similarity movies (strip <$> filter (fun g => strip g ≠ "") gs)
  ∧ ∀ m, isascii (Models.genres m) = true →
         (shares_genre out m ↔
          ∃ g gc, g ∈ gs ∧ strip g ≠ "" ∧ gc ∈ split "|" (Models.genres m) ∧
                  lower (strip gc) = lower (strip g))
         ∧ (shares_genre out m ↔
            ∃ g gc, g ∈ gs ∧ strip g ≠ "" ∧ gc ∈ split "|" (Models.genres m) ∧
                    same_ignoring_case (strip gc) (strip g) = true).
Proof.
  intros _ _. rewrite normalize_genres_of_strings. intros [= <-].
  set (kept := filter (fun g => strip g ≠ "") gs).
  assert (Hlower : lower <$> (normalize_genre <$> kept) = lower <$> (strip <$> kept)).
  { rewrite <- !list_fmap_compose. apply list_fmap_ext. intros _ g _. simpl.
    rewrite normalize_genre_title. apply lower_title_go. }
  split.
  - assert (Htarget : target_set (normalize_genre <$> kept) =
                      target_set (strip <$> kept))
      by (unfold target_set; by rewrite Hlower).
    destruct kept as [|g kept']; [done|].
    unfold _rank_by_genre_similarity. rewrite !fmap_cons. cbv beta iota.
    rewrite <- !fmap_cons. by rewrite Htarget.
  - intros m _.
    assert (Hshare : shares_genre (normalize_genre <$> kept) m ↔
              ∃ g gc, g ∈ gs ∧ strip g ≠ "" ∧ gc ∈ split "|" (Models.genres m) ∧
                      lower (strip gc) = lower (strip g)).
    { unfold shares_genre. split.
      + intros H. apply set_choose_L in H as [x Hx].
        apply shared_genres_spec in Hx as [(gc & Hgc & ->) (gt & Hgt & Hx)].
        apply list_elem_of_fmap in Hgt as (g & -> & Hg).
        apply list_elem_of_filter in Hg as [Hne Hg].
        exists g, gc. repeat split; try done.
        rewrite Hx, normalize_genre_title. apply lower_title_go.
      + intros (g & gc & Hg & Hne & Hgc & Heq).
        apply (non_empty_inhabited_L (lower (strip gc))).
        apply shared_genres_spec. split; [by exists gc|].
        exists (normalize_genre g). split.
        * apply list_elem_of_fmap. exists g. split; [done|].
          by apply list_elem_of_filter.
        * rewrite Heq, normalize_genre_title. symmetry. apply lower_title_go. }
    split; [exact Hshare|]. rewrite Hshare.
    split; intros (g & gc & Hg & Hne & Hgc & Heq); exists g, gc;
      (repeat split; try done); by apply same_ignoring_case_lower.
Qed.

(** X13 on the request genres [" drama "; ""] and one movie. *)
Lemma validated_genres_match_ignoring_case_witness :
  _rank_by_genre_similarity [Sample.movie 1 "Comedy|DRAMA" (1 # 2)] ["Drama"] =
    _rank_by_genre_similarity [Sample.movie 1 "Comedy|DRAMA" (1 # 2)]
      (strip <$> filter (fun g => strip g ≠ "") [" drama "; ""])
  ∧ shares_genre ["Drama"] (Sample.movie 1 "Comedy|DRAMA" (1 # 2)).
Proof.
  assert (Hgs : Forall (fun g => isascii g = true) [" drama "; ""])
    by (repeat constructor).
  assert (Hms : Forall (fun m => isascii (Models.genres m) = true)
                       [Sample.movie 1 "Comedy|DRAMA" (1 # 2)])
    by (repeat constructor).
  destruct (validated_genres_match_ignoring_case [" drama "; ""] ["Drama"]
              [Sample.movie 1 "Comedy|DRAMA" (1 # 2)] Hgs Hms eq_refl) as [H1 H2].
  split; [exact H1|].
  apply (proj2 (H2 (Sample.movie 1 "Comedy|DRAMA" (1 # 2)) eq_refl)).
  exists " drama ", "DRAMA". split; [apply elem_of_cons; by left|].
  split; [discriminate|]. split; [|reflexivity].
  apply elem_of_cons. right. apply elem_of_cons. by left.
Defined.

End ValidatedGenres.

(* ===================================================================== *)
(** ** Explanations (explanation_service.py)                               *)
(* ===================================================================== *)

Section Explanations.
Import ExplanationService.

Lemma append_assoc (a b c : string) : (a +:+ b) +:+ c = a +:+ (b +:+ c).
Proof.
  induction a as [|x a IH]; [done|].
  change (String x ((a +:+ b) +:+ c) = String x (a +:+ (b +:+ c))). by rewrite IH.
Qed.

Lemma main_genre_cases (request : ExplanationRequest) :
  (parsed_genres request = [] ∧ main_genre request = "movies") ∨
  (∃ rest, parsed_genres request = main_genre request :: rest).
Proof.
  unfold main_genre. destruct (parsed_genres request) as [|g rest]; [by left|].
  right. by exists rest.
Qed.

Lemma parsed_genres_stripped (request : ExplanationRequest) (g : string) :
  g ∈ parsed_genres request →
  g ≠ "" ∧ strip g = g ∧ ∃ raw, raw ∈ split "|" (movie_genres request) ∧ g = strip raw.
Proof.
  unfold parsed_genres. intros H. apply list_elem_of_In, filter_In in H as [H Hne].
  apply list_elem_of_In, list_elem_of_fmap in H as (raw & -> & Hraw).
  split; [|split].
  - intros E. by rewrite E in Hne.
  - apply strip_idemp.
  - by exists raw.
Qed.

(** X14: every explanation names the movie's main genre.  The main
    genre is the first pipe-separated genre that is not blank, stripped
    of white space, or "movies" when there is none.  Whatever the random
    draw, the text is one of the eight templates and contains the main
    genre; the method is always "heuristic"; user id and movie id do not
    enter the answer. *)
Theorem explanation_names_main_genre (rand : nat) (request : ExplanationRequest) :
  let response := generate_explanation rand request in
  method response = "heuristic"
  ∧ explanation response ∈ templates request
  ∧ mentions (main_genre request) (explanation response)
  ∧ (main_genre request = "movies" ∨
     (main_genre request ≠ "" ∧ strip (main_genre request) = main_genre request ∧
      ∃ raw, raw ∈ split "|" (movie_genres request) ∧
             main_genre request = strip raw))
  ∧ (∀ user_id' movie_id',
       generate_explanation rand
         {| user_id := user_id'; movie_id := movie_id';
            movie_title := movie_title request;
            movie_genres := movie_genres request |} = response).
Proof.
  intros response. split; [done|].
  assert (Hlen : length (templates request) = 8%nat) by done.
  assert (Hlt : (rand mod 8 < 8)%nat) by (apply Nat.mod_upper_bound; lia).
  split; [|split; [|split]].
  - unfold response, generate_explanation, random_choice. cbn [explanation].
    rewrite Hlen. apply list_elem_of_In, nth_In. by rewrite Hlen.
  - unfold response, generate_explanation, random_choice. cbn [explanation].
    rewrite Hlen. unfold templates.
    destruct (rand mod 8)%nat as [|[|[|[|[|[|[|[|n]]]]]]]]; [..|lia];
      cbn [nth]; try (eexists _, _; reflexivity).
    destruct (main_genre_cases request) as [[-> _]|[rest ->]];
      [eexists _, _; reflexivity|].
    destruct rest as [|g2 rest]; [eexists _, _; reflexivity|].
    exists "We thought you'd like this because it features elements of ",
           (", " +:+ g2 +:+ ".").
    cbn [length Nat.ltb Nat.leb firstn String.concat]. by rewrite append_assoc.
  - destruct (main_genre_cases request) as [[_ ->]|[rest Hp]]; [by left|].
    right. apply parsed_genres_stripped. rewrite Hp. apply elem_of_cons. by left.
  - done.
Qed.

End Explanations.

(* ===================================================================== *)
(** ** The repositories on their own                                       *)
(* ===================================================================== *)

Section Repositories.

Lemma connect_ok (db : Postgres) :
  connect_fault db = None → connect db = Ok (movies db).
Proof. unfold connect. by intros ->. Qed.

Lemma dict_get_is_Some {V} (k : Z) (d : pydict V) :
  is_Some (dict_get k d) ↔ k ∈ dict_keys d.
Proof.
  unfold dict_keys. induction d as [|[k0 v0] d IH]; simpl.
  - split; [by intros [? ?]|by intros ?%elem_of_nil].
  - rewrite elem_of_cons. simpl. destruct (Z.eqb_spec k k0) as [->|Hne].
    + split; [by left|by eexists].
    + rewrite IH. split; [by right|]. by intros [?|?].
Qed.

(** X15: [get_movies_by_ids] answers an empty id list with the empty
    dict without opening a connection.  Otherwise a failing connection
    raises, and a working one yields a dict whose keys are the requested
    ids that have a row; every value is built from a row of its key and
    carries the key as its "id". *)
Theorem get_movies_by_ids_contract (db : Postgres) (movie_ids : list Z) :
  get_movies_by_ids db [] = Ok []
  ∧ (∀ e, movie_ids ≠ [] → connect_fault db = Some e →
          get_movies_by_ids db movie_ids = Raise e)
  ∧ (connect_fault db = None →
     ∃ md, get_movies_by_ids db movie_ids = Ok md ∧
           NoDup (dict_keys md) ∧
           (∀ k, is_Some (dict_get k md) ↔
                 k ∈ movie_ids ∧ ∃ r, r ∈ movies db ∧ row_movie_id r = k) ∧
           (∀ k d, dict_get k md = Some d →
                   data_id d = k ∧
                   ∃ r, r ∈ movies db ∧ row_movie_id r = k ∧ d = data_of_row r)).
Proof.
  split; [done|]. split.
  - intros e Hne He. destruct movie_ids as [|i ids]; [done|].
    unfold get_movies_by_ids, connect. by rewrite He.
  - intros Hc. apply connect_ok in Hc.
    destruct (get_movies_by_ids_lookup db (movies db) movie_ids Hc) as (md & Hmd & Hl).
    exists md. split; [done|].
    destruct (get_movies_by_ids_keys db movie_ids md Hmd) as (Hnd & _ & _).
    split; [done|]. split.
    + intros k. specialize (Hl k). rewrite <- has_record_spec.
      destruct (dict_get k md) as [d|].
      * destruct Hl as (Hk & r & Hr & Hid & _). split; [|by eexists].
        intros _. split; [done|]. apply has_record_spec. eauto.
      * split; [by intros [? ?]|]. intros H. by destruct Hl.
    + intros k d Hd. specialize (Hl k). rewrite Hd in Hl.
      destruct Hl as (_ & r & Hr & Hid & ->). split; [done|]. eauto.
Qed.

(** The rows that satisfy one of the conditions of the query. *)
Lemma holds_some_condition (db : Postgres) (genres keywords : list string) (r : Row) :
  existsb (holds db r)
    (((fun g => GenresILike ("%" +:+ g +:+ "%")) <$> genres) ++
     ((fun kw => TitleILike ("%" +:+ kw +:+ "%")) <$> keywords)) = true ↔
  (∃ g, g ∈ genres ∧ ilike db (row_genres r) ("%" +:+ g +:+ "%") = true) ∨
  (∃ kw, kw ∈ keywords ∧ ilike db (row_title r) ("%" +:+ kw +:+ "%") = true).
Proof.
  rewrite existsb_app, orb_true_iff, !existsb_exists. split.
  - intros [(c & Hc & H)|(c & Hc & H)];
      apply list_elem_of_In, list_elem_of_fmap in Hc as (x & -> & Hx); eauto.
  - intros [(g & Hg & H)|(kw & Hkw & H)]; [left|right].
    + exists (GenresILike ("%" +:+ g +:+ "%")). split; [|done].
      apply list_elem_of_In, list_elem_of_fmap. eauto.
    + exists (TitleILike ("%" +:+ kw +:+ "%")). split; [|done].
      apply list_elem_of_In, list_elem_of_fmap. eauto.
Qed.

Lemma find_movies_by_criteria_rows (db : Postgres)
    (genres keywords : option (list string)) (limit : Z) (ids : list Z) :
  find_movies_by_criteria db genres keywords limit = Ok ids →
  ids = row_movie_id <$>
          take (Z.to_nat limit)
            (filter (fun r => Is_true (existsb (holds db r)
               (((fun g => GenresILike ("%" +:+ g +:+ "%")) <$> default [] genres) ++
                ((fun kw => TitleILike ("%" +:+ kw +:+ "%")) <$> default [] keywords))))
               (movies db)).
Proof.
  unfold find_movies_by_criteria.
  destruct (_ ++ _) as [|c cs] eqn:E.
  - intros [= <-]. cbn [existsb].
    replace (filter (fun _ : Row => Is_true false) (movies db)) with (@nil Row).
    + by rewrite take_nil.
    + induction (movies db) as [|r l IH]; [done|].
      by rewrite filter_cons_False by (by intros []).
  - unfold connect. destruct (connect_fault db); [done|]. cbn [bind].
    by intros [= <-].
Qed.

(** X16: [find_movies_by_criteria] returns the ids of the first [limit]
    rows, in table order, that match one of the genres (in [genres]) or
    one of the keywords (in [title]) under [ILIKE '%...%']; the
    conditions are joined by OR.  A matching row is left out only when
    the limit is reached.  Without any genre or keyword the answer is
    the empty list and no connection is opened. *)
Theorem find_movies_by_criteria_contract (db : Postgres)
    (genres keywords : option (list string)) (limit : Z) :
  let matches r :=
    (∃ g, g ∈ default [] genres ∧ ilike db (row_genres r) ("%" +:+ g +:+ "%") = true) ∨
    (∃ kw, kw ∈ default [] keywords ∧ ilike db (row_title r) ("%" +:+ kw +:+ "%") = true) in
  (default [] genres = [] → default [] keywords = [] →
   find_movies_by_criteria db genres keywords limit = Ok [])
  ∧ (∀ e, default [] genres ≠ [] ∨ default [] keywords ≠ [] →
          connect_fault db = Some e →
          find_movies_by_criteria db genres keywords limit = Raise e)
  ∧ (∀ ids, 0 ≤ limit → find_movies_by_criteria db genres keywords limit = Ok ids →
       Z.of_nat (length ids) ≤ limit
       ∧ ids `sublist_of` (row_movie_id <$> movies db)
       ∧ (∀ i, i ∈ ids → ∃ r, r ∈ movies db ∧ row_movie_id r = i ∧ matches r)
       ∧ (∀ r, r ∈ movies db → matches r →
               row_movie_id r ∈ ids ∨ Z.of_nat (length ids) = limit)).
Proof.
  intros matches. split; [|split].
  - unfold find_movies_by_criteria. by intros -> ->.
  - intros e Ht He. unfold find_movies_by_criteria, connect. rewrite He.
    destruct (default [] genres) as [|g gs]; [|done].
    destruct (default [] keywords) as [|k ks]; [|done]. by destruct Ht.
  - intros ids Hlim H.
    assert (Hmatch : ∀ r, Is_true (existsb (holds db r)
               (((fun g => GenresILike ("%" +:+ g +:+ "%")) <$> default [] genres) ++
                ((fun kw => TitleILike ("%" +:+ kw +:+ "%")) <$> default [] keywords)))
             ↔ matches r).
    { intros r. rewrite Is_true_true. apply holds_some_condition. }
    apply find_movies_by_criteria_rows in H as ->.
    set (rows := filter _ (movies db)).
    rewrite length_fmap, length_take. split; [lia|]. split.
    { apply fmap_sublist. etrans; [apply sublist_take|]. apply sublist_filter. }
    split.
    + intros i Hi. apply list_elem_of_fmap in Hi as (r & -> & Hr).
      assert (Hr' : r ∈ rows).
      { eapply sublist_subseteq; [apply sublist_take|done]. }
      apply list_elem_of_filter in Hr' as [Hm Hr']. exists r. split; [done|].
      split; [done|]. by apply Hmatch.
    + intros r Hr Hm.
      assert (Hin : r ∈ rows) by (apply list_elem_of_filter; split;
                                   [by apply Hmatch|done]).
      destruct (decide (length rows ≤ Z.to_nat limit)%nat) as [Hle|Hgt].
      * left. rewrite take_ge by done. apply list_elem_of_fmap. eauto.
      * right. lia.
Qed.

Lemma np_mean_length (v0 : vector) (vs : list vector) (c : vector) :
  np_mean v0 vs = Ok c →
  length c = length v0 ∧ Forall (fun v => length v = length v0) vs.
Proof.
  unfold np_mean.
  destruct (forallb (fun v => (length v =? length v0)%nat) vs) eqn:E; [|done].
  assert (Hall : Forall (fun v => length v = length v0) vs).
  { apply Forall_forall. intros v Hv.
    apply Nat.eqb_eq. eapply forallb_forall in E; [exact E|].
    by apply list_elem_of_In. }
  intros [= <-]. split; [|done].
  assert (Hr : rectangular (length v0) (v0 :: vs)) by (by constructor).
  destruct (np_mean_rectangular _ _ _ Hr) as (c' & Hc' & Hlen & _).
  unfold np_mean in Hc'. rewrite E in Hc'. injection Hc' as <-. exact Hlen.
Qed.

(** X17: [get_vectors_by_ids] does not contact the index for an empty id
    list.  Otherwise it returns, in the order of the points retrieved,
    the vectors of the points that have one; no returned vector is
    empty, and an error of the index is passed on.  The centroid of a
    non-empty answer, when numpy accepts the rows, is a non-empty vector
    of the rows' common dimension. *)
Theorem get_vectors_by_ids_contract (q : Qdrant) (movie_ids : list Z) :
  get_vectors_by_ids q [] = Ok []
  ∧ (∀ e, movie_ids ≠ [] → retrieve q movie_ids = Raise e →
          get_vectors_by_ids q movie_ids = Raise e)
  ∧ (∀ vectors, get_vectors_by_ids q movie_ids = Ok vectors →
       (∀ v, v ∈ vectors → v ≠ []) ∧
       (∀ points, movie_ids ≠ [] → retrieve q movie_ids = Ok points →
                  (Some <$> vectors) `sublist_of` points ∧
                  ∀ v, v ≠ [] → Some v ∈ points → v ∈ vectors) ∧
       (∀ c, vectors ≠ [] → compute_centroid vectors = Ok c →
             c ≠ [] ∧ Forall (fun v => length v = length c) vectors)).
Proof.
  split; [done|]. split.
  - intros e Hne He. destruct movie_ids as [|i ids]; [done|].
    unfold get_vectors_by_ids. by rewrite He.
  - intros vectors H.
    assert (Hnonempty : ∀ v, v ∈ vectors → v ≠ []).
    { destruct movie_ids as [|i ids]; [injection H as <-; by intros v ?%elem_of_nil|].
      unfold get_vectors_by_ids in H.
      destruct (retrieve q (i :: ids)) as [points|e]; [|done]. injection H as <-.
      intros v Hv. apply list_elem_of_omap in Hv as (p & _ & Hp).
      destruct p as [[|x xs]|]; try done. by injection Hp as <-. }
    split; [done|]. split.
    + intros points Hne Hp. destruct movie_ids as [|i ids]; [done|].
      unfold get_vectors_by_ids in H. rewrite Hp in H. injection H as <-. split.
      * clear. induction points as [|p points IH]; [done|].
        destruct p as [[|x xs]|]; csimpl; by constructor.
      * intros v Hv Hin. apply list_elem_of_omap. exists (Some v). split; [done|].
        by destruct v.
    + intros c Hne Hc. destruct vectors as [|v0 vs]; [done|].
      cbn [compute_centroid] in Hc. apply np_mean_length in Hc as [Hlen Hall].
      assert (Hv0 : v0 ≠ []) by (apply Hnonempty, elem_of_cons; by left).
      split.
      * intros ->. by destruct v0.
      * constructor; [done|]. eapply Forall_impl; [exact Hall|].
        intros v Hv. simpl in Hv. congruence.
Qed.

End Repositories.

(* ===================================================================== *)
(** ** More on the recommendation service                                  *)
(* ===================================================================== *)

Section UserVectors.
Import RecommendationService.

Lemma transform_lt (x : Z) (classes : list Z) :
  x ∈ classes → (transform x classes < length classes)%nat.
Proof.
  induction classes as [|c cs IH]; [by intros ?%elem_of_nil|].
  intros H. simpl. destruct (Z.eqb_spec x c) as [->|Hne]; [lia|].
  apply elem_of_cons in H as [?|H]; [done|]. apply IH in H. lia.
Qed.

(** X18: the users the service knows and the users it has a vector
    for.  Before the embeddings are loaded no user has a vector and the
    list of known users is empty.  A user outside [classes_] has no
    vector.  A vector that is returned is a row of the embedding matrix
    and belongs to a known user.  When the matrix has one row per class,
    every known user has a vector; a lookup can only fail with
    [IndexError], and only for a known user. *)
Theorem user_vectors_and_known_ids (self : Service) (user_id : Z) :
  (is_ready self = false →
   get_user_vector self user_id = Ok None ∧ get_known_user_ids self = [])
  ∧ (user_id ∉ get_known_user_ids self → get_user_vector self user_id = Ok None)
  ∧ (∀ v, get_user_vector self user_id = Ok (Some v) →
          is_ready self = true ∧ user_id ∈ get_known_user_ids self ∧
          ∃ embeddings, _user_embeddings self = Some embeddings ∧ v ∈ embeddings)
  ∧ (∀ embeddings, _user_embeddings self = Some embeddings →
          length embeddings = length (get_known_user_ids self) →
          user_id ∈ get_known_user_ids self →
          ∃ v, get_user_vector self user_id = Ok (Some v))
  ∧ (∀ e, get_user_vector self user_id = Raise e →
          e = IndexError ∧ user_id ∈ get_known_user_ids self).
Proof.
  unfold is_ready, get_user_vector, get_known_user_ids.
  destruct (_user_embeddings self) as [embeddings|], (_user_encoder self) as [classes|];
    try (split; [done|]; split; [done|]; split; [done|]; split; [|done];
         by intros ? _ _ ?%elem_of_nil).
  destruct (list_contains user_id classes) eqn:Ec; cbn [negb].
  - assert (Hin : user_id ∈ classes) by (by apply list_contains_spec, Is_true_true).
    split; [done|]. split; [done|]. split; [|split].
    + intros v. destruct (embeddings !! transform user_id classes) eqn:El; [|done].
      intros [= <-]. split; [done|]. split; [done|]. exists embeddings.
      split; [done|]. by eapply list_elem_of_lookup_2.
    + intros ? [= <-] Hlen _.
      destruct (lookup_lt_is_Some_2 embeddings (transform user_id classes)) as [v Hv].
      { rewrite Hlen. by apply transform_lt. }
      exists v. by rewrite Hv.
    + intros e. destruct (embeddings !! transform user_id classes); [done|].
      by intros [= <-].
  - assert (Hout : user_id ∉ classes).
    { intros H. apply list_contains_spec, Is_true_true in H. congruence. }
    repeat split; try done.
Qed.

End UserVectors.

Section Seeds.
Import RecommendationService SeedHelpers.

Lemma size_union_le (X Y : gset Z) : (size (X ∪ Y) ≤ size X + size Y)%nat.
Proof.
  rewrite size_union_alt.
  assert (size (Y ∖ X) ≤ size Y)%nat.
  { apply subseteq_size. intros x Hx. apply elem_of_difference in Hx. tauto. }
  lia.
Qed.

Lemma size_list_to_set_le (l : list Z) :
  (size (list_to_set l : gset Z) ≤ length l)%nat.
Proof.
  induction l as [|x l IH].
  - rewrite list_to_set_nil, size_empty. done.
  - rewrite list_to_set_cons. etrans; [apply size_union_le|].
    rewrite size_singleton. simpl. lia.
Qed.

Lemma find_movies_by_criteria_length (db : Postgres)
    (genres keywords : option (list string)) (limit : Z) (ids : list Z) :
  find_movies_by_criteria db genres keywords limit = Ok ids →
  (length ids ≤ Z.to_nat limit)%nat.
Proof.
  intros ->%find_movies_by_criteria_rows. rewrite length_fmap, length_take. lia.
Qed.

(** X19: [_get_seed_movie_ids] returns, without repetition, exactly the
    explicit ids together with the ids that the store matches to the
    genres or keywords; the store is asked for at most 50 matches, and
    only when a genre or a keyword is given.  The order of the list is
    that of a Python set and is left open.  An error of the store is
    passed on. *)
Theorem seed_ids_are_a_set (self : Service) (movie_ids : option (list Z))
    (genres keywords : option (list string)) :
  (truthy genres = false → truthy keywords = false →
   ∃ seeds, _get_seed_movie_ids self movie_ids genres keywords = Ok seeds ∧
            NoDup seeds ∧ ∀ x, x ∈ seeds ↔ x ∈ default [] movie_ids)
  ∧ (∀ matched, truthy genres || truthy keywords = true →
       find_movies_by_criteria (movie_repo self) genres keywords 50 = Ok matched →
       ∃ seeds, _get_seed_movie_ids self movie_ids genres keywords = Ok seeds ∧
                NoDup seeds ∧
                (∀ x, x ∈ seeds ↔ x ∈ default [] movie_ids ∨ x ∈ matched) ∧
                (length seeds ≤ length (default [] movie_ids) + 50)%nat)
  ∧ (∀ seeds, _get_seed_movie_ids self movie_ids genres keywords = Ok seeds →
       NoDup seeds ∧
       (∀ x, x ∈ default [] movie_ids → x ∈ seeds) ∧
       (∀ x, x ∈ seeds → x ∉ default [] movie_ids →
             ∃ matched,
               find_movies_by_criteria (movie_repo self) genres keywords 50 = Ok matched ∧
               x ∈ matched) ∧
       (length seeds ≤ length (default [] movie_ids) + 50)%nat)
  ∧ (∀ e, truthy genres || truthy keywords = true →
          find_movies_by_criteria (movie_repo self) genres keywords 50 = Raise e →
          _get_seed_movie_ids self movie_ids genres keywords = Raise e).
Proof.
  unfold _get_seed_movie_ids. split; [|split; [|split]].
  - intros -> ->. cbn [orb bind]. eexists. split; [reflexivity|].
    split; [apply NoDup_elements|]. intros x.
    by rewrite elem_of_elements, elem_of_list_to_set.
  - intros matched -> Ef. rewrite Ef. cbn [bind]. eexists. split; [reflexivity|].
    split; [apply NoDup_elements|]. split.
    + intros x. by rewrite elem_of_elements, elem_of_union, !elem_of_list_to_set.
    + change (length (elements ?X)) with (size X).
      etrans; [apply size_union_le|].
      pose proof (size_list_to_set_le (default [] movie_ids)).
      pose proof (size_list_to_set_le matched).
      apply find_movies_by_criteria_length in Ef. lia.
  - intros seeds. destruct (truthy genres || truthy keywords).
    + destruct (find_movies_by_criteria (movie_repo self) genres keywords 50)
        as [matched|e] eqn:Ef; [|done].
      cbn [bind]. intros [= <-]. split; [apply NoDup_elements|]. split; [|split].
      * intros x Hx. rewrite elem_of_elements, elem_of_union, elem_of_list_to_set.
        by left.
      * intros x Hx Hout. exists matched. split; [done|].
        rewrite elem_of_elements, elem_of_union, !elem_of_list_to_set in Hx.
        by destruct Hx.
      * change (length (elements ?X)) with (size X).
        etrans; [apply size_union_le|].
        pose proof (size_list_to_set_le (default [] movie_ids)).
        pose proof (size_list_to_set_le matched).
        apply find_movies_by_criteria_length in Ef. lia.
    + cbn [bind]. intros [= <-]. split; [apply NoDup_elements|]. split; [|split].
      * intros x Hx. by rewrite elem_of_elements, elem_of_list_to_set.
      * intros x Hx Hout. by rewrite elem_of_elements, elem_of_list_to_set in Hx.
      * change (length (elements ?X)) with (size X).
        pose proof (size_list_to_set_le (default [] movie_ids)). lia.
  - intros e -> ->. done.
Qed.

(** X20: [_find_similar_movies] asks the index for the neighbours of the
    centroid of the seeds' vectors and enriches them.  When no seed has
    a vector it returns the empty list without a search.  Otherwise the
    movies returned follow the order of the hits; with a well-behaved
    index they are at most [limit] and distinct. *)
Theorem find_similar_movies_contract (self : Service) (seed_ids : list Z) (limit : Z) :
  (get_vectors_by_ids (vector_repo self) seed_ids = Ok [] →
   _find_similar_movies self seed_ids limit = Ok [])
  ∧ (∀ movies v0 vs,
       get_vectors_by_ids (vector_repo self) seed_ids = Ok (v0 :: vs) →
       _find_similar_movies self seed_ids limit = Ok movies →
       ∃ centroid results,
         compute_centroid (v0 :: vs) = Ok centroid ∧
         search_similar (vector_repo self) centroid limit = Ok results ∧
         (Models.id <$> movies) `sublist_of` (movie_id <$> results) ∧
         (index_well_behaved (vector_repo self) → 0 ≤ limit →
          Z.of_nat (length movies) ≤ limit ∧ NoDup (Models.id <$> movies))).
Proof.
  unfold _find_similar_movies. split.
  - by intros ->.
  - intros movies v0 vs ->. cbn [bind].
    destruct (compute_centroid (v0 :: vs)) as [centroid|e] eqn:Ec; [|done].
    cbn [bind].
    destruct (search_similar (vector_repo self) centroid limit) as [results|e] eqn:Es;
      [|done].
    cbn [bind]. intros He. exists centroid, results.
    split; [done|]. split; [done|].
    pose proof (enrich_movies_sublist _ _ _ _ He) as Hsub. split; [done|].
    intros Hidx Hlim. destruct (Hidx _ _ _ Es) as [Hlen Hnd]. split.
    + apply sublist_length in Hsub. rewrite !length_fmap in Hsub.
      specialize (Hlen Hlim). lia.
    + eapply sublist_NoDup; [exact Hnd|done].
Qed.

End Seeds.

Section Variants.
Import RecommendationService.

Lemma hit_scores (hits : list Candidate) (k : Z) :
  k ∈ movie_id <$> hits →
  ∃ h, h ∈ hits ∧ movie_id h = k ∧
       dict_get k (dict_comp movie_id VectorRepository.score hits) =
       Some (VectorRepository.score h).
Proof.
  intros Hk. rewrite dict_comp_get.
  destruct (List.find (fun x => movie_id x =? k) (rev hits)) as [h|] eqn:Ef.
  - apply find_some in Ef as [Hin Heq]. apply Z.eqb_eq in Heq.
    exists h. split; [|done]. apply list_elem_of_In. by apply in_rev.
  - exfalso. apply list_elem_of_fmap in Hk as (h & -> & Hh).
    apply list_elem_of_In, in_rev in Hh.
    apply (find_none _ _ Ef) in Hh. by rewrite Z.eqb_refl in Hh.
Qed.

Lemma enriched_from_hits (svc : Service) (table : list Row) (hits : list Candidate) :
  connect (movie_repo svc) = Ok table →
  ∃ movies,
    _enrich_movies svc (movie_id <$> hits)
      (dict_comp movie_id VectorRepository.score hits) = Ok movies ∧
    Models.id <$> movies =
      filter (fun mid => Is_true (has_record table mid)) (movie_id <$> hits) ∧
    Forall (fun m => ∃ h, h ∈ hits ∧ movie_id h = Models.id m ∧
                          Models.score m = VectorRepository.score h) movies.
Proof.
  intros Hc.
  destruct (enrich_movies_spec svc table (movie_id <$> hits)
              (dict_comp movie_id VectorRepository.score hits) Hc)
    as (movies & He & Hid & Hall).
  exists movies. split; [done|]. split; [done|].
  apply Forall_forall. intros m Hm.
  assert (Hin : Models.id m ∈ movie_id <$> hits).
  { assert (H : Models.id m ∈ Models.id <$> movies)
      by (apply list_elem_of_fmap; eauto).
    rewrite Hid in H. by apply list_elem_of_filter in H as [_ H]. }
  rewrite Forall_forall in Hall. destruct (Hall m Hm) as (r & _ & ->).
  cbn [make_movie Models.id Models.score data_of_row data_id] in *.
  destruct (hit_scores hits _ Hin) as (h & Hh & Hk & Hs).
  exists h. split; [done|]. split; [done|]. by rewrite Hs.
Qed.

(** X21: outside the treatment group a known user gets the hits of the
    index in the index's order: the ids returned are the ids of the
    [top_k] hits that have a record, each movie carries the score of a
    hit of its id, nothing is logged and the random source is not
    consulted.  Every group name other than "treatment" is served like
    "control". *)
Theorem control_keeps_index_order (svc : Service) (user_id top_k : Z)
    (ab_group : string) (user_vector : vector) (hits : list Candidate)
    (table : list Row) :
  get_user_vector svc user_id = Ok (Some user_vector) →
  ab_group ≠ "treatment" →
  search_similar (vector_repo svc) user_vector top_k = Ok hits →
  connect (movie_repo svc) = Ok table →
  ∃ movies,
    (∀ rand, recommend_for_user_wrapped svc rand user_id top_k ab_group =
             (MovieObj <$> movies, [])) ∧
    Models.id <$> movies =
      filter (fun mid => Is_true (has_record table mid)) (movie_id <$> hits) ∧
    Forall (fun m => ∃ h, h ∈ hits ∧ movie_id h = Models.id m ∧
                          Models.score m = VectorRepository.score h) movies.
Proof.
  intros Hv Hg Hs Hc.
  destruct (enriched_from_hits svc table hits Hc) as (movies & He & Hid & Hall).
  exists movies. split; [|by split].
  intros rand. rewrite (recommend_for_user_with_vector _ _ _ _ _ _ Hv).
  apply String.eqb_neq in Hg. rewrite Hg. rewrite Hs. cbn [bind andb].
  by rewrite He.
Qed.

(** X22: in the treatment group the index is asked for [2 * top_k] hits.
    When it returns more than [top_k], exactly [top_k] of them are drawn
    by [random.sample] and served in the order drawn; otherwise all of
    them are served in the index's order.  The movies returned are the
    drawn hits that have a record, and the only log record is the debug
    line of the variant. *)
Theorem treatment_samples_hits (svc : Service) (rand : nat → nat)
    (user_id top_k : Z) (user_vector : vector) (hits : list Candidate)
    (table : list Row) :
  get_user_vector svc user_id = Ok (Some user_vector) →
  0 ≤ top_k →
  search_similar (vector_repo svc) user_vector (top_k * 2) = Ok hits →
  connect (movie_repo svc) = Ok table →
  ∃ picked movies,
    recommend_for_user_wrapped svc rand user_id top_k "treatment" =
      (MovieObj <$> movies, [DebugVariantB user_id]) ∧
    picked ⊆+ hits ∧
    (Z.of_nat (length hits) ≤ top_k → picked = hits) ∧
    (top_k < Z.of_nat (length hits) → Z.of_nat (length picked) = top_k) ∧
    Models.id <$> movies =
      filter (fun mid => Is_true (has_record table mid)) (movie_id <$> picked) ∧
    Forall (fun m => ∃ h, h ∈ picked ∧ movie_id h = Models.id m ∧
                          Models.score m = VectorRepository.score h) movies.
Proof.
  intros Hv Hk Hs Hc.
  rewrite (recommend_for_user_with_vector _ _ _ _ _ _ Hv).
  change (String.eqb "treatment" "treatment") with true. cbv beta iota zeta.
  rewrite Hs. cbn [bind andb].
  destruct (top_k <? Z.of_nat (length hits)) eqn:El.
  - apply Z.ltb_lt in El.
    destruct (random_sample rand hits top_k) as [picked|e] eqn:Er.
    + destruct (random_sample_spec _ _ _ _ Er) as [Hlen Hsub].
      destruct (enriched_from_hits svc table picked Hc) as (movies & He & Hid & Hall).
      exists picked, movies. cbn [bind]. rewrite He. cbn [bind].
      split; [done|]. split; [done|]. split; [lia|]. by split.
    + exfalso. unfold random_sample in Er.
      destruct (top_k <? 0) eqn:E1; [lia|].
      destruct (Z.of_nat (length hits) <? top_k) eqn:E2; [lia|]. done.
  - apply Z.ltb_ge in El.
    destruct (enriched_from_hits svc table hits Hc) as (movies & He & Hid & Hall).
    exists hits, movies. cbn [bind]. rewrite He. cbn [bind].
    split; [done|]. split; [done|]. split; [done|]. split; [lia|]. by split.
Qed.

End Variants.

Section VariantsWitnesses.
Import RecommendationService.

(** X21 on user 10 of the sample service, two recommendations. *)
Lemma control_keeps_index_order_witness :
  ∃ movies,
    (∀ rand, recommend_for_user_wrapped (Sample.service Sample.index) rand 10 2 "control"
             = (MovieObj <$> movies, [])) ∧
    Models.id <$> movies =
      filter (fun mid => Is_true (has_record Sample.table mid))
             (movie_id <$> take 2 Sample.hits) ∧
    Forall (fun m => ∃ h, h ∈ take 2 Sample.hits ∧ movie_id h = Models.id m ∧
                          Models.score m = VectorRepository.score h) movies.
Proof.
  apply (control_keeps_index_order (Sample.service Sample.index) 10 2 "control"
           [1]%float (take 2 Sample.hits) Sample.table);
    [reflexivity | discriminate | reflexivity | reflexivity].
Defined.

(** X22 on user 10 of the sample service: one of two hits is drawn. *)
Lemma treatment_samples_hits_witness :
  ∃ picked movies,
    recommend_for_user_wrapped (Sample.service Sample.index) (fun _ => 1%nat) 10 1
      "treatment" = (MovieObj <$> movies, [DebugVariantB 10]) ∧
    picked ⊆+ take 2 Sample.hits ∧
    (Z.of_nat (length (take 2 Sample.hits)) ≤ 1 → picked = take 2 Sample.hits) ∧
    (1 < Z.of_nat (length (take 2 Sample.hits)) → Z.of_nat (length picked) = 1) ∧
    Models.id <$> movies =
      filter (fun mid => Is_true (has_record Sample.table mid)) (movie_id <$> picked) ∧
    Forall (fun m => ∃ h, h ∈ picked ∧ movie_id h = Models.id m ∧
                          Models.score m = VectorRepository.score h) movies.
Proof.
  apply (treatment_samples_hits (Sample.service Sample.index) (fun _ => 1%nat) 10 1
           [1]%float (take 2 Sample.hits) Sample.table);
    [reflexivity | lia | reflexivity | reflexivity].
Defined.

End VariantsWitnesses.

Section ColdStartPaths.
Import RecommendationService SearchService.

(** X23: a text search that fails, or that cannot run, leaves the
    request as it was.  When [search] raises, the error is logged and
    the answer is the answer of the same call without a query, with the
    caller's list untouched.  An empty query and a missing search
    service skip the search altogether. *)
Theorem text_search_failure_is_swallowed (svc : Service) (h : heap)
    (selected_movie_ids genres keywords : option loc) (query : string)
    (s : ContentSearchService) (top_k : Z) :
  let plain := recommend_cold_start svc h selected_movie_ids genres keywords
                 None None top_k in
  (∀ e, query ≠ "" → search s query 5 = Raise e →
        recommend_cold_start svc h selected_movie_ids genres keywords
          (Some query) (Some s) top_k =
        (plain.1.1, h, [InfoNeuralSearch query; ErrorNeuralFailed e]))
  ∧ plain.1.2 = h ∧ plain.2 = []
  ∧ recommend_cold_start svc h selected_movie_ids genres keywords
      (Some "") (Some s) top_k = plain
  ∧ recommend_cold_start svc h selected_movie_ids genres keywords
      (Some query) None top_k = plain.
Proof.
  intros plain. unfold plain, recommend_cold_start, neural_search.
  split; [|split; [|split; [|split]]].
  - intros e Hq He. destruct query as [|c q]; [done|]. rewrite He.
    cbn [default fst snd]. rewrite app_nil_r. by destruct selected_movie_ids.
  - by destruct selected_movie_ids.
  - done.
  - done.
  - by destruct query.
Qed.

(** X24: keywords play no part once a seed has a vector.  When the
    index holds a vector for one of the seed ids (the caller's ids and
    those of the text search), the answer, the heap and the log are the
    same with and without keywords: title matching is used only on the
    criteria path. *)
Theorem keywords_ignored_on_vector_path (svc : Service) (h : heap)
    (selected_movie_ids genres keywords : option loc) (query : option string)
    (search_service : option ContentSearchService) (top_k : Z)
    (v0 : vector) (vs : list vector) :
  get_vectors_by_ids (vector_repo svc)
    (seed_ids h selected_movie_ids query search_service) = Ok (v0 :: vs) →
  recommend_cold_start svc h selected_movie_ids genres keywords query
    search_service top_k =
  recommend_cold_start svc h selected_movie_ids genres None query
    search_service top_k.
Proof.
  unfold seed_ids, recommend_cold_start.
  destruct (neural_search query search_service) as [found lg]. cbn [fst].
  intros Hv. f_equal. f_equal. unfold cold_start_strategies.
  rewrite selected_vectors_eq, Hv. reflexivity.
Qed.

(** X24 on the sample index, which has a vector for the seed 3. *)
Lemma keywords_ignored_on_vector_path_witness :
  recommend_cold_start (Sample.service Sample.index) Fixtures.lists
    (Some 1%positive) (Some 2%positive) (Some 3%positive) None None 2 =
  recommend_cold_start (Sample.service Sample.index) Fixtures.lists
    (Some 1%positive) (Some 2%positive) None None None 2.
Proof.
  apply (keywords_ignored_on_vector_path (Sample.service Sample.index) Fixtures.lists
           (Some 1%positive) (Some 2%positive) (Some 3%positive) None None 2
           [1; 2]%float []).
  reflexivity.
Defined.

End ColdStartPaths.

Section CriteriaPath.
Import RecommendationService SearchService.

Lemma find_movies_by_criteria_matches (db : Postgres)
    (genres keywords : option (list string)) (limit : Z) (ids : list Z) (i : Z) :
  find_movies_by_criteria db genres keywords limit = Ok ids → i ∈ ids →
  ∃ r, r ∈ movies db ∧ row_movie_id r = i ∧
       ((∃ g, g ∈ default [] genres ∧
              ilike db (row_genres r) ("%" +:+ g +:+ "%") = true) ∨
        (∃ kw, kw ∈ default [] keywords ∧
               ilike db (row_title r) ("%" +:+ kw +:+ "%") = true)).
Proof.
  intros ->%find_movies_by_criteria_rows Hi.
  apply list_elem_of_fmap in Hi as (r & -> & Hr).
  apply (sublist_subseteq _ _ (sublist_take _ _)) in Hr.
  apply list_elem_of_filter in Hr as [Hm Hr]. exists r. split; [done|].
  split; [done|]. by apply holds_some_condition, Is_true_true.
Qed.

Lemma dict_values_get {V} (d : pydict V) (v : V) :
  NoDup (dict_keys d) → v ∈ dict_values d → ∃ k, dict_get k d = Some v.
Proof.
  unfold dict_keys, dict_values. induction d as [|[k0 v0] d IH]; csimpl.
  - by intros _ ?%elem_of_nil.
  - intros [Hk0 Hnd]%NoDup_cons [->|Hv]%elem_of_cons.
    + exists k0. by rewrite Z.eqb_refl.
    + destruct (IH Hnd Hv) as (k & Hk). exists k.
      destruct (Z.eqb_spec k k0) as [->|_]; [|done].
      exfalso. apply Hk0. apply list_elem_of_fmap.
      assert (His : is_Some (dict_get k0 d)) by eauto.
      apply dict_get_is_Some in His. unfold dict_keys in His.
      by apply list_elem_of_fmap in His.
Qed.

(** X25: the criteria path.  When no seed id has a vector, the request
    is answered from the metadata store alone: every item is the row
    dict of a stored movie whose id is the id of a row that matches one
    of the genres or one of the keywords; without genres and keywords
    the answer is empty.  The items carry no similarity score. *)
Theorem criteria_path_returns_matching_rows (svc : Service) (h : heap)
    (selected_movie_ids genres keywords : option loc) (query : option string)
    (search_service : option ContentSearchService) (top_k : Z) (out : list item) :
  let db := movie_repo svc in
  let matches r :=
    (∃ g, g ∈ default [] (load_strs h <$> genres) ∧
          ilike db (row_genres r) ("%" +:+ g +:+ "%") = true) ∨
    (∃ kw, kw ∈ default [] (load_strs h <$> keywords) ∧
           ilike db (row_title r) ("%" +:+ kw +:+ "%") = true) in
  get_vectors_by_ids (vector_repo svc)
    (seed_ids h selected_movie_ids query search_service) = Ok [] →
  (recommend_cold_start svc h selected_movie_ids genres keywords query
     search_service top_k).1.1 = Ok out →
  (default [] (load_strs h <$> genres) = [] →
   default [] (load_strs h <$> keywords) = [] → out = [])
  ∧ ∀ x, x ∈ out →
         ∃ r r', r ∈ movies db ∧ x = RowDict (data_of_row r) ∧
                 r' ∈ movies db ∧ row_movie_id r' = row_movie_id r ∧ matches r'.
Proof.
  intros db matches. unfold seed_ids, recommend_cold_start.
  destruct (neural_search query search_service) as [found lg]. cbn [fst snd].
  intros Hv. unfold cold_start_strategies. rewrite selected_vectors_eq, Hv.
  cbn [bind]. set (gs := load_strs h <$> genres). set (kws := load_strs h <$> keywords).
  fold db. intros H. split.
  - intros Hg Hk.
    assert (Ht : truthy gs || truthy kws = false).
    { destruct gs as [[|? ?]|], kws as [[|? ?]|]; done. }
    rewrite Ht in H. cbn [bind] in H.
    destruct (decide ((∅ : gset Z) = ∅)); [by injection H as <-|done].
  - intros x Hx. destruct (truthy gs || truthy kws).
    + destruct (find_movies_by_criteria db gs kws 50) as [cl|e] eqn:Ef; [|done].
      cbn [bind] in H. destruct (decide (list_to_set cl = (∅ : gset Z))).
      { injection H as <-. by apply elem_of_nil in Hx. }
      destruct (get_movies_by_ids db (slice_to (elements (list_to_set cl : gset Z)) top_k))
        as [md|e] eqn:Em; [|done].
      cbn [bind] in H. injection H as <-.
      apply list_elem_of_fmap in Hx as (d & -> & Hd).
      destruct (get_movies_by_ids_keys _ _ _ Em) as (Hnd & Hkeys & _).
      destruct (dict_values_get md d Hnd Hd) as (k & Hk).
      assert (Hkin : k ∈ cl).
      { assert (Hk' : k ∈ dict_keys md) by (apply dict_get_is_Some; eauto).
        apply Hkeys in Hk'.
        apply (fun H => elem_of_submseteq _ _ _ H (slice_to_submseteq _ top_k)) in Hk'.
        by rewrite elem_of_elements, elem_of_list_to_set in Hk'. }
      destruct (find_movies_by_criteria_matches _ _ _ _ _ k Ef Hkin)
        as (r' & Hr' & Hid' & Hm).
      unfold get_movies_by_ids in Em.
      destruct (slice_to (elements (list_to_set cl : gset Z)) top_k) as [|i0 ids0] eqn:Es.
      { injection Em as <-. done. }
      destruct (connect db) as [table|e] eqn:Hc; [|done].
      assert (Htable : table = movies db).
      { unfold connect in Hc. destruct (connect_fault db); [done|]. by injection Hc. }
      destruct (get_movies_by_ids_lookup db table (i0 :: ids0) Hc) as (md' & Em' & Hl).
      unfold get_movies_by_ids in Em'. rewrite Hc in Em'. cbn [bind] in Em, Em'.
      rewrite Em in Em'. injection Em' as <-.
      specialize (Hl k). rewrite Hk in Hl. destruct Hl as (_ & r & Hr & Hid & ->).
      subst table. exists r, r'. repeat split; try done. congruence.
    + cbn [bind] in H. destruct (decide ((∅ : gset Z) = ∅)); [|done].
      injection H as <-. by apply elem_of_nil in Hx.
Qed.

(** X25 on an index without vectors: the three sample rows match. *)
Lemma criteria_path_returns_matching_rows_witness :
  (default [] (load_strs Fixtures.lists <$> Some 2%positive) = [] →
   default [] (load_strs Fixtures.lists <$> None) = [] →
   RowDict <$> (data_of_row <$> Sample.table) = [])
  ∧ ∀ x, x ∈ RowDict <$> (data_of_row <$> Sample.table) →
         ∃ r r', r ∈ movies Sample.db ∧ x = RowDict (data_of_row r) ∧
                 r' ∈ movies Sample.db ∧ row_movie_id r' = row_movie_id r ∧
                 ((∃ g, g ∈ default [] (load_strs Fixtures.lists <$> Some 2%positive) ∧
                        ilike Sample.db (row_genres r') ("%" +:+ g +:+ "%") = true) ∨
                  (∃ kw, kw ∈ default [] (load_strs Fixtures.lists <$> None) ∧
                         ilike Sample.db (row_title r') ("%" +:+ kw +:+ "%") = true)).
Proof.
  apply (criteria_path_returns_matching_rows
           (Sample.service Sample.vectorless_index) Fixtures.lists
           (Some 1%positive) (Some 2%positive) None None None 3
           (RowDict <$> (data_of_row <$> Sample.table)));
    vm_compute; reflexivity.
Defined.

End CriteriaPath.

Section PerfectMatches.
Import RecommendationService.

Lemma ratio_bounds (i u : nat) :
  (0 < u)%nat → (i ≤ u)%nat →
  let q := (inject_Z (Z.of_nat i) / inject_Z (Z.of_nat u))%Q in
  (0 <= q)%Q ∧ (q <= 1)%Q ∧ ((q == 1)%Q ↔ i = u) ∧ ((q == 0)%Q ↔ i = O).
Proof.
  intros Hu Hi q.
  assert (Hpos : (0 < inject_Z (Z.of_nat u))%Q).
  { change 0%Q with (inject_Z 0). rewrite <- Zlt_Qlt. lia. }
  assert (Hne : ¬ (inject_Z (Z.of_nat u) == 0)%Q).
  { intros H. rewrite H in Hpos. by apply Qlt_irrefl in Hpos. }
  split; [|split; [|split]].
  - apply Qle_shift_div_l; [done|]. rewrite Qmult_0_l.
    change 0%Q with (inject_Z 0). rewrite <- Zle_Qle. lia.
  - apply Qle_shift_div_r; [done|]. rewrite Qmult_1_l. rewrite <- Zle_Qle. lia.
  - split.
    + intros H. assert (H' : (inject_Z (Z.of_nat i) == inject_Z (Z.of_nat u))%Q).
      { rewrite <- (Qmult_div_r (inject_Z (Z.of_nat i)) (inject_Z (Z.of_nat u))) by done.
        fold q. rewrite H. apply Qmult_1_r. }
      apply (proj1 (inject_Z_injective _ _)) in H'. lia.
    + intros ->. unfold q. by apply Qmult_inv_r.
  - split.
    + intros H. assert (H' : (inject_Z (Z.of_nat i) == inject_Z 0)%Q).
      { rewrite <- (Qmult_div_r (inject_Z (Z.of_nat i)) (inject_Z (Z.of_nat u))) by done.
        fold q. rewrite H. apply Qmult_0_r. }
      apply (proj1 (inject_Z_injective _ _)) in H'. lia.
    + intros ->. unfold q. simpl. unfold Qdiv. apply Qmult_0_l.
Qed.

Lemma StronglySorted_lookup {A} (R : A → A → Prop) (l : list A) (i j : nat) (x y : A) :
  StronglySorted R l → (i < j)%nat → l !! i = Some x → l !! j = Some y → R x y.
Proof.
  intros Hs. revert i j. induction Hs as [|a l Hs IH Hall]; intros i j Hij Hi Hj.
  - done.
  - destruct j as [|j]; [lia|]. destruct i as [|i].
    + injection Hi as ->. rewrite Forall_forall in Hall. apply Hall.
      by eapply list_elem_of_lookup_2.
    + apply (IH i j); [lia|done|done].
Qed.

(** X29: the Jaccard score of a candidate lies between 0 and 1; it is 0
    exactly for a candidate that shares no genre with the target and 1
    exactly for a candidate whose set of genres is the target set.  In
    the ranking, every candidate whose genres are the target set stands
    before every candidate whose genres are not. *)
Theorem perfect_matches_lead (target_genres : list string) (movies : list Movie) :
  target_genres ≠ [] →
  (∀ m, (0 <= jaccard_similarity target_genres m)%Q ∧
        (jaccard_similarity target_genres m <= 1)%Q ∧
        ((jaccard_similarity target_genres m == 1)%Q ↔
           movie_genres m = target_set target_genres) ∧
        ((jaccard_similarity target_genres m == 0)%Q ↔
           ¬ shares_genre target_genres m))
  ∧ (∀ i j a b,
       _rank_by_genre_similarity movies target_genres !! i = Some a →
       _rank_by_genre_similarity movies target_genres !! j = Some b →
       movie_genres a = target_set target_genres →
       movie_genres b ≠ target_set target_genres →
       (i < j)%nat).
Proof.
  intros Hne.
  assert (Hbounds : ∀ m,
    (0 <= jaccard_similarity target_genres m)%Q ∧
    (jaccard_similarity target_genres m <= 1)%Q ∧
    ((jaccard_similarity target_genres m == 1)%Q ↔
       movie_genres m = target_set target_genres) ∧
    ((jaccard_similarity target_genres m == 0)%Q ↔
       ¬ shares_genre target_genres m)).
  { intros m. unfold jaccard_similarity, shares_genre.
    set (A := movie_genres m). set (B := target_set target_genres).
    assert (Hu : (0 < size (A ∪ B))%nat).
    { destruct target_genres as [|g gs]; [done|].
      assert (Hin : lower g ∈ A ∪ B).
      { apply elem_of_union_r. unfold B, target_set.
        apply elem_of_list_to_set, list_elem_of_fmap. exists g. split; [done|].
        apply elem_of_cons. by left. }
      destruct (size (A ∪ B)) eqn:E; [|lia].
      apply size_empty_inv in E. by apply E in Hin. }
    assert (Hi : (size (A ∩ B) ≤ size (A ∪ B))%nat).
    { apply subseteq_size. intros x Hx. apply elem_of_intersection in Hx as [Hx _].
      by apply elem_of_union_l. }
    destruct (ratio_bounds _ _ Hu Hi) as (H0 & H1 & Heq1 & Heq0).
    split; [done|]. split; [done|]. split.
    - rewrite Heq1. split.
      + intros Hsz.
        assert (Heq : A ∩ B ≡ A ∪ B).
        { apply set_subseteq_size_equiv; [|lia]. intros x Hx.
          apply elem_of_intersection in Hx as [Hx _]. by apply elem_of_union_l. }
        apply set_eq. intros x. split; intros Hx.
        * assert (Hx' : x ∈ A ∩ B) by (apply Heq; by apply elem_of_union_l).
          by apply elem_of_intersection in Hx' as [_ ?].
        * assert (Hx' : x ∈ A ∩ B) by (apply Heq; by apply elem_of_union_r).
          by apply elem_of_intersection in Hx' as [? _].
      + intros ->. f_equal. apply leibniz_equiv. intros x.
        rewrite elem_of_intersection, elem_of_union. tauto.
    - rewrite Heq0. split.
      + intros Hsz Hs. apply Hs. apply leibniz_equiv. by apply size_empty_inv.
      + intros Hs. destruct (decide (A ∩ B = ∅)) as [->|Hn]; [apply size_empty|].
        by destruct Hs. }
  split; [exact Hbounds|].
  intros i j a b Ha Hb Hpa Hpb.
  destruct (rank_by_genre_similarity_spec movies target_genres Hne) as [_ Hsorted].
  destruct (Nat.lt_trichotomy i j) as [Hlt|[->|Hgt]]; [done| |].
  - rewrite Ha in Hb. injection Hb as <-. done.
  - exfalso.
    pose proof (StronglySorted_lookup _ _ _ _ _ _ Hsorted Hgt Hb Ha) as Hr.
    destruct (Hbounds a) as (_ & _ & Ha1 & _).
    destruct (Hbounds b) as (_ & Hb1 & Hb1' & _).
    apply Ha1 in Hpa. unfold ranks_before in Hr. rewrite Hpa in Hr.
    destruct Hr as [Hr|[Hr _]].
    + apply Qlt_not_le in Hr. done.
    + by apply Hb1' in Hr.
Qed.

(** X29 on the target {Action} and one candidate. *)
Lemma perfect_matches_lead_witness :
  (jaccard_similarity ["Action"] (Sample.movie 1 "Action" 1) == 1)%Q ↔
  movie_genres (Sample.movie 1 "Action" 1) = target_set ["Action"].
Proof.
  assert (Hne : ["Action"] ≠ []) by discriminate.
  exact (proj1 (proj2 (proj2 (proj1
           (perfect_matches_lead ["Action"] [Sample.movie 1 "Action" 1] Hne)
           (Sample.movie 1 "Action" 1))))).
Defined.

End PerfectMatches.

(* ===================================================================== *)
(** ** The HTTP endpoints (main.py)                                        *)
(* ===================================================================== *)

Section RecommendEndpoint.
Import RecommendationService Endpoints.
Variable json_dumps : list item → result string.
Variable json_loads : string → result (list item).

Lemma uncached_call (self : value) (svc : Service) (rand : nat → nat)
    (user_id top_k : Z) (ab_group : string) (lg : list log_event) :
  call_recommend_for_user json_dumps json_loads self svc rand user_id top_k ab_group
    (None, lg) =
  (Ok (recommend_for_user_wrapped svc rand user_id top_k ab_group).1,
   (None, lg ++ (recommend_for_user_wrapped svc rand user_id top_k ab_group).2)).
Proof.
  unfold call_recommend_for_user, recommend_for_user, Cache.cache_result,
    Cache.compute_and_store.
  cbn [fst].
  change (bind_arguments [self; VInt user_id]
            [("top_k", VInt top_k); ("ab_group", VStr ab_group)])
    with (Ok (user_id, top_k, ab_group)).
  cbv beta iota.
  by destruct (recommend_for_user_wrapped svc rand user_id top_k ab_group).
Qed.

Lemma vector_means_ready (svc : Service) (user_id : Z) (v : vector) :
  get_user_vector svc user_id = Ok (Some v) → is_ready svc = true.
Proof.
  unfold get_user_vector, is_ready.
  by destruct (_user_embeddings svc), (_user_encoder svc).
Qed.

Lemma served_without_fallback (svc : Service) (rand : nat → nat)
    (user_id top_k : Z) (ab_group : string) (v : vector) :
  get_user_vector svc user_id = Ok (Some v) →
  ¬ falls_back user_id (recommend_for_user_wrapped svc rand user_id top_k ab_group).2.
Proof.
  intros Hv. rewrite (recommend_for_user_with_vector _ _ _ _ _ _ Hv).
  cbv zeta. unfold falls_back.
  destruct (bind _ _) as [movies|e]; cbn [snd]; rewrite !elem_of_app.
  - intros [H|H]; [by apply fallback_not_in_debug in H|by apply elem_of_nil in H].
  - intros [H|[H|H]]; [by apply fallback_not_in_debug in H|by apply elem_of_nil in H|].
    by apply list_elem_of_singleton in H.
Qed.

(** X26: [GET /recommend/{user_id}].  Before the embeddings are loaded
    the answer is 503, and for a user without a vector 404; in both
    cases neither the cache nor the index is touched.  For a user with a
    vector and no cache client the answer is always 200: it carries the
    user id, the group of the request scope ("control" when the scope
    has none) and the list of the service, which is empty when the index
    or the store fails.  The cold-start fallback of the service is never
    entered from this endpoint.  The only error statuses are 503, 404
    and 500. *)
Theorem recommend_endpoint_statuses (scope_group : option string)
    (user_id top_k : Z) (self : value) (svc : Service) (rand : nat → nat)
    (w : Cache.world) :
  let r := recommend json_dumps json_loads scope_group user_id top_k self svc rand w in
  (is_ready svc = false → r = (HTTPException 503 ModelNotLoaded, w))
  ∧ (is_ready svc = true → get_user_vector svc user_id = Ok None →
     r = (HTTPException 404 UserNotFound, w))
  ∧ (∀ v lg, get_user_vector svc user_id = Ok (Some v) → w = (None, lg) →
       let g := default "control" scope_group in
       let served := recommend_for_user_wrapped svc rand user_id top_k g in
       r = (RecommendationResponse user_id served.1 g, (None, lg ++ served.2))
       ∧ ¬ falls_back user_id served.2)
  ∧ (∀ uid movies g, r.1 = RecommendationResponse uid movies g →
       uid = user_id ∧ g = default "control" scope_group ∧
       ∃ v, get_user_vector svc user_id = Ok (Some v))
  ∧ (∀ s d, r.1 = HTTPException s d → s = 503 ∨ s = 404 ∨ s = 500).
Proof.
  intros r. unfold r, recommend. split; [|split; [|split; [|split]]].
  - by intros ->.
  - by intros -> ->.
  - intros v lg Hv ->. cbv zeta. rewrite (vector_means_ready _ _ _ Hv), Hv.
    cbn [negb]. rewrite uncached_call. split; [done|].
    by apply (served_without_fallback _ _ _ _ _ v).
  - intros uid movies g. destruct (is_ready svc); cbn [negb]; [|done].
    destruct (get_user_vector svc user_id) as [[v|]|e] eqn:Hv; [|done|done].
    destruct (call_recommend_for_user _ _ _ _ _ _ _ _ _) as [[ms|e] w'];
      cbn [fst]; [|done].
    intros [= <- <- <-]. repeat split; eauto.
  - intros s d. destruct (is_ready svc); cbn [negb]; [|intros [= <- _]; by left].
    destruct (get_user_vector svc user_id) as [[v|]|e] eqn:Hv;
      [|intros [= <- _]; by right; left|done].
    destruct (call_recommend_for_user _ _ _ _ _ _ _ _ _) as [[ms|e] w'];
      cbn [fst]; [done|]. intros [= <- _]. by right; right.
Qed.

End RecommendEndpoint.

Section ColdStartEndpoint.
Import RecommendationService SearchService Endpoints.

(** X27: [POST /recommend/cold_start].  A request without ids, genres,
    keywords and query is refused with 400 before the service is
    called, and the caller's lists stay as they are.  The 404 that the
    endpoint raises for an empty result is raised inside its own [try]
    block and caught by [except Exception]: an empty result is answered
    with 500, and the endpoint never answers 404.  A 200 answer is for
    user 0 in group "control" and holds at least one movie; with a
    well-behaved index it holds at most [top_k] movies, all distinct. *)
Theorem cold_start_endpoint_statuses (request : ColdStartRequest) (svc : Service)
    (search_service : ContentSearchService) (h : heap) :
  let r := Endpoints.recommend_cold_start request svc search_service h in
  let served :=
    RecommendationService.recommend_cold_start svc h
      (Some (selected_movie_ids request)) (genres request) (keywords request)
      (query request) (Some search_service) (top_k request) in
  (status r.1.1 = 200 ∨ status r.1.1 = 400 ∨ status r.1.1 = 500)
  ∧ (has_valid_input h request = false → query_given request = false →
     r = (HTTPException 400 NoInputProvided, h, []))
  ∧ (has_valid_input h request = true ∨ query_given request = true →
     served.1.1 = Ok [] →
     r.1.1 = HTTPException 500 (ColdStartFailed NoMatchingMovies))
  ∧ (∀ uid movies g, r.1.1 = RecommendationResponse uid movies g →
       uid = 0 ∧ g = "control" ∧ movies ≠ [] ∧ served.1.1 = Ok movies ∧
       (index_well_behaved (vector_repo svc) → 0 ≤ top_k request →
        Z.of_nat (length movies) ≤ top_k request ∧ NoDup (item_id <$> movies))).
Proof.
  intros r served. unfold r, Endpoints.recommend_cold_start.
  fold served. split; [|split; [|split]].
  - destruct (negb (has_valid_input h request) && negb (query_given request));
      [by right; left|].
    destruct served as [[[[|m ms]|e] h'] lg]; cbn [fst status]; auto.
  - by intros -> ->.
  - intros Hin Hs.
    assert (E : negb (has_valid_input h request) && negb (query_given request) = false).
    { destruct Hin as [-> | ->]; [done|]. by rewrite andb_false_r. }
    rewrite E. destruct served as [[res h'] lg]. cbn [fst] in Hs. by subst res.
  - intros uid movies g.
    destruct (negb (has_valid_input h request) && negb (query_given request)); [done|].
    destruct served as [[[[|m ms]|e] h'] lg] eqn:Es; cbn [fst]; [done| |done].
    intros [= <- <- <-]. split; [done|]. split; [done|]. split; [done|].
    split; [done|]. intros Hidx Hk.
    assert (Hs : served.1.1 = Ok (m :: ms)) by (by rewrite Es).
    revert Hs. unfold served, RecommendationService.recommend_cold_start.
    destruct (neural_search _ _) as [found lg0]. cbn [fst].
    by apply cold_start_strategies_bounded.
Qed.

End ColdStartEndpoint.

Section Health.
Import RecommendationService Endpoints.

(** X28: [GET /health] probes the metadata store and nothing else.  The
    answer is 503 with status "unhealthy" exactly when the connection to
    the store fails, and 200 with status "healthy" otherwise, whether or
    not the embeddings are loaded.  [qdrant_status] is "connected" in
    every answer: the vector index is never contacted, and the answer
    does not depend on it.  [known_users] is the number of known user
    ids, which is 0 before the embeddings are loaded. *)
Theorem health_check_probes_store_only (movie_repo : Postgres) (service : Service) :
  let body := (health_check movie_repo service).1 in
  let code := (health_check movie_repo service).2 in
  qdrant_status body = "connected"
  ∧ (connect_fault movie_repo = None →
     code = 200 ∧ health body = "healthy" ∧ db_status body = "connected")
  ∧ (connect_fault movie_repo ≠ None →
     code = 503 ∧ health body = "unhealthy" ∧ db_status body = "disconnected")
  ∧ embeddings_loaded body = is_ready service
  ∧ known_users body = length (get_known_user_ids service)
  ∧ (is_ready service = false → known_users body = O)
  ∧ (∀ q, health_check movie_repo
            {| movie_repo := RecommendationService.movie_repo service;
               vector_repo := q;
               _user_embeddings := _user_embeddings service;
               _user_encoder := _user_encoder service |} =
          health_check movie_repo service).
Proof.
  intros body code. unfold body, code, health_check, connect.
  destruct (connect_fault movie_repo) as [e|]; cbn [fst snd qdrant_status health
    db_status embeddings_loaded known_users];
    (split; [done|]); (split; [done|]); (split; [done|]); (split; [done|]);
    (split; [|split; [|done]]).
  all: unfold is_ready, get_known_user_ids;
    by destruct (_user_embeddings service), (_user_encoder service).
Qed.

End Health.
